(** * server.py: metric extraction and rolling time series, verified

    A shallow embedding of [server.py] (the poller of a JSON status
    endpoint with CSV persistence) and the proofs of its specification.

    Conventions of the embedding.
    - A Python [str] is a [string]; every character stands for the code
      point of the same number (0 to 255).  Character-level functions work
      on [list ascii], reached through [list_ascii_of_string].
    - A Python [int] is a [Z]; a Python [float] is an IEEE 754 binary64
      value, a [spec_float] with precision 53 and maximal exponent 1024.
    - A Python [dict] is an association list in insertion order; the
      module-level [_series] dictionary is a [gmap] from metric names to
      bounded deques.
    - A function that may raise returns a [result].
    - What the program reads from outside is an argument: the clock, the
      response of the endpoint, the rows of the CSV file.

    Not modelled: the sleeps of the two loops (the order in which their
    turns run is an argument), the failures of the file system, the
    endpoint [/config] and the static files, and two limits of the
    library, stated as hypotheses where they matter: the 4300 digits
    that [int()] and [str()] handle by default since Python 3.11, and
    the 131072 characters of a field of [csv.reader]. *)

From Stdlib Require Import ZArith Ascii String List Bool Lia Sorted.
From Stdlib Require Import Floats.SpecFloat.
From stdpp Require Import base option list gmap strings pretty.

Set Default Proof Using "Type".

(* ================================================================== *)
(** * Characters and strings *)
(* ================================================================== *)

Module Chars.

Definition code (c : ascii) : N := N_of_ascii c.

Definition in_range (lo hi : N) (c : ascii) : bool :=
  ((lo <=? code c) && (code c <=? hi))%N.

(** [[0-9]]; on code points below 256 this is also the class [\d]. *)
Definition is_digit (c : ascii) : bool := in_range 48 57 c.

(** [Py_UNICODE_ISSPACE], the class [\s] of a [str] pattern, on code
    points below 256: TAB..CR, FS..US, space, NEL and NBSP. *)
Definition is_space (c : ascii) : bool :=
  in_range 9 13 c || in_range 28 31 c || (code c =? 32)%N
  || (code c =? 133)%N || (code c =? 160)%N.

(** [Py_ISSPACE], the white space skipped by [float()] and [int()]
    once the text is transliterated to ASCII. *)
Definition is_c_space (c : ascii) : bool :=
  in_range 9 13 c || (code c =? 32)%N.

Definition digit_val (c : ascii) : Z := Z.of_N (code c) - 48.

(** [str.upper] and [str.lower] on the letters a-z and A-Z. *)
Definition upper (c : ascii) : ascii :=
  if in_range 97 122 c then ascii_of_N (code c - 32) else c.
Definition lower (c : ascii) : ascii :=
  if in_range 65 90 c then ascii_of_N (code c + 32) else c.

Definition eqb (a b : ascii) : bool := Ascii.eqb a b.

End Chars.

#[global] Arguments Chars.is_digit : simpl never.
#[global] Arguments Chars.is_space : simpl never.
#[global] Arguments Chars.is_c_space : simpl never.
#[global] Arguments Chars.eqb : simpl never.
#[global] Arguments Chars.upper : simpl never.
#[global] Arguments Chars.lower : simpl never.
#[global] Arguments Chars.digit_val : simpl never.

Abbreviation chars := list_ascii_of_string.
Abbreviation text := string_of_list_ascii.

Definition str_upper (s : string) : string := text (map Chars.upper (chars s)).

(** [sep.join(parts)] *)
Fixpoint str_join (sep : string) (parts : list string) : string :=
  match parts with
  | [] => ""
  | [p] => p
  | p :: rest => p +:+ sep +:+ str_join sep rest
  end.

(** [s.split(".")]: the pieces between the dots, empty pieces included. *)
Fixpoint split_dot_go (cur : list ascii) (s : list ascii) : list string :=
  match s with
  | [] => [text (rev cur)]
  | c :: s' =>
      if Chars.eqb c "." then text (rev cur) :: split_dot_go [] s'
      else split_dot_go (c :: cur) s'
  end.
Definition split_dot (s : string) : list string := split_dot_go [] (chars s).

(* ================================================================== *)
(** * Regular expressions ([re.fullmatch])

    The two patterns of the program use character classes, the greedy
    quantifiers [*], [+] and [?], concatenation and groups.  The matcher
    is the backtracking matcher of [re]: it explores the alternatives of
    every quantifier longest first and returns the groups of the first
    way to match the whole text. *)
(* ================================================================== *)

Module Re.

Inductive regex : Type :=
| Eps
| Chr (p : ascii -> bool)            (* one character of a class *)
| Star (p : ascii -> bool)           (* [c*], greedy *)
| Plus (p : ascii -> bool)           (* [c+], greedy *)
| Opt (r : regex)                    (* [r?], greedy *)
| Cat (r1 r2 : regex)
| Group (n : nat) (r : regex)        (* capturing group number [n] *)
| NoCapture (r : regex).             (* [(?:r)] *)

(** The groups that took part in the match, most recent first. *)
Definition captures := list (nat * string).

Section Matcher.
Context {A : Type}.

(** [c*] followed by [k]: as many characters as possible, then one
    fewer, and so on. *)
Fixpoint star_k (p : ascii -> bool) (s : list ascii)
    (k : list ascii -> option A) : option A :=
  match s with
  | c :: s' =>
      if p c then
        match star_k p s' k with
        | Some r => Some r
        | None => k s
        end
      else k s
  | [] => k []
  end.
End Matcher.

(** The text consumed between the position [s] and the later position
    [s'] (a suffix of [s]). *)
Definition consumed (s s' : list ascii) : string :=
  text (firstn (length s - length s') s).

Fixpoint run (r : regex) (s : list ascii) (cs : captures)
    (k : list ascii -> captures -> option captures) : option captures :=
  match r with
  | Eps => k s cs
  | Chr p =>
      match s with
      | c :: s' => if p c then k s' cs else None
      | [] => None
      end
  | Star p => star_k p s (fun s' => k s' cs)
  | Plus p =>
      match s with
      | c :: s' => if p c then star_k p s' (fun s'' => k s'' cs) else None
      | [] => None
      end
  | Opt r' =>
      match run r' s cs k with
      | Some m => Some m
      | None => k s cs
      end
  | Cat r1 r2 => run r1 s cs (fun s' cs' => run r2 s' cs' k)
  | Group n r' => run r' s cs (fun s' cs' => k s' ((n, consumed s s') :: cs'))
  | NoCapture r' => run r' s cs k
  end.

Definition at_end (s : list ascii) (cs : captures) : option captures :=
  match s with [] => Some cs | _ :: _ => None end.

(** [re.fullmatch(r, s)]: [None] when the text does not match. *)
Definition fullmatch (r : regex) (s : string) : option captures :=
  run r (chars s) [] at_end.

(** [m.group(n)]: [None] for a group that did not take part. *)
Fixpoint group (m : captures) (n : nat) : option string :=
  match m with
  | [] => None
  | (i, g) :: m' => if Nat.eqb i n then Some g else group m' n
  end.

End Re.

Import Re.

Definition is_unit_letter (c : ascii) : bool :=
  existsb (Chars.eqb c) (chars "kKmMgGtTpP").

Definition is_bracket (c : ascii) : bool :=
  Chars.eqb c "[" || Chars.eqb c "]".

#[global] Arguments is_unit_letter : simpl never.
#[global] Arguments is_bracket : simpl never.

(** [r"\s*([0-9]*\.?[0-9]+)\s*([kKmMgGtTpP]?)\s*"] *)
Definition number_re : regex :=
  Cat (Star Chars.is_space)
 (Cat (Group 1 (Cat (Star Chars.is_digit)
               (Cat (Opt (Chr (Chars.eqb ".")))
                    (Plus Chars.is_digit))))
 (Cat (Star Chars.is_space)
 (Cat (Group 2 (Opt (Chr is_unit_letter)))
      (Star Chars.is_space)))).

(** [r"([^\[\]]+)(?:\[(\d+)\])?"] *)
Definition segment_re : regex :=
  Cat (Group 1 (Plus (fun c => negb (is_bracket c))))
      (Opt (NoCapture (Cat (Chr (Chars.eqb "["))
                      (Cat (Group 2 (Plus Chars.is_digit))
                           (Chr (Chars.eqb "]")))))).

(* ================================================================== *)
(** * Results and exceptions *)
(* ================================================================== *)

Inductive result (E A : Type) : Type :=
| Ok (a : A)
| Raise (e : E).
Arguments Ok {E A} a.
Arguments Raise {E A} e.

Definition bind {E A B} (r : result E A) (f : A -> result E B) : result E B :=
  match r with
  | Ok a => f a
  | Raise e => Raise e
  end.

Notation "'do' x <- r ; k" := (bind r (fun x => k))
  (at level 10, x name, r at level 100, k at level 200).

(* ================================================================== *)
(** * Floating point numbers (binary64) *)
(* ================================================================== *)

Module Float.

Definition float : Type := spec_float.

Definition prec : Z := 53.
Definition emax : Z := 1024.

Definition mul : float -> float -> float := SFmul prec emax.
Definition sub : float -> float -> float := SFsub prec emax.
Definition ltb : float -> float -> bool := SFltb.

Definition zero : float := S754_zero false.

Definition is_inf (x : float) : bool :=
  match x with S754_infinity _ => true | _ => false end.

(** The integer [n] rounded to the nearest float, ties to even. *)
Definition of_Z (n : Z) : float := binary_normalize prec emax n 0 false.

(** The quotient [p / q] of two positive integers rounded to the
    nearest float, ties to even, with the sign [neg]. *)
Definition of_ratio (neg : bool) (p q : Z) : float :=
  let '(mz, ez, lz) := SFdiv_core_binary prec emax p 0 q 0 in
  binary_round_aux prec emax neg mz ez lz.

(** The decimal number [m * 10^e], [0 <= m], rounded to the nearest
    float. *)
Definition of_decimal (neg : bool) (m e : Z) : float :=
  if (m =? 0)%Z then S754_zero neg
  else of_ratio neg (m * 10 ^ Z.max e 0)%Z (10 ^ Z.max (- e) 0)%Z.

(** Python's [max(a, b)] on floats: [b] only when [b > a]. *)
Definition max (a b : float) : float := if ltb a b then b else a.

End Float.

Abbreviation float := Float.float.

(* ================================================================== *)
(** * Built-in conversions: [int()], [float()], [str()], [format()] *)
(* ================================================================== *)

Module Py.

(** The longest prefix of [s] in the class [p], and the rest. *)
Fixpoint span (p : ascii -> bool) (s : list ascii) : list ascii * list ascii :=
  match s with
  | c :: s' =>
      if p c then let '(a, b) := span p s' in (c :: a, b) else ([], s)
  | [] => ([], [])
  end.

Fixpoint lstrip (s : list ascii) : list ascii :=
  match s with
  | c :: s' => if Chars.is_c_space c then lstrip s' else s
  | [] => []
  end.
Definition strip (s : list ascii) : list ascii := rev (lstrip (rev (lstrip s))).

(** [int()] and [float()] read a [str] through its transliteration:
    ASCII characters are kept, other white space becomes a space and
    any other character a question mark. *)
Definition to_ascii (c : ascii) : ascii :=
  if (Chars.code c <? 127)%N then c
  else if Chars.is_space c then " "%char else "?"%char.

(** The value of a run of decimal digits, most significant first. *)
Definition digits_val (ds : list ascii) : Z :=
  fold_left (fun acc c => 10 * acc + Chars.digit_val c)%Z ds 0%Z.

(** Underscores may separate digits: each one stands between two
    digits and is dropped. The argument [prev] is the character before. *)
Fixpoint drop_underscores (prev : option ascii) (s : list ascii)
    : option (list ascii) :=
  match s with
  | [] =>
      match prev with
      | Some "_"%char => None
      | _ => Some []
      end
  | c :: s' =>
      if Chars.eqb c "_" then
        match prev with
        | Some d => if Chars.is_digit d then drop_underscores (Some c) s' else None
        | None => None
        end
      else
        match prev with
        | Some "_"%char =>
            if Chars.is_digit c
            then option_map (cons c) (drop_underscores (Some c) s') else None
        | _ => option_map (cons c) (drop_underscores (Some c) s')
        end
  end.

(** An optional sign: [true] for a minus. *)
Definition read_sign (s : list ascii) : bool * list ascii :=
  match s with
  | "-"%char :: s' => (true, s')
  | "+"%char :: s' => (false, s')
  | _ => (false, s)
  end.

(** [int(s)] for a [str]: [None] stands for the [ValueError].  The
    limit of 4300 digits that CPython 3.11 and later put on the text by
    default is not part of the function: on a text of at most 4300
    characters it is [int()] of every version, and a statement about a
    text from outside says that it is that short. *)
Definition int_of_str (s : string) : option Z :=
  let s1 := strip (map to_ascii (chars s)) in
  let '(neg, s2) := read_sign s1 in
  match drop_underscores None s2 with
  | Some ds =>
      match ds with
      | [] => None
      | _ :: _ =>
          if forallb Chars.is_digit ds
          then Some (if neg then - digits_val ds else digits_val ds)%Z
          else None
      end
  | None => None
  end.

(** [str(n)] for an [int]. *)
Definition str_of_int (n : Z) : string := pretty n.

Definition is_exp_mark (c : ascii) : bool := Chars.eqb c "e" || Chars.eqb c "E".

(** The exponent part after the mantissa: nothing, or [e], an optional
    sign and digits up to the end. *)
Definition read_exponent (s : list ascii) : option Z :=
  match s with
  | [] => Some 0%Z
  | c :: s' =>
      if is_exp_mark c then
        let '(neg, s2) := read_sign s' in
        match s2 with
        | [] => None
        | _ :: _ =>
            if forallb Chars.is_digit s2
            then Some (if neg then - digits_val s2 else digits_val s2)%Z
            else None
        end
      else None
  end.

(** A decimal literal without sign: digits, an optional point and
    digits, at least one digit in all, and an optional exponent. The
    result is the pair of [m] and [e] with value [m * 10^e]. *)
Definition read_decimal (s : list ascii) : option (Z * Z) :=
  let '(ip, r1) := span Chars.is_digit s in
  let '(fp, r2) :=
    match r1 with
    | "."%char :: r => span Chars.is_digit r
    | _ => ([], r1)
    end in
  match ip ++ fp with
  | [] => None
  | _ :: _ =>
      match read_exponent r2 with
      | Some e => Some (digits_val (ip ++ fp), e - Z.of_nat (length fp))%Z
      | None => None
      end
  end.

Definition lower_text (s : list ascii) : string := text (map Chars.lower s).

(** [float(s)] for a [str]: [None] stands for the [ValueError]. *)
Definition float_of_str (s : string) : option float :=
  let s1 := strip (map to_ascii (chars s)) in
  match drop_underscores None s1 with
  | Some s2 =>
      let '(neg, s3) := read_sign s2 in
      match read_decimal s3 with
      | Some (m, e) => Some (Float.of_decimal neg m e)
      | None =>
          let w := lower_text s3 in
          if (String.eqb w "inf" || String.eqb w "infinity")%bool
          then Some (S754_infinity neg)
          else if String.eqb w "nan" then Some S754_nan
          else None
      end
  | None => None
  end.

(** [float(n)] for an [int]: [None] stands for the [OverflowError]
    of an integer beyond the range of floats. *)
Definition float_of_int (n : Z) : option float :=
  let f := Float.of_Z n in
  if Float.is_inf f then None else Some f.

(** ** [format(x, ".12g")] *)

(** [10^X <= p / q], for positive [p] and [q]. *)
Definition ge_pow10 (p q X : Z) : bool :=
  if (0 <=? X)%Z then (q * 10 ^ X <=? p)%Z else (q <=? p * 10 ^ (- X))%Z.

Fixpoint dec_exp_go (fuel : nat) (p q X : Z) : Z :=
  match fuel with
  | O => X
  | S fuel' => if ge_pow10 p q X then X else dec_exp_go fuel' p q (X - 1)%Z
  end.

(** The decimal exponent of [p / q]: the largest [X] with
    [10^X <= p / q]. *)
Definition dec_exp (p q : Z) : Z :=
  dec_exp_go (Z.to_nat (Z.log2 p + Z.log2 q + 2)) p q (Z.log2 p).

(** [n / d] rounded to the nearest integer, ties to even. *)
Definition div_half_even (n d : Z) : Z :=
  let q := (n / d)%Z in
  match (2 * (n mod d) ?= d)%Z with
  | Lt => q
  | Gt => (q + 1)%Z
  | Eq => if Z.even q then q else (q + 1)%Z
  end.

(** The [nd] significant digits of [p / q], as an integer in
    [10^(nd-1), 10^nd), and the decimal exponent of the rounded value. *)
Definition sig_digits (nd p q : Z) : Z * Z :=
  let X := dec_exp p q in
  let s := (nd - 1 - X)%Z in
  let d := div_half_even (p * 10 ^ Z.max s 0)%Z (q * 10 ^ Z.max (- s) 0)%Z in
  if (d =? 10 ^ nd)%Z then (10 ^ (nd - 1), X + 1)%Z else (d, X).

Definition is_zero_char (c : ascii) : bool := Chars.eqb c "0".

Fixpoint drop_zeros (s : list ascii) : list ascii :=
  match s with
  | c :: s' => if is_zero_char c then drop_zeros s' else s
  | [] => []
  end.
Definition rstrip_zeros (s : list ascii) : list ascii :=
  rev (drop_zeros (rev s)).

(** The digits [ip], then a point and the digits [fp] unless [fp] is
    empty. *)
Definition with_point (ip fp : list ascii) : list ascii :=
  match fp with
  | [] => ip
  | _ :: _ => ip ++ "."%char :: fp
  end.

(** The exponent of the scientific notation: a sign and at least two
    digits. *)
Definition exp_text (X : Z) : list ascii :=
  (if (X <? 0)%Z then "-"%char else "+"%char)
  :: (if (Z.abs X <? 10)%Z then ["0"%char] else [])
  ++ chars (pretty (Z.abs_N X)).

(** The digits [d] with the decimal exponent [X]: scientific notation
    when [X < -4] or [nd <= X], positional notation otherwise, trailing
    zeros of the fraction removed in both. *)
Definition format_g_digits (nd d X : Z) : list ascii :=
  let ds := chars (pretty (Z.to_N d)) in
  if ((X <? -4) || (nd <=? X))%Z then
    match ds with
    | c :: rest => with_point [c] (rstrip_zeros rest) ++ "e"%char :: exp_text X
    | [] => []
    end
  else if (X <? 0)%Z then
    "0"%char :: "."%char :: repeat "0"%char (Z.to_nat (- X - 1)) ++ rstrip_zeros ds
  else
    with_point (firstn (Z.to_nat (X + 1)) ds)
               (rstrip_zeros (skipn (Z.to_nat (X + 1)) ds)).

Definition format_g_pos (nd p q : Z) : list ascii :=
  let '(d, X) := sig_digits nd p q in format_g_digits nd d X.

(** [f"{x:.12g}"] *)
Definition format_12g (x : float) : string :=
  match x with
  | S754_nan => "nan"
  | S754_infinity s => if s then "-inf" else "inf"
  | S754_zero s => if s then "-0" else "0"
  | S754_finite s m e =>
      let p := (Z.pos m * 2 ^ Z.max e 0)%Z in
      let q := (2 ^ Z.max (- e) 0)%Z in
      text ((if s then ["-"%char] else []) ++ format_g_pos 12 p q)
  end.

End Py.

(* ================================================================== *)
(** * Dictionaries and JSON values *)
(* ================================================================== *)

(** A [dict] with [str] keys: its items in insertion order. *)
Abbreviation dict V := (list (string * V)).

Module Dict.
Section Ops.
Context {V : Type}.

(** [d.get(k)] *)
Fixpoint get (d : dict V) (k : string) : option V :=
  match d with
  | [] => None
  | (k', v) :: d' => if String.eqb k' k then Some v else get d' k
  end.

(** [k in d] *)
Definition mem (d : dict V) (k : string) : bool :=
  match get d k with Some _ => true | None => false end.

(** [d[k] = v]: a key already present keeps its place. *)
Fixpoint set (d : dict V) (k : string) (v : V) : dict V :=
  match d with
  | [] => [(k, v)]
  | (k', v') :: d' =>
      if String.eqb k' k then (k', v) :: d' else (k', v') :: set d' k v
  end.

Definition keys (d : dict V) : list string := map fst d.
End Ops.
End Dict.

#[local] Set Warnings "-register-all".

(** What [resp.json()] returns. *)
Inductive json : Type :=
| JNull
| JBool (b : bool)
| JInt (n : Z)
| JFloat (x : float)
| JStr (s : string)
| JList (l : list json)
| JDict (d : list (string * json)).

Inductive exn : Type :=
| KeyError (msg : string)
| ValueError (msg : string)
(** [ValueError(f"Cannot parse numeric value from: {val!r}")]: the
    message is this text followed by [repr(val)]; the model keeps [val]. *)
| ValueError_cannot_parse (val : json)
| TypeError (msg : string)
| AttributeError (msg : string)
| OverflowError (msg : string).

Abbreviation res := (result exn).

(** [float(v)] for a value of any type. *)
Definition py_float (v : json) : res float :=
  match v with
  | JFloat x => Ok x
  | JInt n =>
      match Py.float_of_int n with
      | Some x => Ok x
      | None => Raise (OverflowError "int too large to convert to float")
      end
  | JBool b => Ok (Float.of_Z (if b then 1 else 0))
  | JStr s =>
      match Py.float_of_str s with
      | Some x => Ok x
      | None => Raise (ValueError "could not convert string to float")
      end
  | JNull | JList _ | JDict _ =>
      Raise (TypeError "float() argument must be a string or a real number")
  end.

(** [m.group(n)] as a value: a [str], or [None]. *)
Definition group_value (m : captures) (n : nat) : json :=
  match group m n with
  | Some g => JStr g
  | None => JNull
  end.

(** [v.upper()], a method of [str] only. *)
Definition str_upper_of (v : json) : res string :=
  match v with
  | JStr s => Ok (str_upper s)
  | _ => Raise (AttributeError "object has no attribute 'upper'")
  end.

(* ================================================================== *)
(** * Helpers: [parse_unit_number] and [get_by_dot_path] *)
(* ================================================================== *)

(** [UNIT_MAP = {"": 1.0, "K": 1e3, "M": 1e6, "G": 1e9, "T": 1e12, "P": 1e15}] *)
Definition UNIT_MAP : dict float :=
  [ ("", Float.of_decimal false 10 (-1));
    ("K", Float.of_decimal false 1 3);
    ("M", Float.of_decimal false 1 6);
    ("G", Float.of_decimal false 1 9);
    ("T", Float.of_decimal false 1 12);
    ("P", Float.of_decimal false 1 15) ].

Definition parse_unit_number (val : json) : res float :=
  match val with
  | JInt _ | JBool _ | JFloat _ => py_float val
  | JStr s =>
      match fullmatch number_re s with
      | Some m =>
          do num <- py_float (group_value m 1);
          do unit <- str_upper_of (group_value m 2);
          Ok (Float.mul num (default (Float.of_decimal false 10 (-1)) (Dict.get UNIT_MAP unit)))
      | None =>
          match Py.float_of_str s with
          | Some x => Ok x
          | None => Raise (ValueError_cannot_parse val)
          end
      end
  | JNull | JList _ | JDict _ => Raise (ValueError_cannot_parse val)
  end.

Definition key_not_found (key path : string) : exn :=
  KeyError ("Key '" +:+ key +:+ "' not found in path '" +:+ path +:+ "'").

Definition index_out_of_range (i : Z) (key path : string) : exn :=
  KeyError ("Index [" +:+ Py.str_of_int i +:+ "] out of range for '" +:+ key
            +:+ "' in path '" +:+ path +:+ "'").

Definition bad_segment (part : string) : exn :=
  KeyError ("Bad path segment: " +:+ part).

(** The body of the loop of [get_by_dot_path] over the parts of the
    path, from the node [cur]. *)
Fixpoint walk_path (path : string) (cur : json) (parts : list string) : res json :=
  match parts with
  | [] => Ok cur
  | part :: rest =>
      match fullmatch segment_re part with
      | None => Raise (bad_segment part)
      | Some m =>
          (* the first group takes part in every match *)
          let key := default "None" (group m 1) in
          let idx := group m 2 in
          match cur with
          | JDict d =>
              match Dict.get d key with
              | None => Raise (key_not_found key path)
              | Some cur1 =>
                  match idx with
                  | None => walk_path path cur1 rest
                  | Some ds =>
                      match Py.int_of_str ds with
                      | None => Raise (ValueError "invalid literal for int()")
                      | Some i =>
                          match cur1 with
                          | JList l =>
                              if ((0 <=? i) && (i <? Z.of_nat (length l)))%Z then
                                match l !! Z.to_nat i with
                                | Some cur2 => walk_path path cur2 rest
                                | None => Raise (index_out_of_range i key path)
                                end
                              else Raise (index_out_of_range i key path)
                          | _ => Raise (index_out_of_range i key path)
                          end
                      end
                  end
              end
          | _ => Raise (key_not_found key path)
          end
      end
  end.

Definition get_by_dot_path (obj : json) (path : string) : res json :=
  walk_path path obj (split_dot path).

(* ================================================================== *)
(** * Configuration *)
(* ================================================================== *)

(** The module-level constants read from the environment. [WINDOW_SIZE]
    is the [maxlen] of a deque, hence not negative. *)
Record config : Type := {
  METRICS : dict string;
  SCALES : dict json;
  WINDOW_SIZE : nat;
  RETENTION_MS : Z;
  PERSIST_ENABLED : bool
}.

(* ================================================================== *)
(** * In-memory series: [_series] *)
(* ================================================================== *)

(** A point [(timestamp_ms, value)]. *)
Abbreviation sample := (Z * float)%type.

(** [collections.deque] with a [maxlen]. *)
Record deque : Type := { maxlen : nat; items : list sample }.

(** [deque(maxlen=n)] *)
Definition deque_new (n : nat) : deque := {| maxlen := n; items := [] |}.

(** [d.append(x)]: the new item goes to the right end; a deque longer
    than [maxlen] then loses its left end. *)
Definition deque_append (d : deque) (x : sample) : deque :=
  let l := items d ++ [x] in
  {| maxlen := maxlen d;
     items := if (maxlen d <? length l)%nat then tail l else l |}.

(** [while d and (t_ms - d[0][0]) > RETENTION_MS: d.popleft()] *)
Fixpoint drop_expired (horizon t_ms : Z) (l : list sample) : list sample :=
  match l with
  | [] => []
  | (ts, v) :: l' =>
      if (horizon <? t_ms - ts)%Z then drop_expired horizon t_ms l' else l
  end.

Abbreviation series := (gmap string deque).

(** [{name: deque(maxlen=WINDOW_SIZE) for name in METRICS.keys()}] *)
Definition series_init (cfg : config) : series :=
  list_to_map (map (fun name => (name, deque_new (WINDOW_SIZE cfg)))
                   (Dict.keys (METRICS cfg))).

(** Lines 242 to 245 of the poller on one deque. *)
Definition push_sample (cfg : config) (t_ms : Z) (v : float) (d : deque) : deque :=
  let d1 := deque_append d (t_ms, v) in
  {| maxlen := maxlen d1;
     items := drop_expired (RETENTION_MS cfg) t_ms (items d1) |}.

(** [_series[name].append((t_ms, v))] and the loop that follows; the
    subscript raises [KeyError] for an unknown name. *)
Definition series_append (cfg : config) (st : series) (name : string)
    (t_ms : Z) (v : float) : res series :=
  match st !! name with
  | None => Raise (KeyError name)
  | Some d => Ok (<[name := push_sample cfg t_ms v d]> st)
  end.

(* ================================================================== *)
(** * Persistence: the CSV file

    The file is modelled by the rows that [csv.reader] yields from it,
    a blank line being the empty row; [csv.writer] and [csv.reader] are
    inverse of each other on rows of text.  A file that does not exist is
    [None].  Failures of the file system are not modelled.

    The rows stand for a file as [csv.writer] leaves it: every line ends
    with a line end, and no field is beyond the limit of [csv.reader]
    (131072 characters).  On another file the program differs from the
    functions below: rows appended after a last line without a line end
    are glued to it, and a field beyond the limit makes the reader raise
    out of the loops of [_load_history_into_memory] and [_compact_csv],
    whose outer [except] then ends the load where it is and leaves the
    file as it was.  A statement about a file found on disk says that it
    is a log that the program wrote, or that its fields are short. *)
(* ================================================================== *)

Abbreviation row := (list string).
Abbreviation file := (option (list (list string))).

Definition CSV_HEADER : row := ["ts_ms"; "metric"; "value"].

(** [_persist_append(ts_ms, batch)] *)
Definition _persist_append (cfg : config) (ts_ms : Z) (batch : dict float)
    (f : file) : file :=
  if negb (PERSIST_ENABLED cfg) then f
  else
    let rows :=
      map (fun '(name, val) => [Py.str_of_int ts_ms; name; Py.format_12g val]) batch in
    match f with
    | None => Some (CSV_HEADER :: rows)
    | Some old => Some (old ++ rows)
    end.

(** The dictionary [csv.DictReader] builds from a row: the fields by
    name, and [None] for the names that the row is too short for. *)
Definition row_dict (fieldnames : row) (r : row) : dict (option string) :=
  fold_left (fun d key => Dict.set d key None)
            (skipn (length r) fieldnames)
            (fold_left (fun d '(key, x) => Dict.set d key (Some x))
                       (zip fieldnames r) []).

(** [row[key]] *)
Definition row_get (d : dict (option string)) (key : string) : res (option string) :=
  match Dict.get d key with
  | Some x => Ok x
  | None => Raise (KeyError key)
  end.

(** [int(x)] and [float(x)] for a field, which is a [str] or [None]. *)
Definition int_of_field (x : option string) : res Z :=
  match x with
  | None => Raise (TypeError "int() argument must be a string or a real number")
  | Some s =>
      match Py.int_of_str s with
      | Some n => Ok n
      | None => Raise (ValueError "invalid literal for int()")
      end
  end.

Definition float_of_field (x : option string) : res float :=
  match x with
  | None => py_float JNull
  | Some s => py_float (JStr s)
  end.

(** The body of the loop of [_load_history_into_memory] for one row
    of the reader; [None] stands for [continue] without an append. *)
Definition load_row (cutoff : Z) (st : series) (d : dict (option string))
    : res (option (string * sample)) :=
  do x <- row_get d "ts_ms";
  do ts <- int_of_field x;
  if (ts <? cutoff)%Z then Ok None
  else
    do m <- row_get d "metric";
    match m with
    | None => Ok None
    | Some metric =>
        match st !! metric with
        | None => Ok None
        | Some _ =>
            do y <- row_get d "value";
            do val <- float_of_field y;
            Ok (Some (metric, (ts, val)))
        end
    end.

Definition load_step (cutoff : Z) (st : series) (r : row) : series :=
  match r with
  | [] => st
  | _ :: _ =>
      match load_row cutoff st (row_dict CSV_HEADER r) with
      | Ok (Some (metric, x)) =>
          match st !! metric with
          | Some d => <[metric := deque_append d x]> st
          | None => st
          end
      | Ok None | Raise _ => st
      end
  end.

(** [_load_history_into_memory()], at the time [now_ms]. *)
Definition _load_history_into_memory (cfg : config) (now_ms : Z) (f : file)
    (st : series) : series :=
  match f with
  | Some rows =>
      if negb (PERSIST_ENABLED cfg) then st
      else
        let cutoff := (now_ms - RETENTION_MS cfg)%Z in
        match rows with
        | [] => st
        | fieldnames :: body =>
            if decide (fieldnames = CSV_HEADER)
            then fold_left (load_step cutoff) body st
            else st
        end
  | None => st
  end.

(** The body of the loop of [_compact_csv] for one row of the reader:
    the row written, if any. *)
Definition compact_row (cfg : config) (cutoff : Z) (d : dict (option string))
    : res (option row) :=
  do x <- row_get d "ts_ms";
  do ts <- int_of_field x;
  do m <- row_get d "metric";
  if ((cutoff <=? ts)%Z
      && match m with Some metric => Dict.mem (METRICS cfg) metric | None => false end)%bool
  then
    do y <- row_get d "value";
    Ok (Some [default "" x; default "" m; default "" y])
  else Ok None.

Definition compact_step (cfg : config) (cutoff : Z) (fieldnames : row) (r : row)
    : list row :=
  match r with
  | [] => []
  | _ :: _ =>
      match compact_row cfg cutoff (row_dict fieldnames r) with
      | Ok (Some r') => [r']
      | Ok None | Raise _ => []
      end
  end.

(** [_compact_csv()], at the time [now_ms]. *)
Definition _compact_csv (cfg : config) (now_ms : Z) (f : file) : file :=
  match f with
  | Some rows =>
      if negb (PERSIST_ENABLED cfg) then f
      else
        let cutoff := (now_ms - RETENTION_MS cfg)%Z in
        match rows with
        | [] => Some [CSV_HEADER]
        | fieldnames :: body =>
            Some (CSV_HEADER :: concat (map (compact_step cfg cutoff fieldnames) body))
        end
  | None => f
  end.

(* ================================================================== *)
(** * The poller *)
(* ================================================================== *)

(** What one turn of the loop reads from outside: the clock in
    milliseconds at its start, the payload of the response ([None] when
    the request, the status check or the decoding raised), and the
    value of [time.time()] read while a metric is processed. *)
Record tick : Type := {
  t_ms : Z;
  response : option json;
  now_s : string -> float
}.

(** The memory and the disk. *)
Record world : Type := { mem : series; disk : file }.

Definition COMPUTED_AGE : string := "__computed__.lastshare_age_s".

(** [payload.get("lastshare", now)] *)
Definition payload_get_lastshare (payload : json) (now : float) : res json :=
  match payload with
  | JDict d => Ok (default (JFloat now) (Dict.get d "lastshare"))
  | _ => Raise (AttributeError "object has no attribute 'get'")
  end.

(** Lines 231 to 237: the value of a metric before scaling. *)
Definition extract_value (payload : json) (path : string) (now : float) : res float :=
  if String.eqb path COMPUTED_AGE then
    do lastshare <- payload_get_lastshare payload now;
    do l <- py_float lastshare;
    Ok (Float.max Float.zero (Float.sub now l))
  else
    do raw <- get_by_dot_path payload path;
    parse_unit_number raw.

(** Lines 231 to 240: [value_f]. *)
Definition extract_metric (cfg : config) (payload : json) (name path : string)
    (now : float) : res float :=
  do value <- extract_value payload path now;
  do scale <- py_float (default (JFloat (Float.of_decimal false 10 (-1)))
                                (Dict.get (SCALES cfg) name));
  Ok (Float.mul value scale).

(** One turn of the loop over [METRICS.items()]: the series and the
    batch after it. Any exception leaves both as they are. *)
Definition poll_metric (cfg : config) (tk : tick) (payload : json)
    (acc : series * dict float) (item : string * string) : series * dict float :=
  let '(name, path) := item in
  match
    (do value_f <- extract_metric cfg payload name path (now_s tk name);
     do st <- series_append cfg (fst acc) name (t_ms tk) value_f;
     Ok (st, Dict.set (snd acc) name value_f))
  with
  | Ok acc' => acc'
  | Raise _ => acc
  end.

(** The loop over the items of a dictionary of metrics, from an empty
    batch. *)
Definition poll_items (cfg : config) (tk : tick) (payload : json)
    (items : dict string) (st : series) : series * dict float :=
  fold_left (poll_metric cfg tk payload) items (st, []).

(** The loop over [METRICS.items()]. *)
Definition poll_metrics (cfg : config) (tk : tick) (payload : json)
    (st : series) : series * dict float :=
  poll_items cfg tk payload (METRICS cfg) st.

(** One turn of the [while True] loop, without its sleep. An exception
    of the request ends the turn before anything is changed. *)
Definition poll_cycle (cfg : config) (w : world) (tk : tick) : world :=
  match response tk with
  | None => w
  | Some payload =>
      let '(st, batch_to_persist) := poll_metrics cfg tk payload (mem w) in
      {| mem := st;
         disk := match batch_to_persist with
                 | [] => disk w
                 | _ :: _ => _persist_append cfg (t_ms tk) batch_to_persist (disk w)
                 end |}
  end.

(** The turns of the loop for the ticks given. *)
Definition poller (cfg : config) (ticks : list tick) (w : world) : world :=
  fold_left (poll_cycle cfg) ticks w.

(* ================================================================== *)
(** * Start-up, the compactor and the read interface *)
(* ================================================================== *)

(** [deque(iterable, maxlen=n)]: a new deque to which the items are
    appended in turn. *)
Definition deque_of_list (n : nat) (l : list sample) : deque :=
  fold_left deque_append l (deque_new n).

(** The first loop of [on_startup]: every series is made anew, with
    [maxlen=WINDOW_SIZE], from the points it holds. *)
Definition resize_all (cfg : config) (st : series) : series :=
  (fun d => deque_of_list (WINDOW_SIZE cfg) (items d)) <$> st.

(** [on_startup()], up to the two tasks that it starts. *)
Definition on_startup (cfg : config) (now_ms : Z) (f : file) (st : series) : series :=
  _load_history_into_memory cfg now_ms f (resize_all cfg st).

(** [compactor_loop()], for the times at which it compacts. *)
Definition compactor_loop (cfg : config) (times : list Z) (f : file) : file :=
  if negb (PERSIST_ENABLED cfg) then f
  else fold_left (fun f now_ms => _compact_csv cfg now_ms f) times f.

(** [get_data()]: the points of every series, by name. *)
Definition get_data (st : series) : gmap string (list sample) := items <$> st.

(** A turn of one of the two tasks that [on_startup] starts: a turn of
    the loop of the poller, or a compaction at the time [now_ms]. The
    event loop runs one task at a time and changes task at an [await]
    only; a turn of the poller reads the clock, awaits the response and
    only then touches the series and the file, so a compaction that
    runs while it waits counts as a turn before it. *)
Inductive turn : Type :=
| Poll (tk : tick)
| Compact (now_ms : Z).

Definition task_turn (cfg : config) (w : world) (tn : turn) : world :=
  match tn with
  | Poll tk => poll_cycle cfg w tk
  | Compact now_ms =>
      {| mem := mem w; disk := compactor_loop cfg [now_ms] (disk w) |}
  end.

(** The turns of the two tasks, in the order in which they run. *)
Definition run_tasks (cfg : config) (turns : list turn) (w : world) : world :=
  fold_left (task_turn cfg) turns w.

(** The life of the process: the series of the module, the start-up
    at the time [now_ms] on the file [f], then the two tasks. *)
Definition run_server (cfg : config) (now_ms : Z) (f : file) (turns : list turn) : world :=
  run_tasks cfg turns {| mem := on_startup cfg now_ms f (series_init cfg); disk := f |}.

(* ================================================================== *)
(** * Vocabulary of the statements *)
(* ================================================================== *)

(** An append to the store as the poller does it: a [KeyError] of
    the subscript is caught and nothing changes. *)
Definition append_or_skip (cfg : config) (st : series) (op : string * sample) : series :=
  match series_append cfg st op.1 op.2.1 op.2.2 with
  | Ok st' => st'
  | Raise _ => st
  end.

(** The store after a sequence of appends. *)
Definition run_appends (cfg : config) (ops : list (string * sample)) (st : series) : series :=
  fold_left (append_or_skip cfg) ops st.

(** The points appended to one metric, in order. *)
Definition appends_of (name : string) (ops : list (string * sample)) : list sample :=
  map snd (filter (fun op => String.eqb op.1 name) ops).

(** The number of points not older than [horizon] when the last one of
    the list is appended. *)
Definition count_within (horizon : Z) (l : list sample) : nat :=
  match last l with
  | Some (latest, _) =>
      length (filter (fun x : sample => (latest - x.1 <=? horizon)%Z) l)
  | None => 0
  end.

(** Timestamps in strictly ascending order. *)
Definition ascending (l : list sample) : Prop := StronglySorted Z.lt (map fst l).

(** A row as the compactor writes it: a timestamp that [int()] reads
    and that is not before [cutoff], a configured metric, a value. *)
Definition kept_row (cfg : config) (cutoff : Z) (r : row) : bool :=
  match r with
  | [ts; metric; _] =>
      match Py.int_of_str ts with
      | Some t => (cutoff <=? t)%Z && Dict.mem (METRICS cfg) metric
      | None => false
      end
  | _ => false
  end.

(** A compacted log: the header and kept rows only. *)
Definition compacted (cfg : config) (cutoff : Z) (f : file) : Prop :=
  exists body, f = Some (CSV_HEADER :: body)
               /\ forallb (kept_row cfg cutoff) body = true.

(** Every character of the text is in the class. *)
Definition all_of (p : ascii -> bool) (s : string) : bool := forallb p (chars s).

Definition str_lower (s : string) : string := text (map Chars.lower (chars s)).

(** A decimal number written with the digits [ip] and, when [fp] is
    not empty, a point and the digits [fp]. *)
Definition decimal_text (ip fp : string) : string :=
  text (Py.with_point (chars ip) (chars fp)).

(** The float nearest to that decimal number. *)
Definition decimal_value (ip fp : string) : float :=
  Float.of_decimal false (Py.digits_val (chars ip ++ chars fp))
                   (- Z.of_nat (String.length fp)).

(** The multipliers of the specification: none 1, K 1e3, M 1e6, G 1e9,
    T 1e12, P 1e15, in either case. *)
Definition unit_table : dict float :=
  [ ("", Float.of_Z 1);
    ("k", Float.of_Z (10 ^ 3)); ("K", Float.of_Z (10 ^ 3));
    ("m", Float.of_Z (10 ^ 6)); ("M", Float.of_Z (10 ^ 6));
    ("g", Float.of_Z (10 ^ 9)); ("G", Float.of_Z (10 ^ 9));
    ("t", Float.of_Z (10 ^ 12)); ("T", Float.of_Z (10 ^ 12));
    ("p", Float.of_Z (10 ^ 15)); ("P", Float.of_Z (10 ^ 15)) ].

Definition unit_multiplier (u : string) : option float := Dict.get unit_table u.

(** The texts that read as a number with a unit: white space, a
    decimal number, white space, an optional unit letter, white space. *)
Definition unit_number_text (s : string) : Prop :=
  exists ws1 ip fp ws u ws2 : string,
    s = ws1 +:+ decimal_text ip fp +:+ ws +:+ u +:+ ws2
    /\ all_of Chars.is_space ws1 = true /\ all_of Chars.is_space ws = true
    /\ all_of Chars.is_space ws2 = true
    /\ all_of Chars.is_digit ip = true /\ all_of Chars.is_digit fp = true
    /\ (ip <> "" \/ fp <> "")
    /\ (u = "" \/ exists c, u = String c "" /\ is_unit_letter c = true).

(** A segment of a path: a key and possibly an index. *)
Record segment : Type := { seg_key : string; seg_index : option N }.

(** [key] or [key[idx]] *)
Definition render_segment (sg : segment) : string :=
  match seg_index sg with
  | None => seg_key sg
  | Some i => seg_key sg +:+ "[" +:+ Py.str_of_int (Z.of_N i) +:+ "]"
  end.

(** The segments joined by dots, as in [a.b[idx].c]. *)
Definition render_path (segs : list segment) : string :=
  str_join "." (map render_segment segs).

Definition key_char (c : ascii) : bool :=
  negb (is_bracket c) && negb (Chars.eqb c ".").

(** A key that a path can name: not empty, without dot or bracket. *)
Definition key_ok (k : string) : bool :=
  negb (String.eqb k "") && all_of key_char k.

(** The value at the place that the segments name, by the words of the
    specification: each key must be in a map, each index within a
    sequence; or else a [KeyError] that tells the key and the whole path. *)
Fixpoint resolve (path : string) (segs : list segment) (cur : json) : res json :=
  match segs with
  | [] => Ok cur
  | sg :: rest =>
      match cur with
      | JDict d =>
          match Dict.get d (seg_key sg) with
          | None => Raise (key_not_found (seg_key sg) path)
          | Some v =>
              match seg_index sg with
              | None => resolve path rest v
              | Some i =>
                  match v with
                  | JList l =>
                      match l !! N.to_nat i with
                      | Some x => resolve path rest x
                      | None => Raise (index_out_of_range (Z.of_N i) (seg_key sg) path)
                      end
                  | _ => Raise (index_out_of_range (Z.of_N i) (seg_key sg) path)
                  end
              end
          end
      | _ => Raise (key_not_found (seg_key sg) path)
      end
  end.

(** The float read back from the text that [format(v, ".12g")] writes:
    [v] rounded to twelve significant digits. *)
Definition reload (v : float) : float :=
  default S754_nan (Py.float_of_str (Py.format_12g v)).

(** [_series[name].append(x)] where [name in _series], nothing otherwise. *)
Definition load_push (st : series) (name : string) (x : sample) : series :=
  match st !! name with
  | Some d => <[name := deque_append d x]> st
  | None => st
  end.

(** A log that [_persist_append] can extend and [_load_history_into_memory]
    can read: no file yet, or a file that starts with the header. *)
Definition headed (f : file) : Prop :=
  f = None \/ exists body, f = Some (CSV_HEADER :: body).

(** The pairs of a batch as the load returns them. *)
Definition reloaded (ts : Z) (batch : dict float) : list (string * sample) :=
  map (fun p : string * float => (p.1, (ts, reload p.2))) batch.

(** The store has a series for the configured metrics and for nothing
    else, each with capacity [WINDOW_SIZE] and within it. *)
Definition store_ok (cfg : config) (st : series) : Prop :=
  (forall name, is_Some (st !! name) <-> name ∈ Dict.keys (METRICS cfg))
  /\ (forall name d, st !! name = Some d ->
        maxlen d = WINDOW_SIZE cfg /\ (length (items d) <= WINDOW_SIZE cfg)%nat).

(** The rows that [_persist_append] writes for a batch. *)
Definition batch_rows (ts_ms : Z) (batch : dict float) : list row :=
  map (fun '(name, val) => [Py.str_of_int ts_ms; name; Py.format_12g val]) batch.

(** The last [n] items of a list. *)
Definition lastn {A : Type} (n : nat) (l : list A) : list A :=
  drop (length l - n) l.

(** The appends of a batch polled at [ts_ms], in the order of the batch. *)
Definition batch_ops (ts_ms : Z) (batch : dict float) : list (string * sample) :=
  map (fun p : string * float => (p.1, (ts_ms, p.2))) batch.

(** The batch of one turn of the poller: nothing when the request fails. *)
Definition cycle_batch (cfg : config) (tk : tick) (st : series) : dict float :=
  match response tk with
  | Some payload => (poll_metrics cfg tk payload st).2
  | None => []
  end.

(** The appends of the turns of the poller from the world [w], in order. *)
Fixpoint polled (cfg : config) (ticks : list tick) (w : world) : list (string * sample) :=
  match ticks with
  | [] => []
  | tk :: rest =>
      batch_ops (t_ms tk) (cycle_batch cfg tk (mem w))
      ++ polled cfg rest (poll_cycle cfg w tk)
  end.

(** The row of the log for an append. *)
Definition op_row (op : string * sample) : row :=
  [Py.str_of_int op.2.1; op.1; Py.format_12g op.2.2].

(** The log with rows added at its end; a log that does not exist is
    made with the header when there is a row to add. *)
Definition log_append (rows : list row) (f : file) : file :=
  match rows, f with
  | [], _ => f
  | _ :: _, None => Some (CSV_HEADER :: rows)
  | _ :: _, Some old => Some (old ++ rows)
  end.

(** The point that a row of the log stands for when it is read with
    the cutoff given: the row has at least three fields, [int()] reads
    the first as a time not before the cutoff and [float()] reads the
    third. Fields after the third are not looked at. *)
Definition row_sample (cutoff : Z) (r : row) : option (string * sample) :=
  match r with
  | ts :: metric :: value :: _ =>
      match Py.int_of_str ts, Py.float_of_str value with
      | Some t, Some v => if (t <? cutoff)%Z then None else Some (metric, (t, v))
      | _, _ => None
      end
  | _ => None
  end.

(** The points of the rows of a log, in the order of the rows. *)
Definition log_samples (cutoff : Z) (body : list row) : list (string * sample) :=
  omap (row_sample cutoff) body.

(** The rows that the load reads: the ones after the header, when
    the file exists and starts with the header. *)
Definition log_body (f : file) : list row :=
  match f with
  | Some (fieldnames :: body) => if decide (fieldnames = CSV_HEADER) then body else []
  | _ => []
  end.

(** A point not older than the cutoff. *)
Definition fresh_since (cutoff : Z) (x : sample) : bool := (cutoff <=? x.1)%Z.

(** The window of a series after the appends [apps]: of the points
    within [RETENTION_MS] of the last one, the last [WINDOW_SIZE]. *)
Definition window (cfg : config) (apps : list sample) : list sample :=
  match last apps with
  | Some latest =>
      lastn (WINDOW_SIZE cfg)
            (filter (fresh_since (latest.1 - RETENTION_MS cfg)) apps)
  | None => []
  end.

(** The clock of a turn. *)
Definition turn_time (tn : turn) : Z :=
  match tn with
  | Poll tk => t_ms tk
  | Compact now_ms => now_ms
  end.

(** The clock of the turns of the poller. *)
Definition poll_times (turns : list turn) : list Z :=
  omap (fun tn => match tn with Poll tk => Some (t_ms tk) | Compact _ => None end) turns.

(** The appends of the turns of the two tasks from the world [w]. *)
Fixpoint appended (cfg : config) (turns : list turn) (w : world) : list (string * sample) :=
  match turns with
  | [] => []
  | tn :: rest =>
      match tn with
      | Poll tk => batch_ops (t_ms tk) (cycle_batch cfg tk (mem w))
      | Compact _ => []
      end ++ appended cfg rest (task_turn cfg w tn)
  end.

(** A point as it is read back from the row written for it. *)
Definition reread (x : sample) : sample := (x.1, reload x.2).

(** What a start-up at the time [now] makes of the points of a series
    that were written to the log. *)
Definition restored (cfg : config) (now : Z) (pts : list sample) : list sample :=
  map reread (filter (fresh_since (now - RETENTION_MS cfg)) pts).

(** The texts that are a segment of a path: a key that is not empty
    and has no bracket, alone or followed by digits between brackets. *)
Definition segment_text (part : string) : Prop :=
  exists key idx : list ascii,
    key <> [] /\ forallb (fun c => negb (is_bracket c)) key = true
    /\ (part = text key
        \/ (idx <> [] /\ forallb Chars.is_digit idx = true
            /\ part = text (key ++ "["%char :: idx ++ ["]"%char]))).

(** A point that a compaction with the cutoff given keeps: not older
    than the cutoff, of a configured metric. *)
Definition still_kept (cfg : config) (cutoff : Z) (op : string * sample) : bool :=
  (cutoff <=? op.2.1)%Z && Dict.mem (METRICS cfg) op.1.

(** The limits of the library that the embedding leaves out: [int()]
    and [str()] refuse a number of more than 4300 digits, and
    [csv.reader] a field of more than 131072 characters.  A text of at
    most 4300 characters is within both, and a row of such texts is read
    by the program as it is by the embedding. *)
Definition short_text (s : string) : bool := (String.length s <=? 4300)%nat.
Definition plain_row (r : row) : bool := forallb short_text r.

(** The index of a segment, if any, is written with at most 4300
    digits. *)
Definition index_readable (sg : segment) : bool :=
  match seg_index sg with
  | Some i => short_text (Py.str_of_int (Z.of_N i))
  | None => true
  end.

(** A log as the program itself leaves it: no file yet, and what
    [_persist_append] and [_compact_csv] make of such a log.  Every line
    of it ends with a line end, so that rows appended to it are read back
    as rows. *)
Inductive program_log (cfg : config) : file -> Prop :=
| log_absent : program_log cfg None
| log_appended ts_ms batch f :
    forallb plain_row (batch_rows ts_ms batch) = true ->
    program_log cfg f ->
    program_log cfg (_persist_append cfg ts_ms batch f)
| log_compacted now_ms f :
    program_log cfg f ->
    program_log cfg (_compact_csv cfg now_ms f).

(* ================================================================== *)
(** * Shapes of texts used in the proofs *)
(* ================================================================== *)

(** The text [s] is empty or starts outside the class [p]. *)
Definition stops (p : ascii -> bool) (s : list ascii) : bool :=
  match s with
  | [] => true
  | c :: _ => negb (p c)
  end.

(** The part of [number_re] after the first group. *)
Definition number_tail : regex :=
  Cat (Star Chars.is_space)
 (Cat (Group 2 (Opt (Chr is_unit_letter)))
      (Star Chars.is_space)).

(** The inside of the first group of [number_re]. *)
Definition number_body : regex :=
  Cat (Star Chars.is_digit)
 (Cat (Opt (Chr (Chars.eqb "."))) (Plus Chars.is_digit)).

(** An optional unit letter. *)
Definition unit_text (u : list ascii) : bool :=
  match u with
  | [] => true
  | [c] => is_unit_letter c
  | _ => false
  end.

(** A character that [float()] and [int()] read as it is and that is
    neither white space nor an underscore. *)
Definition solid (c : ascii) : bool :=
  (Chars.code c <? 127)%N && negb (Chars.eqb c "_") && negb (Chars.is_c_space c).

Definition digits_step (acc : Z) (c : ascii) : Z := (10 * acc + Chars.digit_val c)%Z.

Definition dotless (s : string) : bool :=
  forallb (fun c => negb (Chars.eqb c ".")) (chars s).

Definition digits (l : list ascii) : Prop := forallb Chars.is_digit l = true.

(** The exponent part of a float in text: nothing, or [e], a sign and
    digits. *)
Definition exponent_text (tail : list ascii) : Prop :=
  tail = [] \/ exists sg ds, tail = "e"%char :: sg :: ds
                             /\ (sg = "+"%char \/ sg = "-"%char)
                             /\ ds <> [] /\ digits ds.

(** Digits, possibly a point and digits, and an exponent part. *)
Definition float_text (s : list ascii) : Prop :=
  exists ip fp tail (dot : bool),
    s = ip ++ (if dot then "."%char :: fp else []) ++ tail
    /\ digits ip /\ ip <> [] /\ digits fp /\ exponent_text tail.

(* ================================================================== *)
(** * A sample configuration *)
(* ================================================================== *)

Module Demo.

Definition lit (s : string) : float := default S754_nan (Py.float_of_str s).

(** Three of the default metrics, a window of three points and a
    retention of one second. *)
Definition cfg : config :=
  {| METRICS := [("HR1m", "hashrate1m"); ("Workers", "workers");
                 ("Age", COMPUTED_AGE)];
     SCALES := [("HR1m", JFloat (lit "1e-12")); ("Workers", JInt 1)];
     WINDOW_SIZE := 3;
     RETENTION_MS := 1000;
     PERSIST_ENABLED := true |}.

Definition clock (_ : string) : float := lit "1000.5".

Definition tick_ok (t : Z) (payload : json) : tick :=
  {| t_ms := t; response := Some payload; now_s := clock |}.

Definition tick_down (t : Z) : tick :=
  {| t_ms := t; response := None; now_s := clock |}.

Definition payload_full : json :=
  JDict [("hashrate1m", JStr "10.7T"); ("workers", JInt 3);
         ("lastshare", JInt 995)].

Definition payload_no_hashrate : json :=
  JDict [("workers", JInt 4); ("lastshare", JInt 995)].

Definition start : world := {| mem := series_init cfg; disk := None |}.

(** A payload with a list inside a map inside a map, and a path
    into it. *)
Definition payload_nested : json :=
  JDict [("a", JDict [("b", JList [JInt 1; JDict [("c", JStr "leaf")]])])].

Definition path_abc : list segment :=
  [ {| seg_key := "a"; seg_index := None |};
    {| seg_key := "b"; seg_index := Some 1%N |};
    {| seg_key := "c"; seg_index := None |} ].

End Demo.

(* ================================================================== *)
(** * Proofs *)
(* ================================================================== *)

(** ** The series store *)

Section Store.
Variable cfg : config.

Lemma series_append_other (st st' : series) name other t v :
  other <> name ->
  series_append cfg st name t v = Ok st' ->
  st' !! other = st !! other.
Proof.
  unfold series_append. intros Hne H.
  destruct (st !! name) as [d|] eqn:E; [|discriminate].
  injection H as <-. by rewrite lookup_insert_ne.
Qed.

Lemma series_append_same (st : series) name t v d :
  st !! name = Some d ->
  series_append cfg st name t v = Ok (<[name := push_sample cfg t v d]> st).
Proof. unfold series_append. by intros ->. Qed.

Lemma poll_metric_other tk payload (st : series) batch name path other :
  other <> name ->
  (poll_metric cfg tk payload (st, batch) (name, path)).1 !! other = st !! other.
Proof.
  intros Hne. unfold poll_metric.
  destruct (extract_metric cfg payload name path (now_s tk name)) as [v|e]; [|done].
  simpl. destruct (series_append cfg st name (t_ms tk) v) as [st'|e] eqn:E; [|done].
  simpl. eauto using series_append_other.
Qed.

Lemma poll_metric_batch_other tk payload (st : series) batch name path other :
  other <> name ->
  Dict.get (poll_metric cfg tk payload (st, batch) (name, path)).2 other
  = Dict.get batch other.
Proof.
  intros Hne. unfold poll_metric.
  destruct (extract_metric cfg payload name path (now_s tk name)) as [v|e]; [|done].
  simpl. destruct (series_append cfg st name (t_ms tk) v) as [st'|e] eqn:E; [|done].
  simpl. clear E. induction batch as [|[k x] b IH]; simpl.
  - destruct (String.eqb_spec name other); [congruence|done].
  - destruct (String.eqb_spec k name) as [->|Hk]; simpl.
    + destruct (String.eqb_spec name other); [congruence|done].
    + destruct (String.eqb_spec k other); [done|apply IH].
Qed.

Lemma fold_poll_metric_other tk payload items (acc : series * dict float) other :
  other ∉ Dict.keys items ->
  (fold_left (poll_metric cfg tk payload) items acc).1 !! other = acc.1 !! other
  /\ Dict.get (fold_left (poll_metric cfg tk payload) items acc).2 other
     = Dict.get acc.2 other.
Proof.
  revert acc. induction items as [|[name path] items IH]; intros [st b] Hnot; [done|].
  simpl in Hnot. apply not_elem_of_cons in Hnot as [Hne Hnot].
  destruct (IH (poll_metric cfg tk payload (st, b) (name, path)) Hnot) as [H1 H2].
  cbn [fold_left]. rewrite H1, H2. cbn [fst snd].
  split.
  - by apply poll_metric_other.
  - by apply poll_metric_batch_other.
Qed.

End Store.

(** ** Failures of one metric and of the whole request *)

Section Cycle.
Variable cfg : config.

Lemma poll_metric_raise tk payload acc name path e :
  extract_metric cfg payload name path (now_s tk name) = Raise e ->
  poll_metric cfg tk payload acc (name, path) = acc.
Proof. unfold poll_metric. by intros ->. Qed.

Lemma extract_metric_resolver_raise payload name path now e :
  String.eqb path COMPUTED_AGE = false ->
  get_by_dot_path payload path = Raise e ->
  extract_metric cfg payload name path now = Raise e.
Proof. unfold extract_metric, extract_value. by intros -> ->. Qed.

Lemma extract_metric_parser_raise payload name path now raw e :
  String.eqb path COMPUTED_AGE = false ->
  get_by_dot_path payload path = Ok raw ->
  parse_unit_number raw = Raise e ->
  extract_metric cfg payload name path now = Raise e.
Proof. unfold extract_metric, extract_value. intros -> -> H. simpl. by rewrite H. Qed.

Lemma fold_poll_metric_app tk payload pre post acc :
  fold_left (poll_metric cfg tk payload) (pre ++ post) acc
  = fold_left (poll_metric cfg tk payload) post
      (fold_left (poll_metric cfg tk payload) pre acc).
Proof. apply fold_left_app. Qed.

Lemma fold_poll_metric_all_raise tk payload items acc :
  (forall name path, (name, path) ∈ items ->
     exists e, extract_metric cfg payload name path (now_s tk name) = Raise e) ->
  fold_left (poll_metric cfg tk payload) items acc = acc.
Proof.
  induction items as [|[name path] items IH]; intros Hall; [done|].
  cbn [fold_left]. destruct (Hall name path) as [e He]; [left|].
  rewrite (poll_metric_raise _ _ _ _ _ _ He). apply IH.
  intros n p Hin. apply Hall. by right.
Qed.

End Cycle.

(** C7. Within a poll cycle, a metric whose path does not resolve or
    whose value does not parse is left out: the series and the batch are
    those of the cycle run without that metric, its own series is
    unchanged and its name is not in the batch (the names of [METRICS],
    the keys of a dictionary, are distinct). When every metric fails the
    cycle ends normally with the memory and the disk unchanged. *)
Theorem extraction_failure_is_local
    (cfg : config) (tk : tick) (payload : json) (st : series)
    (pre post : dict string) (name path : string) (e : exn) :
  METRICS cfg = pre ++ (name, path) :: post ->
  name ∉ Dict.keys (pre ++ post) ->
  String.eqb path COMPUTED_AGE = false ->
  (get_by_dot_path payload path = Raise e
   \/ exists raw, get_by_dot_path payload path = Ok raw
                  /\ parse_unit_number raw = Raise e) ->
  poll_metrics cfg tk payload st = poll_items cfg tk payload (pre ++ post) st
  /\ (poll_metrics cfg tk payload st).1 !! name = st !! name
  /\ Dict.get (poll_metrics cfg tk payload st).2 name = None
  /\ ((forall n p, (n, p) ∈ pre ++ post ->
         exists e', extract_metric cfg payload n p (now_s tk n) = Raise e') ->
      forall w, response tk = Some payload -> poll_cycle cfg w tk = w).
Proof.
  intros HM Hfresh Hpath Hfail.
  assert (Hraise : extract_metric cfg payload name path (now_s tk name) = Raise e).
  { destruct Hfail as [H|(raw & H1 & H2)].
    - by apply extract_metric_resolver_raise.
    - by eapply extract_metric_parser_raise. }
  assert (Heq : forall st', poll_metrics cfg tk payload st'
                = poll_items cfg tk payload (pre ++ post) st').
  { intros st'. unfold poll_metrics, poll_items. rewrite HM, !fold_poll_metric_app.
    cbn [fold_left]. by rewrite (poll_metric_raise _ _ _ _ _ _ _ Hraise). }
  split; [done|]. rewrite Heq. unfold poll_items.
  destruct (fold_poll_metric_other cfg tk payload (pre ++ post) (st, []) name Hfresh)
    as [H1 H2].
  split; [done|]. split; [done|].
  intros Hall w Hresp. unfold poll_cycle. rewrite Hresp, Heq. unfold poll_items.
  rewrite fold_poll_metric_all_raise by done. by destruct w.
Qed.

Lemma extraction_failure_is_local_witness :
  METRICS Demo.cfg = [] ++ ("HR1m", "hashrate1m")
                        :: [("Workers", "workers"); ("Age", COMPUTED_AGE)]
  /\ (poll_metrics Demo.cfg (Demo.tick_ok 100 Demo.payload_no_hashrate)
        Demo.payload_no_hashrate (series_init Demo.cfg)).1 !! "HR1m"
     = series_init Demo.cfg !! "HR1m".
Proof.
  split; [reflexivity|].
  eapply (extraction_failure_is_local Demo.cfg
            (Demo.tick_ok 100 Demo.payload_no_hashrate)
            Demo.payload_no_hashrate (series_init Demo.cfg)
            [] [("Workers", "workers"); ("Age", COMPUTED_AGE)]
            "HR1m" "hashrate1m"
            (key_not_found "hashrate1m" "hashrate1m")).
  - reflexivity.
  - vm_compute. intros H. repeat (apply elem_of_cons in H as [H|H]; [discriminate|]).
    by apply elem_of_nil in H.
  - reflexivity.
  - left. reflexivity.
Defined.

(** C8. A poll cycle whose request fails changes neither the series in
    memory nor the file on disk, and the loop goes on with the next tick
    as if the failed one had not been. *)
Theorem fetch_failure_aborts_cycle
    (cfg : config) (w : world) (tk : tick) (before after : list tick) :
  response tk = None ->
  poll_cycle cfg w tk = w
  /\ mem (poll_cycle cfg w tk) = mem w
  /\ disk (poll_cycle cfg w tk) = disk w
  /\ poller cfg (before ++ tk :: after) w = poller cfg (before ++ after) w.
Proof.
  intros Hresp.
  assert (H : forall w', poll_cycle cfg w' tk = w').
  { intros w'. unfold poll_cycle. by rewrite Hresp. }
  rewrite H. repeat split.
  unfold poller. rewrite !fold_left_app. cbn [fold_left]. by rewrite H.
Qed.

Lemma fetch_failure_aborts_cycle_witness :
  response (Demo.tick_down 200) = None
  /\ poller Demo.cfg ([Demo.tick_ok 100 Demo.payload_full] ++ Demo.tick_down 200
                        :: [Demo.tick_ok 300 Demo.payload_full]) Demo.start
     = poller Demo.cfg ([Demo.tick_ok 100 Demo.payload_full]
                        ++ [Demo.tick_ok 300 Demo.payload_full]) Demo.start.
Proof.
  split; [reflexivity|].
  apply (fetch_failure_aborts_cycle Demo.cfg Demo.start (Demo.tick_down 200)).
  reflexivity.
Defined.

(** C10. An append to the series of one metric leaves the series of
    every other metric as it is, and so does a whole pass over metrics
    that does not append to it: the points of a series that gets no
    append stay in memory, however old they are. *)
Theorem append_touches_one_series
    (cfg : config) (st : series) (name other : string) :
  other <> name ->
  (forall t v st', series_append cfg st name t v = Ok st' ->
     st' !! other = st !! other)
  /\ (forall tk payload ms batch,
        other ∉ Dict.keys ms ->
        (fold_left (poll_metric cfg tk payload) ms (st, batch)).1 !! other
        = st !! other)
  /\ (forall tk payload ms batch d x,
        other ∉ Dict.keys ms ->
        st !! other = Some d -> x ∈ items d ->
        (RETENTION_MS cfg < t_ms tk - x.1)%Z ->
        exists d', (fold_left (poll_metric cfg tk payload) ms (st, batch)).1
                     !! other = Some d'
                   /\ x ∈ items d').
Proof.
  intros Hne. split; [|split].
  - intros t v st' H. eauto using series_append_other.
  - intros tk payload ms batch Hnot.
    by destruct (fold_poll_metric_other cfg tk payload ms (st, batch) other Hnot).
  - intros tk payload ms batch d x Hnot Hd Hx _.
    exists d. split; [|done].
    destruct (fold_poll_metric_other cfg tk payload ms (st, batch) other Hnot)
      as [-> _]. done.
Qed.

Lemma append_touches_one_series_witness :
  "HR1m" <> "Workers"
  /\ forall t v st',
       series_append Demo.cfg (series_init Demo.cfg) "Workers" t v = Ok st' ->
       st' !! "HR1m" = series_init Demo.cfg !! "HR1m".
Proof.
  split; [discriminate|].
  apply (append_touches_one_series Demo.cfg (series_init Demo.cfg) "Workers" "HR1m").
  discriminate.
Defined.

(** ** The window of a series *)

Section Window.
Variable cfg : config.

Lemma drop_expired_suffix horizon t l :
  exists gone, l = gone ++ drop_expired horizon t l.
Proof.
  induction l as [|[ts v] l [gone IH]]; simpl.
  - by exists [].
  - destruct (horizon <? t - ts)%Z.
    + exists ((ts, v) :: gone). simpl. by f_equal.
    + by exists [].
Qed.

Lemma drop_expired_fresh horizon t l :
  ascending l ->
  Forall (fun x : sample => (t - x.1 <= horizon)%Z) (drop_expired horizon t l).
Proof.
  unfold ascending. induction l as [|[ts v] l IH]; simpl; intros Hs; [constructor|].
  apply StronglySorted_inv in Hs as [Hs Hall].
  destruct (Z.ltb_spec horizon (t - ts)) as [Hlt|Hge]; [by apply IH|].
  constructor; [simpl; lia|].
  apply Forall_forall. intros [ts' v'] Hin.
  rewrite Forall_forall in Hall. specialize (Hall ts').
  assert (ts < ts')%Z.
  { apply Hall. apply list_elem_of_In. apply (in_map fst l (ts', v')).
    by apply list_elem_of_In. }
  simpl. lia.
Qed.

Lemma deque_append_suffix d x :
  exists gone, items d ++ [x] = gone ++ items (deque_append d x).
Proof.
  unfold deque_append. simpl. destruct (maxlen d <? length (items d ++ [x]))%nat.
  - destruct (items d ++ [x]) as [|y l]; [by exists []|]. by exists [y].
  - by exists [].
Qed.

Lemma deque_append_length d x :
  (length (items d) <= maxlen d)%nat ->
  (length (items (deque_append d x)) <= maxlen d)%nat.
Proof.
  unfold deque_append. simpl. intros Hlen.
  destruct (Nat.ltb_spec (maxlen d) (length (items d ++ [x]))) as [Hlt|Hge]; [|done].
  destruct (items d) as [|y l]; simpl in *; [lia|].
  rewrite length_app. simpl. lia.
Qed.

Lemma ascending_suffix (gone l : list sample) :
  ascending (gone ++ l) -> ascending l.
Proof.
  unfold ascending. induction gone as [|x gone IH]; simpl; [done|].
  intros H. apply StronglySorted_inv in H as [H _]. auto.
Qed.

(** One append: the deque holds a suffix of what it held followed by
    the new point, within its capacity, and nothing expired. *)
Lemma push_sample_spec t v d :
  (length (items d) <= maxlen d)%nat ->
  ascending (items d ++ [(t, v)]) ->
  let d' := push_sample cfg t v d in
  maxlen d' = maxlen d
  /\ (exists gone, items d ++ [(t, v)] = gone ++ items d')
  /\ (length (items d') <= maxlen d)%nat
  /\ Forall (fun x : sample => (t - x.1 <= RETENTION_MS cfg)%Z) (items d').
Proof.
  intros Hlen Hasc d'. subst d'. unfold push_sample. cbn [items maxlen].
  destruct (deque_append_suffix d (t, v)) as [g1 H1].
  destruct (drop_expired_suffix (RETENTION_MS cfg) t (items (deque_append d (t, v))))
    as [g2 H2].
  split; [done|]. split; [|split].
  - exists (g1 ++ g2). rewrite <- app_assoc, <- H2. exact H1.
  - pose proof (deque_append_length d (t, v) Hlen) as Hl.
    rewrite H2 in Hl. rewrite length_app in Hl. cbn [maxlen deque_append]. lia.
  - apply drop_expired_fresh. rewrite H1 in Hasc. by eapply ascending_suffix.
Qed.

Lemma fold_push_snoc (apps : list sample) x d :
  fold_left (fun d (p : sample) => push_sample cfg p.1 p.2 d) (apps ++ [x]) d
  = push_sample cfg x.1 x.2
      (fold_left (fun d (p : sample) => push_sample cfg p.1 p.2 d) apps d).
Proof. by rewrite fold_left_app. Qed.

Lemma suffix_fresh_length (P : sample -> bool) (gone l : list sample) :
  Forall (fun x => P x = true) l ->
  (length l <= length (filter P (gone ++ l)))%nat.
Proof.
  intros Hall. rewrite filter_app, length_app.
  assert (filter P l = l) as ->; [|lia].
  induction Hall as [|x l Hx _ IH]; [done|].
  rewrite filter_cons. destruct (decide (P x)) as [_|Hn]; [by f_equal|].
  by rewrite Hx in Hn.
Qed.

(** The appends [apps], in ascending order, to a new deque. *)
Lemma fold_push_spec (apps : list sample) :
  ascending apps ->
  let d := fold_left (fun d (p : sample) => push_sample cfg p.1 p.2 d) apps
                     (deque_new (WINDOW_SIZE cfg)) in
  maxlen d = WINDOW_SIZE cfg
  /\ (exists gone, apps = gone ++ items d)
  /\ (length (items d) <= WINDOW_SIZE cfg)%nat
  /\ (length (items d) <= count_within (RETENTION_MS cfg) apps)%nat.
Proof.
  induction apps as [|[t v] apps IH] using rev_ind; intros Hasc.
  - simpl. repeat split; [by exists []|lia|lia].
  - assert (Hasc' : ascending apps).
    { unfold ascending in *. rewrite map_app in Hasc.
      revert Hasc. generalize (map fst [(t, v)]). generalize (map fst apps).
      induction l as [|a l IHl]; simpl; intros l' H; [constructor|].
      apply StronglySorted_inv in H as [H Hall]. constructor; [eauto|].
      apply Forall_app in Hall. tauto. }
    specialize (IH Hasc'). cbv zeta in IH. destruct IH as (Hm & [gone Hg] & Hl & _).
    cbv zeta. rewrite fold_push_snoc. simpl fst. simpl snd.
    set (d := fold_left _ apps _) in *.
    destruct (push_sample_spec t v d) as (Hm' & [gone' Hg'] & Hl' & Hf).
    { by rewrite Hm. }
    { rewrite Hg, <- app_assoc in Hasc. by eapply ascending_suffix. }
    cbv zeta in *. rewrite Hm in *.
    assert (Heq : apps ++ [(t, v)] = (gone ++ gone') ++ items (push_sample cfg t v d)).
    { rewrite Hg at 1. by rewrite <- !app_assoc, Hg'. }
    repeat split; [done|by exists (gone ++ gone')|done|].
    unfold count_within. rewrite last_snoc. rewrite Heq.
    apply (suffix_fresh_length (fun x : sample => (t - x.1 <=? RETENTION_MS cfg)%Z)).
    eapply Forall_impl; [exact Hf|]. intros x Hx. simpl. by apply Z.leb_le.
Qed.

Lemma series_init_lookup name :
  name ∈ Dict.keys (METRICS cfg) ->
  series_init cfg !! name = Some (deque_new (WINDOW_SIZE cfg)).
Proof.
  unfold series_init. generalize (Dict.keys (METRICS cfg)).
  induction l as [|k l IH]; intros Hin; [by apply elem_of_nil in Hin|].
  simpl. destruct (decide (k = name)) as [->|Hne].
  - by rewrite lookup_insert_eq.
  - rewrite lookup_insert_ne by done. apply IH.
    apply elem_of_cons in Hin as [?|?]; [congruence|done].
Qed.

Lemma run_appends_lookup ops (st : series) name d :
  st !! name = Some d ->
  run_appends cfg ops st !! name
  = Some (fold_left (fun d (p : sample) => push_sample cfg p.1 p.2 d)
                    (appends_of name ops) d).
Proof.
  unfold run_appends, appends_of. revert st d.
  induction ops as [|[n [t v]] ops IH]; intros st d Hd; [done|].
  cbn [fold_left]. rewrite filter_cons. simpl fst.
  unfold append_or_skip at 2. simpl.
  destruct (String.eqb_spec n name) as [->|Hne].
  - rewrite (series_append_same cfg st name t v d Hd).
    destruct (decide _) as [_|Hn]; [|done]. simpl.
    apply IH. by rewrite lookup_insert_eq.
  - destruct (decide _) as [Hn|_]; [done|].
    destruct (series_append cfg st n t v) as [st'|e] eqn:E; [|by apply IH].
    apply IH. rewrite <- Hd. eapply series_append_other; [|exact E]. congruence.
Qed.

End Window.

(** C1. After any sequence of appends to the store of a configuration,
    where the timestamps appended to a configured metric are strictly
    ascending, the series of that metric holds at most [WINDOW_SIZE]
    points and at most as many as were appended within [RETENTION_MS]
    of the last timestamp; its timestamps are strictly ascending; and it
    is what remains of the appended points after dropping oldest ones. *)
Theorem series_window_bounded
    (cfg : config) (ops : list (string * sample)) (name : string) :
  name ∈ Dict.keys (METRICS cfg) ->
  ascending (appends_of name ops) ->
  exists d,
    run_appends cfg ops (series_init cfg) !! name = Some d
    /\ (length (items d)
        <= Nat.min (WINDOW_SIZE cfg)
                   (count_within (RETENTION_MS cfg) (appends_of name ops)))%nat
    /\ ascending (items d)
    /\ exists evicted, appends_of name ops = evicted ++ items d.
Proof.
  intros Hin Hasc.
  eexists. split.
  { apply run_appends_lookup. by apply series_init_lookup. }
  destruct (fold_push_spec cfg (appends_of name ops) Hasc) as (_ & [gone Hg] & Hl & Hc).
  cbv zeta in *. split; [lia|]. split; [|by exists gone].
  rewrite Hg in Hasc. by eapply ascending_suffix.
Qed.

Lemma series_window_bounded_witness :
  "Workers" ∈ Dict.keys (METRICS Demo.cfg)
  /\ exists d,
       run_appends Demo.cfg
         [("Workers", (100, Float.of_Z 3)); ("HR1m", (100, Float.of_Z 7));
          ("Workers", (200, Float.of_Z 4)); ("Workers", (1150, Float.of_Z 5))]%Z
         (series_init Demo.cfg) !! "Workers" = Some d
       /\ (length (items d) <= 3)%nat.
Proof.
  split; [by right; left|].
  destruct (series_window_bounded Demo.cfg
         [("Workers", (100, Float.of_Z 3)); ("HR1m", (100, Float.of_Z 7));
          ("Workers", (200, Float.of_Z 4)); ("Workers", (1150, Float.of_Z 5))]%Z
         "Workers") as (d & Hd & Hlen & _).
  - by right; left.
  - unfold ascending. simpl. repeat constructor.
  - exists d. split; [exact Hd|]. clear Hd. simpl in Hlen. lia.
Defined.

(** ** The age of the last share *)

Lemma sub_self_clamped (x : float) :
  Float.max Float.zero (Float.sub x x) = Float.zero.
Proof.
  destruct x as [[]|[]| |s m e]; try reflexivity.
  unfold Float.sub, SFsub. rewrite Z.sub_diag. reflexivity.
Qed.

(** What the poller stores for the metric: that value times the scale
    of the metric, [1.0] when [SCALES] has none. *)
Lemma lastshare_age_scaled (cfg : config) (d : dict json) (name : string)
    (now value scale : float) :
  extract_value (JDict d) COMPUTED_AGE now = Ok value ->
  py_float (default (JFloat (Float.of_decimal false 10 (-1)))
                    (Dict.get (SCALES cfg) name)) = Ok scale ->
  extract_metric cfg (JDict d) name COMPUTED_AGE now = Ok (Float.mul value scale).
Proof. unfold extract_metric. intros -> H. simpl. by rewrite H. Qed.

(** C6, the claim as stated fails: the metric is not
    [max(0, now - lastshare)] for every payload.  A payload whose
    [lastshare] is null gives no value at all, and with a scale of 1000
    for the metric a last share five and a half seconds old is stored
    as 5500. *)
Lemma lastshare_age_not_for_every_payload :
  (exists e,
     extract_metric Demo.cfg (JDict [("lastshare", JNull)]) "Age" COMPUTED_AGE
       (Demo.lit "1000.5") = Raise e)
  /\ (poll_metrics Demo.cfg (Demo.tick_ok 100 (JDict [("lastshare", JNull)]))
        (JDict [("lastshare", JNull)]) (series_init Demo.cfg)).1 !! "Age"
     = series_init Demo.cfg !! "Age"
  /\ Float.max Float.zero (Float.sub (Demo.lit "1000.5") (Float.of_Z 995))
     = Demo.lit "5.5"
  /\ extract_metric
       {| METRICS := [("Age", COMPUTED_AGE)]; SCALES := [("Age", JInt 1000)];
          WINDOW_SIZE := 3; RETENTION_MS := 1000; PERSIST_ENABLED := true |}
       Demo.payload_full "Age" COMPUTED_AGE (Demo.lit "1000.5")
     = Ok (Demo.lit "5500")
  /\ Demo.lit "5500" <> Demo.lit "5.5".
Proof.
  split; [eexists; by vm_compute|]. repeat split; by vm_compute.
Qed.

(** C6, amended. The value of the metric of the reserved path is
    [max(0.0, now - float(lastshare))] times the scale of the metric
    ([1.0] when [SCALES] has none) on a payload that is an object with a
    [lastshare] that [float()] accepts, and [0.0] times the scale when the
    object has no [lastshare]; there is no value, hence no point, when
    [float()] refuses the [lastshare] or the payload is not an object. *)
Theorem lastshare_age_value
    (cfg : config) (payload : json) (name : string) (now : float) :
  (forall d v l scale,
     payload = JDict d ->
     Dict.get d "lastshare" = Some v -> py_float v = Ok l ->
     py_float (default (JFloat (Float.of_decimal false 10 (-1)))
                       (Dict.get (SCALES cfg) name)) = Ok scale ->
     extract_metric cfg payload name "__computed__.lastshare_age_s" now
     = Ok (Float.mul (Float.max Float.zero (Float.sub now l)) scale))
  /\ (forall d scale,
        payload = JDict d ->
        Dict.get d "lastshare" = None ->
        py_float (default (JFloat (Float.of_decimal false 10 (-1)))
                          (Dict.get (SCALES cfg) name)) = Ok scale ->
        extract_metric cfg payload name "__computed__.lastshare_age_s" now
        = Ok (Float.mul Float.zero scale))
  /\ (forall d v e,
        payload = JDict d ->
        Dict.get d "lastshare" = Some v -> py_float v = Raise e ->
        extract_metric cfg payload name "__computed__.lastshare_age_s" now = Raise e
        /\ forall tk acc,
             now_s tk name = now ->
             poll_metric cfg tk payload acc (name, "__computed__.lastshare_age_s") = acc)
  /\ ((forall d, payload <> JDict d) ->
      exists e,
        extract_metric cfg payload name "__computed__.lastshare_age_s" now = Raise e).
Proof.
  change "__computed__.lastshare_age_s" with COMPUTED_AGE.
  split; [|split; [|split]].
  - intros d v l scale -> Hv Hl Hs. apply lastshare_age_scaled; [|done].
    unfold extract_value, payload_get_lastshare. simpl String.eqb. cbn [bind].
    rewrite Hv. simpl. by rewrite Hl.
  - intros d scale -> Hv Hs. apply lastshare_age_scaled; [|done].
    unfold extract_value, payload_get_lastshare. simpl String.eqb. cbn [bind].
    rewrite Hv. simpl. by rewrite sub_self_clamped.
  - intros d v e -> Hv Hl.
    assert (H : extract_metric cfg (JDict d) name COMPUTED_AGE now = Raise e).
    { unfold extract_metric, extract_value, payload_get_lastshare.
      simpl String.eqb. cbn [bind]. rewrite Hv. simpl. by rewrite Hl. }
    split; [done|]. intros tk acc Hnow. unfold poll_metric. by rewrite Hnow, H.
  - intros Hno. unfold extract_metric, extract_value, payload_get_lastshare.
    simpl String.eqb. destruct payload; try (by eexists). by destruct (Hno d).
Qed.

Lemma lastshare_age_value_witness :
  extract_metric Demo.cfg Demo.payload_full "Age" "__computed__.lastshare_age_s"
    (Demo.lit "1000.5")
  = Ok (Float.mul (Demo.lit "5.5") (Demo.lit "1.0"))
  /\ extract_metric Demo.cfg (JDict [("workers", JInt 3)]) "Age"
       "__computed__.lastshare_age_s" (Demo.lit "1000.5")
     = Ok (Float.mul Float.zero (Demo.lit "1.0")).
Proof.
  split.
  - exact (proj1 (lastshare_age_value Demo.cfg Demo.payload_full "Age" (Demo.lit "1000.5"))
             _ (JInt 995) (Float.of_Z 995) (Demo.lit "1.0") eq_refl eq_refl eq_refl eq_refl).
  - exact (proj1 (proj2 (lastshare_age_value Demo.cfg (JDict [("workers", JInt 3)]) "Age"
                           (Demo.lit "1000.5")))
             _ (Demo.lit "1.0") eq_refl eq_refl eq_refl).
Defined.

(** ** Compaction *)

Section Compaction.
Variable cfg : config.

Lemma compact_step_kept cutoff r :
  kept_row cfg cutoff r = true ->
  compact_step cfg cutoff CSV_HEADER r = [r].
Proof.
  destruct r as [|ts [|m [|v [|? ?]]]]; try discriminate.
  unfold kept_row, compact_step, compact_row. simpl.
  destruct (Py.int_of_str ts) as [t|]; [|discriminate]. simpl.
  by intros ->.
Qed.

Lemma compact_body_kept cutoff body :
  forallb (kept_row cfg cutoff) body = true ->
  concat (map (compact_step cfg cutoff CSV_HEADER) body) = body.
Proof.
  induction body as [|r body IH]; [done|]. simpl.
  intros [Hr Hb]%andb_prop. rewrite compact_step_kept by done.
  simpl. f_equal. auto.
Qed.

Lemma compact_step_output cutoff fieldnames r :
  forallb (kept_row cfg cutoff) (compact_step cfg cutoff fieldnames r) = true.
Proof.
  unfold compact_step. destruct r as [|x r]; [done|].
  destruct (compact_row cfg cutoff (row_dict fieldnames (x :: r))) as [[r'|]|e] eqn:E;
    [|done|done].
  simpl. rewrite andb_true_r. revert E. unfold compact_row.
  generalize (row_dict fieldnames (x :: r)). intros d.
  destruct (row_get d "ts_ms") as [[ts|]|]; simpl; try discriminate.
  destruct (Py.int_of_str ts) as [t|] eqn:Et; simpl; [|discriminate].
  destruct (row_get d "metric") as [[m|]|]; simpl; try discriminate.
  - destruct ((cutoff <=? t)%Z && Dict.mem (METRICS cfg) m) eqn:Ek; [|discriminate].
    destruct (row_get d "value") as [y|]; simpl; [|discriminate].
    intros [= <-]. simpl. by rewrite Et.
  - by rewrite andb_false_r.
Qed.

Lemma compact_body_output cutoff fieldnames body :
  forallb (kept_row cfg cutoff)
          (concat (map (compact_step cfg cutoff fieldnames) body)) = true.
Proof.
  induction body as [|r body IH]; [done|]. simpl.
  rewrite forallb_app, compact_step_output. exact IH.
Qed.

(** What compaction writes is a compacted log. *)
Lemma compact_output now rows :
  PERSIST_ENABLED cfg = true ->
  compacted cfg (now - RETENTION_MS cfg) (_compact_csv cfg now (Some rows)).
Proof.
  intros He. unfold _compact_csv, compacted. rewrite He. simpl.
  destruct rows as [|fieldnames body].
  - by exists [].
  - eexists. split; [reflexivity|]. apply compact_body_output.
Qed.

Lemma compact_fixes_compacted now f :
  compacted cfg (now - RETENTION_MS cfg) f ->
  _compact_csv cfg now f = f.
Proof.
  intros (body & -> & Hbody). unfold _compact_csv.
  destruct (PERSIST_ENABLED cfg); simpl; [|done].
  by rewrite compact_body_kept.
Qed.

(** Compacting twice at one time is compacting once, for any log. *)
Lemma compaction_twice now f :
  _compact_csv cfg now (_compact_csv cfg now f) = _compact_csv cfg now f.
Proof.
  destruct f as [rows|]; [|done].
  destruct (PERSIST_ENABLED cfg) eqn:He.
  - apply compact_fixes_compacted. by apply compact_output.
  - unfold _compact_csv. by rewrite He.
Qed.

End Compaction.

(** C9. Compacting a log that is compacted already, a header followed
    by rows of a known metric whose timestamps are within the retention
    horizon, leaves the log as it is. *)
Theorem compaction_idempotent (cfg : config) (now : Z) (f : file) :
  compacted cfg (now - RETENTION_MS cfg) f ->
  _compact_csv cfg now f = f.
Proof. apply compact_fixes_compacted. Qed.

Lemma compaction_idempotent_witness :
  compacted Demo.cfg (2000 - RETENTION_MS Demo.cfg)
    (Some [CSV_HEADER; ["1200"; "HR1m"; "10.7"]; ["1500"; "Workers"; "3"]])
  /\ _compact_csv Demo.cfg 2000
       (Some [CSV_HEADER; ["1200"; "HR1m"; "10.7"]; ["1500"; "Workers"; "3"]])
     = Some [CSV_HEADER; ["1200"; "HR1m"; "10.7"]; ["1500"; "Workers"; "3"]].
Proof.
  assert (H : compacted Demo.cfg (2000 - RETENTION_MS Demo.cfg)
    (Some [CSV_HEADER; ["1200"; "HR1m"; "10.7"]; ["1500"; "Workers"; "3"]])).
  { eexists. split; [reflexivity|]. vm_compute. reflexivity. }
  split; [exact H|].
  exact (compaction_idempotent Demo.cfg 2000 _ H).
Defined.


(** ** Texts and characters *)

Lemma chars_text (l : list ascii) : chars (text l) = l.
Proof. apply list_ascii_of_string_of_list_ascii. Qed.

Lemma text_chars (s : string) : text (chars s) = s.
Proof. apply string_of_list_ascii_of_string. Qed.

Lemma chars_app (a b : string) : chars (a +:+ b) = chars a ++ chars b.
Proof.
  induction a as [|c a IH]; [done|].
  change (chars (String c (a +:+ b)) = chars (String c a) ++ chars b).
  simpl. by rewrite IH.
Qed.

Lemma text_app (a b : list ascii) : text (a ++ b) = text a +:+ text b.
Proof. induction a as [|c a IH]; [done|]. simpl. by rewrite IH. Qed.

Lemma chars_inj (a b : string) : chars a = chars b -> a = b.
Proof. intros H. by rewrite <- (text_chars a), <- (text_chars b), H. Qed.

(** A fact about every character, by enumeration. *)
Ltac by_chars c := destruct c as [[] [] [] [] [] [] [] []]; vm_compute; try done.

Lemma digit_not_space c : Chars.is_digit c = true -> Chars.is_space c = false.
Proof. by_chars c. Qed.
Lemma digit_not_dot c : Chars.is_digit c = true -> Chars.eqb "." c = false.
Proof. by_chars c. Qed.
Lemma dot_not_space : Chars.is_space "." = false.
Proof. done. Qed.
Lemma unit_not_space c : is_unit_letter c = true -> Chars.is_space c = false.
Proof. by_chars c. Qed.
Lemma unit_not_digit c : is_unit_letter c = true -> Chars.is_digit c = false.
Proof. by_chars c. Qed.
Lemma unit_not_dot c : is_unit_letter c = true -> Chars.eqb "." c = false.
Proof. by_chars c. Qed.
Lemma space_not_digit c : Chars.is_space c = true -> Chars.is_digit c = false.
Proof. by_chars c. Qed.
Lemma space_not_dot c : Chars.is_space c = true -> Chars.eqb "." c = false.
Proof. by_chars c. Qed.
Lemma space_not_unit c : Chars.is_space c = true -> is_unit_letter c = false.
Proof. by_chars c. Qed.

(** ** The matcher *)

Section Star.
Context {A : Type}.
Implicit Types (p : ascii -> bool) (k : list ascii -> option A).

Lemma star_k_stop p b k : stops p b = true -> star_k p b k = k b.
Proof. destruct b as [|c b]; [done|]. simpl. by intros ->%negb_true_iff. Qed.

Lemma star_k_greedy p a b k r :
  forallb p a = true -> stops p b = true -> k b = Some r ->
  star_k p (a ++ b) k = Some r.
Proof.
  intros Ha Hb Hk. induction a as [|c a IH]; simpl.
  - by rewrite star_k_stop.
  - simpl in Ha. apply andb_prop in Ha as [-> Ha]. by rewrite IH.
Qed.

Lemma star_k_retry p a d b k r :
  forallb p a = true -> p d = true -> stops p b = true ->
  k b = None -> k (d :: b) = Some r ->
  star_k p (a ++ d :: b) k = Some r.
Proof.
  intros Ha Hd Hb Hn Hk. induction a as [|c a IH]; simpl.
  - by rewrite Hd, star_k_stop, Hn.
  - simpl in Ha. apply andb_prop in Ha as [-> Ha]. by rewrite IH.
Qed.

End Star.

Lemma consumed_app (a b : list ascii) : Re.consumed (a ++ b) b = text a.
Proof.
  unfold Re.consumed. rewrite length_app.
  replace (length a + length b - length b)%nat with (length a + 0)%nat by lia.
  by rewrite firstn_app_2, firstn_O, app_nil_r.
Qed.

Lemma consumed_nil (a : list ascii) : Re.consumed a [] = text a.
Proof. unfold Re.consumed. simpl. by rewrite Nat.sub_0_r, firstn_all. Qed.

Lemma consumed_cons_app c (a b : list ascii) :
  Re.consumed (c :: a ++ b) b = text (c :: a).
Proof. apply (consumed_app (c :: a) b). Qed.

(** ** The pattern of numbers *)

Lemma number_tail_match cs ws u ws2 :
  forallb Chars.is_space ws = true ->
  unit_text u = true -> forallb Chars.is_space ws2 = true ->
  run number_tail (ws ++ u ++ ws2) cs at_end = Some ((2, text u) :: cs).
Proof.
  intros Hws Hu Hws2. destruct u as [|c [|? ?]]; try discriminate; cbn [run number_tail].
  - simpl app. rewrite <- (app_nil_r (ws ++ ws2)).
    apply star_k_greedy; [|done|by cbn].
    by rewrite forallb_app, Hws, Hws2.
  - simpl in Hu. simpl app.
    apply star_k_greedy; [done|simpl; by rewrite unit_not_space|].
    cbn [run]. rewrite Hu.
    rewrite <- (app_nil_r ws2) at 1.
    erewrite star_k_greedy; [|done|done|reflexivity].
    do 3 f_equal. apply (consumed_app [c] ws2).
Qed.

Lemma number_tail_stops_digit ws u ws2 :
  forallb Chars.is_space ws = true ->
  unit_text u = true -> forallb Chars.is_space ws2 = true ->
  stops Chars.is_digit (ws ++ u ++ ws2) = true
  /\ stops (Chars.eqb ".") (ws ++ u ++ ws2) = true.
Proof.
  intros Hws Hu Hws2. destruct ws as [|w ws]; simpl in *.
  - destruct u as [|c [|? ?]]; try discriminate; simpl.
    + destruct ws2 as [|w ws2]; [done|]. simpl in *.
      apply andb_prop in Hws2 as [Hw _].
      by rewrite space_not_digit, (space_not_dot w).
    + simpl in Hu. by rewrite unit_not_digit, unit_not_dot.
  - apply andb_prop in Hws as [Hw _].
    by rewrite space_not_digit, (space_not_dot w).
Qed.

Lemma number_body_match ip fp rest cs k r :
  forallb Chars.is_digit ip = true -> forallb Chars.is_digit fp = true ->
  ip ++ fp <> [] ->
  stops Chars.is_digit rest = true -> stops (Chars.eqb ".") rest = true ->
  k rest cs = Some r ->
  run number_body (Py.with_point ip fp ++ rest) cs k = Some r.
Proof.
  intros Hip Hfp Hne Hrd Hrp Hk. unfold Py.with_point.
  destruct fp as [|f fp].
  - (* no point: the last digit is given back to [[0-9]+] *)
    rewrite app_nil_r in Hne.
    destruct (exists_last Hne) as (ds & d & ->).
    rewrite forallb_app in Hip. apply andb_prop in Hip as [Hds Hd].
    simpl in Hd. rewrite andb_true_r in Hd.
    rewrite <- app_assoc. cbn [run number_body]. simpl app.
    apply star_k_retry; [done|done|done|..].
    + cbn [run]. destruct rest as [|c rest]; [done|].
      simpl in Hrd, Hrp. apply negb_true_iff in Hrd, Hrp.
      by rewrite Hrp, Hrd.
    + cbn [run]. rewrite (digit_not_dot d Hd), Hd. by rewrite star_k_stop.
  - simpl in Hfp. apply andb_prop in Hfp as [Hf Hfp].
    rewrite <- app_assoc. cbn [run number_body].
    apply star_k_greedy; [done|done|].
    cbn [run]. simpl app. cbn. rewrite Hf.
    by erewrite star_k_greedy.
Qed.

Lemma with_point_stops_space ip fp rest :
  forallb Chars.is_digit ip = true -> forallb Chars.is_digit fp = true ->
  ip ++ fp <> [] ->
  stops Chars.is_space (Py.with_point ip fp ++ rest) = true.
Proof.
  intros Hip Hfp Hne. unfold Py.with_point.
  destruct ip as [|i ip]; simpl in *.
  - destruct fp as [|f fp]; [done|]. done.
  - apply andb_prop in Hip as [Hi _].
    destruct fp; simpl; by rewrite digit_not_space.
Qed.

(** A text made of white space, a number, white space, an optional
    unit letter and white space matches [number_re]; the groups are the
    number and the letter. *)
Lemma number_re_match ws1 ip fp ws u ws2 :
  forallb Chars.is_space ws1 = true -> forallb Chars.is_space ws = true ->
  forallb Chars.is_space ws2 = true ->
  forallb Chars.is_digit ip = true -> forallb Chars.is_digit fp = true ->
  ip ++ fp <> [] -> unit_text u = true ->
  fullmatch number_re (text (ws1 ++ Py.with_point ip fp ++ ws ++ u ++ ws2))
  = Some [(2, text u); (1, text (Py.with_point ip fp))].
Proof.
  intros H1 Hws H2 Hip Hfp Hne Hu. unfold fullmatch. rewrite chars_text.
  change number_re with
    (Cat (Star Chars.is_space) (Cat (Group 1 number_body) number_tail)).
  cbn [run].
  apply star_k_greedy; [done|by apply with_point_stops_space|].
  destruct (number_tail_stops_digit ws u ws2 Hws Hu H2) as [Hsd Hsp].
  apply number_body_match; [done..|].
  rewrite consumed_app. by apply number_tail_match.
Qed.

(** ** Reading numbers: [float()] and [int()] *)

Lemma digit_solid c : Chars.is_digit c = true -> solid c = true.
Proof. by_chars c. Qed.

Lemma solid_to_ascii c : solid c = true -> Py.to_ascii c = c.
Proof. by_chars c. Qed.
Lemma solid_not_c_space c : solid c = true -> Chars.is_c_space c = false.
Proof. by_chars c. Qed.
Lemma solid_not_underscore c : solid c = true -> Chars.eqb c "_" = false.
Proof. by_chars c. Qed.

Lemma map_to_ascii_solid l : forallb solid l = true -> map Py.to_ascii l = l.
Proof.
  induction l as [|c l IH]; [done|]. simpl. intros [Hc Hl]%andb_prop.
  by rewrite solid_to_ascii, IH.
Qed.

Lemma lstrip_solid l : forallb solid l = true -> Py.lstrip l = l.
Proof.
  destruct l as [|c l]; [done|]. simpl. intros [Hc _]%andb_prop.
  by rewrite solid_not_c_space.
Qed.

Lemma forallb_rev {A} (p : A -> bool) l : forallb p (rev l) = forallb p l.
Proof.
  induction l as [|x l IH]; [done|]. simpl.
  rewrite forallb_app, IH. simpl. rewrite andb_true_r. apply andb_comm.
Qed.

Lemma strip_solid l : forallb solid l = true -> Py.strip l = l.
Proof.
  intros H. unfold Py.strip. rewrite (lstrip_solid l H).
  rewrite lstrip_solid by (by rewrite forallb_rev). apply rev_involutive.
Qed.

Lemma drop_underscores_solid l prev :
  forallb solid l = true -> prev <> Some "_"%char ->
  Py.drop_underscores prev l = Some l.
Proof.
  revert prev. induction l as [|c l IH]; intros prev Hl Hp.
  - simpl. destruct prev as [[[] [] [] [] [] [] [] []]|]; try done.
  - simpl in Hl. apply andb_prop in Hl as [Hc Hl]. simpl.
    rewrite (solid_not_underscore c Hc).
    assert (Hrec : Py.drop_underscores (Some c) l = Some l).
    { apply IH; [done|]. intros [= ->]. discriminate. }
    rewrite Hrec. simpl.
    destruct prev as [[[] [] [] [] [] [] [] []]|]; try done.
Qed.

Lemma span_app p a b :
  forallb p a = true -> stops p b = true -> Py.span p (a ++ b) = (a, b).
Proof.
  intros Ha Hb. induction a as [|c a IH]; simpl.
  - destruct b as [|c b]; [done|]. simpl in Hb. apply negb_true_iff in Hb.
    simpl. by rewrite Hb.
  - simpl in Ha. apply andb_prop in Ha as [-> Ha]. by rewrite IH.
Qed.

Lemma span_all p a : forallb p a = true -> Py.span p a = (a, []).
Proof. intros Ha. rewrite <- (app_nil_r a) at 1. by apply span_app. Qed.

Lemma point_solid : solid "." = true.
Proof. done. Qed.

Lemma with_point_solid ip fp :
  forallb Chars.is_digit ip = true -> forallb Chars.is_digit fp = true ->
  forallb solid (Py.with_point ip fp) = true.
Proof.
  intros Hip Hfp.
  assert (Hs : forall l, forallb Chars.is_digit l = true -> forallb solid l = true).
  { induction l as [|c l IH]; [done|]. simpl. intros [Hc Hl]%andb_prop.
    by rewrite digit_solid, IH. }
  unfold Py.with_point. destruct fp as [|f fp]; [auto|].
  rewrite forallb_app. rewrite (Hs ip Hip).
  change (forallb solid ("."%char :: f :: fp)) with (solid "." && forallb solid (f :: fp)).
  by rewrite point_solid, (Hs (f :: fp) Hfp).
Qed.

Lemma read_sign_digit c l :
  Chars.is_digit c = true \/ c = "."%char -> Py.read_sign (c :: l) = (false, c :: l).
Proof. intros [H| ->]; [|done]. revert H. by_chars c. Qed.

Lemma read_decimal_with_point ip fp :
  forallb Chars.is_digit ip = true -> forallb Chars.is_digit fp = true ->
  ip ++ fp <> [] ->
  Py.read_decimal (Py.with_point ip fp)
  = Some (Py.digits_val (ip ++ fp), (- Z.of_nat (length fp))%Z).
Proof.
  intros Hip Hfp Hne. unfold Py.read_decimal, Py.with_point, Py.with_point.
  destruct fp as [|f fp].
  - rewrite span_all by done. rewrite app_nil_r in *.
    destruct ip as [|i ip]; [done|]. done.
  - rewrite span_app by done. rewrite span_all by done.
    destruct (ip ++ f :: fp) eqn:E; [done|]. simpl Py.read_exponent. cbv iota.
    by rewrite Z.sub_0_l.
Qed.

(** [float()] of digits with an optional fractional part. *)
Lemma float_of_str_with_point ip fp :
  forallb Chars.is_digit ip = true -> forallb Chars.is_digit fp = true ->
  ip ++ fp <> [] ->
  Py.float_of_str (text (Py.with_point ip fp))
  = Some (Float.of_decimal false (Py.digits_val (ip ++ fp))
                           (- Z.of_nat (length fp))).
Proof.
  intros Hip Hfp Hne. unfold Py.float_of_str. rewrite chars_text.
  pose proof (with_point_solid ip fp Hip Hfp) as Hs.
  rewrite map_to_ascii_solid, strip_solid by done.
  rewrite drop_underscores_solid by done.
  assert (Hsign : Py.read_sign (Py.with_point ip fp) = (false, Py.with_point ip fp)).
  { unfold Py.with_point. destruct ip as [|i ip].
    - destruct fp as [|f fp]; [done|]. reflexivity.
    - simpl in Hip. apply andb_prop in Hip as [Hi _].
      destruct fp; simpl; apply read_sign_digit; by left. }
  rewrite Hsign. by rewrite read_decimal_with_point.
Qed.

(** ** The value parser *)

Lemma length_chars (s : string) : length (chars s) = String.length s.
Proof. induction s as [|c s IH]; [done|]. simpl. by rewrite IH. Qed.

Lemma chars_nil (s : string) : chars s = [] -> s = "".
Proof. by destruct s. Qed.

Lemma unit_multiplier_code u mult :
  unit_multiplier u = Some mult ->
  unit_text (chars u) = true
  /\ default (Float.of_decimal false 10 (-1)) (Dict.get UNIT_MAP (str_upper u)) = mult
  /\ unit_multiplier (str_upper u) = Some mult
  /\ unit_multiplier (str_lower u) = Some mult.
Proof.
  destruct u as [|c [|c' u]].
  - intros [= <-]. by vm_compute.
  - destruct c as [[] [] [] [] [] [] [] []]; vm_compute; intros H;
      try discriminate; injection H as <-; done.
  - destruct c as [[] [] [] [] [] [] [] []]; vm_compute; discriminate.
Qed.




(** ** Texts that are not numbers *)

Section Inversion.
Context {A : Type}.

Lemma star_k_inv p s (k : list ascii -> option A) r :
  star_k p s k = Some r ->
  exists a b, s = a ++ b /\ forallb p a = true /\ k b = Some r.
Proof.
  induction s as [|c s IH]; simpl; intros H.
  - by exists [], [].
  - destruct (p c) eqn:Hc; [|by exists [], (c :: s)].
    destruct (star_k p s k) as [r'|] eqn:E.
    + injection H as ->. destruct (IH eq_refl) as (a & b & -> & Ha & Hk).
      exists (c :: a), b. simpl. by rewrite Hc.
    + by exists [], (c :: s).
Qed.

End Inversion.

Lemma plus_inv p s cs k r :
  run (Plus p) s cs k = Some r ->
  exists c a b, s = c :: a ++ b /\ p c = true /\ forallb p a = true
                /\ k b cs = Some r.
Proof.
  simpl. destruct s as [|c s]; [done|]. destruct (p c) eqn:Hc; [|done].
  intros (a & b & -> & Ha & Hk)%star_k_inv. by exists c, a, b.
Qed.

Lemma number_body_inv s cs k r :
  run number_body s cs k = Some r ->
  exists ip fp rest,
    s = Py.with_point ip fp ++ rest
    /\ forallb Chars.is_digit ip = true /\ forallb Chars.is_digit fp = true
    /\ ip ++ fp <> [] /\ k rest cs = Some r.
Proof.
  change (run number_body s cs k) with
    (star_k Chars.is_digit s (fun s1 =>
       match run (Chr (Chars.eqb ".")) s1 cs
               (fun s' cs' => run (Plus Chars.is_digit) s' cs' k) with
       | Some m => Some m
       | None => run (Plus Chars.is_digit) s1 cs k
       end)).
  intros (a & b & -> & Ha & H)%star_k_inv. cbv beta in H.
  destruct (run (Chr (Chars.eqb ".")) b cs
              (fun s' cs' => run (Plus Chars.is_digit) s' cs' k)) as [r'|] eqn:E.
  - injection H as ->. simpl in E. destruct b as [|c b]; [done|].
    destruct (Chars.eqb "." c) eqn:Hc; [|done].
    unfold Chars.eqb in Hc. apply Ascii.eqb_eq in Hc as <-.
    destruct b as [|d b]; [done|]. destruct (Chars.is_digit d) eqn:Hd; [|done].
    apply star_k_inv in E as (a' & b' & -> & Ha' & Hk).
    exists a, (d :: a'), b'. unfold Py.with_point.
    rewrite <- app_assoc. simpl. rewrite Hd. split; [done|].
    split; [done|]. split; [done|]. split; [|done]. by destruct a.
  - apply plus_inv in H as (d & a' & b' & -> & Hd & Ha' & Hk).
    exists (a ++ d :: a'), [], b'. unfold Py.with_point.
    rewrite <- app_assoc. split; [done|]. rewrite forallb_app. simpl.
    rewrite Ha, Hd, Ha'. split; [done|]. split; [done|]. split; [|done].
    by destruct a.
Qed.

Lemma number_tail_inv s cs r :
  run number_tail s cs at_end = Some r ->
  exists ws u ws2,
    s = ws ++ u ++ ws2 /\ forallb Chars.is_space ws = true
    /\ unit_text u = true /\ forallb Chars.is_space ws2 = true.
Proof.
  cbn [run number_tail]. intros (ws & b & -> & Hws & H)%star_k_inv.
  exists ws.
  assert (Hend : forall s' cs', star_k Chars.is_space s' (fun s'' => at_end s'' cs') = Some r ->
            forallb Chars.is_space s' = true).
  { intros s' cs' (a & b' & -> & Ha & Hk)%star_k_inv.
    destruct b'; [|done]. by rewrite app_nil_r. }
  destruct b as [|c b].
  - exists [], []. by simpl.
  - simpl in H. destruct (is_unit_letter c) eqn:Hc.
    + destruct (star_k Chars.is_space b
                  (fun s' => at_end s' ((2, Re.consumed (c :: b) b) :: cs)))
        as [m|] eqn:E.
      * injection H as ->. exists [c], b. simpl. rewrite Hc. eauto 10.
      * destruct (Chars.is_space c) eqn:Hsp; [|done].
        destruct (star_k Chars.is_space b _) as [m|] eqn:E2 in H; [|done].
        injection H as ->. exists [], (c :: b). simpl. rewrite Hsp. eauto 10.
    + destruct (Chars.is_space c) eqn:Hsp; [|done].
      destruct (star_k Chars.is_space b _) as [m|] eqn:E2 in H; [|done].
      injection H as ->. exists [], (c :: b). simpl. rewrite Hsp. eauto 10.
Qed.

(** Only the texts of that shape match [number_re]. *)
Lemma number_re_inv (s : string) m :
  fullmatch number_re s = Some m -> unit_number_text s.
Proof.
  unfold fullmatch.
  change number_re with
    (Cat (Star Chars.is_space) (Cat (Group 1 number_body) number_tail)).
  cbn [run]. intros (ws1 & b & Hs & H1 & H)%star_k_inv.
  apply number_body_inv in H as (ip & fp & rest & -> & Hip & Hfp & Hne & H).
  apply number_tail_inv in H as (ws & u & ws2 & -> & Hws & Hu & Hws2).
  exists (text ws1), (text ip), (text fp), (text ws), (text u), (text ws2).
  unfold all_of, decimal_text. rewrite !chars_text.
  repeat split; try done.
  - apply chars_inj. rewrite Hs, !chars_app, !chars_text. done.
  - destruct ip; [|by left]. destruct fp; [done|by right].
  - destruct u as [|c [|? ?]]; [by left| |done]. right. by exists c.
Qed.

(** And every text of that shape matches it. *)
Lemma number_re_complete (s : string) :
  unit_number_text s -> exists m, fullmatch number_re s = Some m.
Proof.
  unfold all_of.
  intros (ws1 & ip & fp & ws & u & ws2 & -> & H1 & Hws & H2 & Hip & Hfp & Hne & Hu).
  eexists.
  assert (Hs : ws1 +:+ decimal_text ip fp +:+ ws +:+ u +:+ ws2
               = text (chars ws1 ++ Py.with_point (chars ip) (chars fp)
                         ++ chars ws ++ chars u ++ chars ws2)).
  { apply chars_inj. rewrite chars_text, !chars_app. unfold decimal_text.
    by rewrite chars_text. }
  rewrite Hs. apply number_re_match; try done.
  - intros [Ha Hb]%app_eq_nil. apply chars_nil in Ha, Hb. tauto.
  - destruct Hu as [->|(c & -> & Hc)]; [done|]. done.
Qed.

Lemma parse_unit_number_rejects (val : json) :
  match val with
  | JNull | JList _ | JDict _ => True
  | JStr s => ~ unit_number_text s /\ Py.float_of_str s = None
  | JBool _ | JInt _ | JFloat _ => False
  end ->
  parse_unit_number val = Raise (ValueError_cannot_parse val).
Proof.
  destruct val as [| | | |s| |]; try done.
  intros [Hshape Hfloat]. simpl.
  destruct (fullmatch number_re s) as [m|] eqn:E.
  - destruct Hshape. by eapply number_re_inv.
  - by rewrite Hfloat.
Qed.

(** C3, the claim as stated fails on booleans: they are integers for
    [isinstance], [False] parses to [0.0] and [True] to [1.0]. *)
Lemma value_parser_accepts_booleans :
  parse_unit_number (JBool false) = Ok (S754_zero false)
  /\ parse_unit_number (JBool true) = Ok (Float.of_Z 1)
  /\ parse_unit_number (JBool false) <> Raise (ValueError_cannot_parse (JBool false)).
Proof. repeat split. discriminate. Qed.

(** C3, amended. [None], a list, a dictionary, and a text that neither
    reads as a number with a unit nor is accepted by [float()] make the
    value parser raise the [ValueError] that names the value: no other
    exception and no result. A boolean is a number for the parser:
    [True] gives [1.0] and [False] gives [0.0]. *)
Theorem value_parser_rejects :
  (forall val : json,
     match val with
     | JNull | JList _ | JDict _ => True
     | JStr s => ~ unit_number_text s /\ Py.float_of_str s = None
     | JBool _ | JInt _ | JFloat _ => False
     end ->
     parse_unit_number val = Raise (ValueError_cannot_parse val)
     /\ (forall x, parse_unit_number val <> Ok x))
  /\ (forall b : bool,
        parse_unit_number (JBool b) = Ok (Float.of_Z (if b then 1 else 0))).
Proof.
  split.
  - intros val H. rewrite (parse_unit_number_rejects val H). by split.
  - by intros [].
Qed.

Lemma value_parser_rejects_witness :
  parse_unit_number (JStr "12XQ") = Raise (ValueError_cannot_parse (JStr "12XQ"))
  /\ parse_unit_number (JStr "abc") = Raise (ValueError_cannot_parse (JStr "abc"))
  /\ parse_unit_number JNull = Raise (ValueError_cannot_parse JNull).
Proof.
  split; [|split].
  - apply (proj1 value_parser_rejects (JStr "12XQ")). split; [|reflexivity].
    intros [m Hm]%number_re_complete. discriminate.
  - apply (proj1 value_parser_rejects (JStr "abc")). split; [|reflexivity].
    intros [m Hm]%number_re_complete. discriminate.
  - by apply (proj1 value_parser_rejects JNull).
Defined.

(** ** [int(str(n))] *)

Lemma pretty_N_char_digit (n : N) :
  (n < 10)%N ->
  Chars.is_digit (pretty_N_char n) = true
  /\ Chars.digit_val (pretty_N_char n) = Z.of_N n.
Proof.
  intros Hn. rewrite <- (N2Nat.id n).
  assert (Hk : (N.to_nat n < 10)%nat) by lia.
  revert Hk. generalize (N.to_nat n). intros k Hk.
  do 10 (destruct k as [|k]; [by vm_compute|]). lia.
Qed.

Lemma pretty_N_go_digits (x : N) (s : string) :
  forallb Chars.is_digit (chars s) = true ->
  forallb Chars.is_digit (chars (pretty_N_go x s)) = true.
Proof.
  revert s. induction (N.lt_wf_0 x) as [x _ IH]. intros s Hs.
  destruct (decide (x = 0)%N) as [->|Hx]; [done|].
  rewrite pretty_N_go_step by lia. apply IH.
  - apply N.div_lt; lia.
  - simpl. rewrite Hs, andb_true_r.
    apply pretty_N_char_digit. apply N.mod_lt. lia.
Qed.

Lemma pretty_N_go_value (x : N) (s : string) :
  fold_left digits_step (chars (pretty_N_go x s)) 0%Z
  = fold_left digits_step (chars s) (Z.of_N x).
Proof.
  revert s. induction (N.lt_wf_0 x) as [x _ IH]. intros s.
  destruct (decide (x = 0)%N) as [->|Hx]; [done|].
  rewrite pretty_N_go_step by lia. rewrite IH by (apply N.div_lt; lia).
  simpl. f_equal. unfold digits_step.
  destruct (pretty_N_char_digit (x mod 10)%N) as [_ ->]; [apply N.mod_lt; lia|].
  rewrite (N.div_mod x 10) at 3 by lia. lia.
Qed.

Lemma pretty_N_go_cons (x : N) (s : string) :
  (0 < x)%N -> exists c l, chars (pretty_N_go x s) = c :: l.
Proof.
  revert s. induction (N.lt_wf_0 x) as [x _ IH]. intros s Hx.
  rewrite pretty_N_go_step by lia.
  destruct (decide (x `div` 10 = 0)%N) as [->|Hd].
  - rewrite pretty_N_go_0. simpl. eauto.
  - apply IH; [apply N.div_lt; lia|].
    destruct (x `div` 10)%N; [done|lia].
Qed.

(** The decimal digits of a natural number: not empty, digits only,
    with the number for value. *)
Lemma pretty_N_spec (n : N) :
  exists c l, chars (pretty n) = c :: l
              /\ forallb Chars.is_digit (c :: l) = true
              /\ Py.digits_val (c :: l) = Z.of_N n.
Proof.
  unfold pretty, pretty_N. destruct (decide (n = 0)%N) as [->|Hn].
  - by exists "0"%char, [].
  - destruct (pretty_N_go_cons n "") as (c & l & E); [lia|].
    exists c, l. split; [done|]. rewrite <- E. split.
    + by apply pretty_N_go_digits.
    + unfold Py.digits_val. apply (pretty_N_go_value n "").
Qed.

Lemma digits_solid l : forallb Chars.is_digit l = true -> forallb solid l = true.
Proof.
  induction l as [|c l IH]; [done|]. simpl. intros [Hc Hl]%andb_prop.
  by rewrite digit_solid, IH.
Qed.

(** [int()] of a run of digits. *)
Lemma int_of_str_digits c l :
  forallb Chars.is_digit (c :: l) = true ->
  Py.int_of_str (text (c :: l)) = Some (Py.digits_val (c :: l)).
Proof.
  intros Hd. unfold Py.int_of_str. rewrite chars_text.
  pose proof (digits_solid _ Hd) as Hs.
  rewrite map_to_ascii_solid, strip_solid by done.
  rewrite read_sign_digit by (left; simpl in Hd; by apply andb_prop in Hd as [? _]).
  rewrite drop_underscores_solid by done. by rewrite Hd.
Qed.

Lemma int_of_str_minus_digits c l :
  forallb Chars.is_digit (c :: l) = true ->
  Py.int_of_str (text ("-"%char :: c :: l)) = Some (- Py.digits_val (c :: l))%Z.
Proof.
  intros Hd. unfold Py.int_of_str. rewrite chars_text.
  pose proof (digits_solid _ Hd) as Hs.
  assert (Hs' : forallb solid ("-"%char :: c :: l) = true).
  { change (solid "-" && forallb solid (c :: l) = true). by rewrite Hs. }
  rewrite map_to_ascii_solid, strip_solid by done.
  cbn [Py.read_sign]. rewrite drop_underscores_solid by done. by rewrite Hd.
Qed.

Lemma int_of_str_str_of_int (n : Z) : Py.int_of_str (Py.str_of_int n) = Some n.
Proof.
  unfold Py.str_of_int. destruct n as [|p|p].
  - done.
  - change (pretty (Z.pos p)) with (pretty (N.pos p)).
    destruct (pretty_N_spec (N.pos p)) as (c & l & E & Hd & Hv).
    rewrite <- (text_chars (pretty (N.pos p))), E.
    rewrite int_of_str_digits by done. by rewrite Hv.
  - change (pretty (Z.neg p)) with ("-" +:+ pretty (N.pos p)).
    destruct (pretty_N_spec (N.pos p)) as (c & l & E & Hd & Hv).
    rewrite <- (text_chars ("-" +:+ pretty (N.pos p))), chars_app, E.
    change (chars "-" ++ c :: l) with ("-"%char :: c :: l).
    rewrite int_of_str_minus_digits by done. by rewrite Hv.
Qed.

(** ** The path resolver *)

Lemma key_char_not_bracket c : key_char c = true -> negb (is_bracket c) = true.
Proof. unfold key_char. by intros [? _]%andb_prop. Qed.
Lemma key_char_not_dot c : key_char c = true -> Chars.eqb c "." = false.
Proof. unfold key_char. intros [_ H]%andb_prop. by apply negb_true_iff. Qed.
Lemma digit_key_char c : Chars.is_digit c = true -> Chars.eqb c "." = false.
Proof. by_chars c. Qed.

Lemma split_dot_go_plain cur a :
  forallb (fun c => negb (Chars.eqb c ".")) a = true ->
  split_dot_go cur a = [text (rev cur ++ a)].
Proof.
  revert cur. induction a as [|c a IH]; intros cur Ha; simpl.
  - by rewrite app_nil_r.
  - simpl in Ha. apply andb_prop in Ha as [Hc Ha]. apply negb_true_iff in Hc.
    rewrite Hc, IH by done. simpl. by rewrite <- app_assoc.
Qed.

Lemma split_dot_go_dot cur a b :
  forallb (fun c => negb (Chars.eqb c ".")) a = true ->
  split_dot_go cur (a ++ "."%char :: b) = text (rev cur ++ a) :: split_dot_go [] b.
Proof.
  revert cur. induction a as [|c a IH]; intros cur Ha; simpl.
  - by rewrite app_nil_r.
  - simpl in Ha. apply andb_prop in Ha as [Hc Ha]. apply negb_true_iff in Hc.
    rewrite Hc, IH by done. simpl. by rewrite <- app_assoc.
Qed.

Lemma split_dot_join (parts : list string) :
  parts <> [] -> forallb dotless parts = true ->
  split_dot (str_join "." parts) = parts.
Proof.
  unfold split_dot. induction parts as [|p parts IH]; [done|]. intros _ Hd.
  simpl in Hd. apply andb_prop in Hd as [Hp Hd].
  destruct parts as [|q parts].
  - simpl. rewrite split_dot_go_plain by done. simpl. by rewrite text_chars.
  - change (str_join "." (p :: q :: parts))
      with (p +:+ "." +:+ str_join "." (q :: parts)).
    rewrite !chars_app. change (chars ".") with ["."%char]. simpl app.
    rewrite split_dot_go_dot by done. simpl rev. simpl app.
    rewrite text_chars. f_equal. by apply IH.
Qed.

Lemma segment_re_key k0 k :
  forallb key_char (k0 :: k) = true ->
  fullmatch segment_re (text (k0 :: k)) = Some [(1, text (k0 :: k))].
Proof.
  intros Hk. simpl in Hk. apply andb_prop in Hk as [H0 Hk].
  unfold fullmatch. rewrite chars_text. cbn [run segment_re].
  rewrite (key_char_not_bracket k0 H0).
  rewrite <- (app_nil_r k) at 1.
  erewrite star_k_greedy; [reflexivity| |done|].
  - clear -Hk. induction k as [|c k IH]; [done|]. simpl in *.
    apply andb_prop in Hk as [Hc Hk]. by rewrite (key_char_not_bracket c Hc), IH.
  - cbn [run at_end]. by rewrite consumed_nil.
Qed.

Lemma segment_re_key_index k0 k d0 ds :
  forallb key_char (k0 :: k) = true ->
  forallb Chars.is_digit (d0 :: ds) = true ->
  fullmatch segment_re (text ((k0 :: k) ++ "["%char :: (d0 :: ds) ++ ["]"%char]))
  = Some [(2, text (d0 :: ds)); (1, text (k0 :: k))].
Proof.
  intros Hk Hd. simpl in Hk. apply andb_prop in Hk as [H0 Hk].
  simpl in Hd. apply andb_prop in Hd as [Hd0 Hd].
  unfold fullmatch. rewrite chars_text. cbn [run segment_re app].
  rewrite (key_char_not_bracket k0 H0).
  erewrite star_k_greedy; [reflexivity| |done|].
  - clear -Hk. induction k as [|c k IH]; [done|]. simpl in *.
    apply andb_prop in Hk as [Hc Hk]. by rewrite (key_char_not_bracket c Hc), IH.
  - cbn [run at_end].
    change (Chars.eqb "[" "[") with true. cbv iota. rewrite Hd0.
    erewrite star_k_greedy; [|done|done|].
    + reflexivity.
    + cbn [run at_end].
      rewrite (consumed_cons_app k0 k), (consumed_cons_app d0 ds). reflexivity.
Qed.

Lemma str_of_int_of_N (i : N) : Py.str_of_int (Z.of_N i) = pretty i.
Proof. by destruct i. Qed.

Lemma key_ok_chars k :
  key_ok k = true -> exists k0 kr, chars k = k0 :: kr /\ forallb key_char (k0 :: kr) = true.
Proof.
  unfold key_ok, all_of. intros [Hne Hall]%andb_prop.
  destruct k as [|k0 kr]; [done|]. by exists k0, (chars kr).
Qed.

Lemma render_segment_dotless sg :
  key_ok (seg_key sg) = true -> dotless (render_segment sg) = true.
Proof.
  intros (k0 & kr & E & Hk)%key_ok_chars.
  assert (Hkd : forallb (fun c => negb (Chars.eqb c ".")) (k0 :: kr) = true).
  { clear E. induction (k0 :: kr) as [|c l IH]; [done|]. simpl in *.
    apply andb_prop in Hk as [Hc Hk]. by rewrite (key_char_not_dot c Hc), IH. }
  unfold dotless, render_segment. destruct (seg_index sg) as [i|]; [|by rewrite E].
  rewrite !chars_app, E, str_of_int_of_N.
  destruct (pretty_N_spec i) as (d0 & ds & -> & Hd & _).
  rewrite !forallb_app, Hkd. simpl (chars "["). simpl (chars "]").
  assert (forallb (fun c => negb (Chars.eqb c ".")) (d0 :: ds) = true) as Hdd.
  { clear -Hd. induction (d0 :: ds) as [|c l IH]; [done|]. simpl in *.
    apply andb_prop in Hd as [Hc Hd]. by rewrite (digit_key_char c Hc), IH. }
  change (forallb (fun c => negb (Chars.eqb c ".")) ("["%char :: d0 :: ds))
    with (negb (Chars.eqb "[" ".") && forallb (fun c => negb (Chars.eqb c ".")) (d0 :: ds)).
  by rewrite Hdd.
Qed.

(** What the pattern of segments finds in a rendered segment. *)
Lemma segment_re_render sg :
  key_ok (seg_key sg) = true ->
  exists m, fullmatch segment_re (render_segment sg) = Some m
            /\ group m 1 = Some (seg_key sg)
            /\ group m 2 = option_map (fun i => Py.str_of_int (Z.of_N i)) (seg_index sg).
Proof.
  intros (k0 & kr & E & Hk)%key_ok_chars.
  assert (Hkey : seg_key sg = text (k0 :: kr)).
  { by rewrite <- E, text_chars. }
  unfold render_segment. destruct (seg_index sg) as [i|]; cbn [option_map].
  - rewrite str_of_int_of_N.
    destruct (pretty_N_spec i) as (d0 & ds & Ed & Hd & _).
    assert (Hidx : pretty i = text (d0 :: ds)).
    { by rewrite <- Ed, text_chars. }
    assert (Hs : seg_key sg +:+ "[" +:+ pretty i +:+ "]"
                 = text ((k0 :: kr) ++ "["%char :: (d0 :: ds) ++ ["]"%char])).
    { apply chars_inj. by rewrite chars_text, !chars_app, E, Ed. }
    rewrite Hs, segment_re_key_index by done.
    eexists. split; [reflexivity|]. by rewrite Hkey, Hidx.
  - rewrite Hkey, segment_re_key by done.
    eexists. split; [reflexivity|]. done.
Qed.

Lemma walk_path_render path segs cur :
  forallb (fun sg => key_ok (seg_key sg)) segs = true ->
  walk_path path cur (map render_segment segs) = resolve path segs cur.
Proof.
  revert cur. induction segs as [|sg segs IH]; intros cur Hk; [done|].
  simpl in Hk. apply andb_prop in Hk as [Hsg Hk].
  destruct (segment_re_render sg Hsg) as (m & Hm & H1 & H2).
  cbn [map walk_path resolve]. rewrite Hm, H1, H2. simpl default.
  destruct cur as [| | | | | |d]; try done.
  destruct (Dict.get d (seg_key sg)) as [v|]; [|done].
  destruct (seg_index sg) as [i|]; simpl option_map; cbv iota; [|by apply IH].
  rewrite int_of_str_str_of_int.
  destruct v as [| | | | |l|]; try done.
  replace (Z.to_nat (Z.of_N i)) with (N.to_nat i) by lia.
  destruct (l !! N.to_nat i) as [x|] eqn:El.
  - apply lookup_lt_Some in El.
    assert (((0 <=? Z.of_N i) && (Z.of_N i <? Z.of_nat (length l)))%Z = true) as ->.
    { apply andb_true_intro. split; [apply Z.leb_le; lia|apply Z.ltb_lt; lia]. }
    by apply IH.
  - apply lookup_ge_None in El.
    assert (((0 <=? Z.of_N i) && (Z.of_N i <? Z.of_nat (length l)))%Z = false) as ->; [|done].
    apply andb_false_intro2. apply Z.ltb_ge. lia.
Qed.

(** C4. On a path written as keys, each possibly followed by an index
    in brackets, and joined by dots, the path resolver returns the value
    found by following the keys and the indices, and it fails with a
    [KeyError] that tells the key and the path when a key is missing,
    when the node is not a map or when the sequence is too short.  The
    indices are written with at most 4300 digits, the numbers that
    [int()] reads in every version of Python. *)
Theorem path_resolver_correct (obj : json) (segs : list segment) :
  segs <> [] ->
  forallb (fun sg => key_ok (seg_key sg)) segs = true ->
  forallb index_readable segs = true ->
  get_by_dot_path obj (render_path segs) = resolve (render_path segs) segs obj
  /\ (forall e, get_by_dot_path obj (render_path segs) = Raise e ->
        exists msg, e = KeyError msg).
Proof.
  intros Hne Hk _.
  assert (Heq : get_by_dot_path obj (render_path segs)
                = resolve (render_path segs) segs obj).
  { unfold get_by_dot_path, render_path. rewrite split_dot_join.
    - by apply walk_path_render.
    - by destruct segs.
    - clear Hne. induction segs as [|sg segs IH]; [done|]. simpl in *.
      apply andb_prop in Hk as [Hsg Hk]. by rewrite render_segment_dotless, IH. }
  split; [done|]. rewrite Heq. generalize (render_path segs). intros path.
  clear. revert obj. induction segs as [|sg segs IH]; intros obj e; [done|].
  simpl. destruct obj as [| | | | | |d]; try (intros [= <-]; by eexists).
  destruct (Dict.get d (seg_key sg)) as [v|]; [|intros [= <-]; by eexists].
  destruct (seg_index sg) as [i|]; [|by apply IH].
  destruct v as [| | | | |l|]; try (intros [= <-]; by eexists).
  destruct (l !! N.to_nat i) as [x|]; [by apply IH|intros [= <-]; by eexists].
Qed.

(** ** Texts of floats: [float(format(v, ".12g"))] *)

Lemma digits_app a b : digits a -> digits b -> digits (a ++ b).
Proof. unfold digits. intros Ha Hb. by rewrite forallb_app, Ha, Hb. Qed.

Lemma digits_pretty (n : N) : digits (chars (pretty n)) /\ chars (pretty n) <> [].
Proof. destruct (pretty_N_spec n) as (c & l & -> & Hd & _). by split. Qed.

Lemma digits_drop_zeros l : digits l -> digits (Py.drop_zeros l).
Proof.
  unfold digits. induction l as [|c l IH]; [done|]. simpl.
  intros [Hc Hl]%andb_prop. destruct (Py.is_zero_char c); [auto|].
  simpl. by rewrite Hc, Hl.
Qed.

Lemma digits_rstrip_zeros l : digits l -> digits (Py.rstrip_zeros l).
Proof.
  unfold Py.rstrip_zeros, digits. intros H.
  rewrite forallb_rev. apply digits_drop_zeros. unfold digits. by rewrite forallb_rev.
Qed.

Lemma digits_firstn n l : digits l -> digits (firstn n l).
Proof.
  unfold digits. revert n. induction l as [|c l IH]; intros [|n]; try done.
  simpl. intros [Hc Hl]%andb_prop. by rewrite Hc, IH.
Qed.

Lemma digits_skipn n l : digits l -> digits (skipn n l).
Proof.
  unfold digits. revert n. induction l as [|c l IH]; intros [|n]; try done.
  simpl. intros [Hc Hl]%andb_prop. by apply IH.
Qed.

Lemma digits_zeros n : digits (repeat "0"%char n).
Proof. unfold digits. induction n as [|n IH]; [done|]. simpl. by rewrite IH. Qed.

Lemma exp_text_exponent X : exponent_text ("e"%char :: Py.exp_text X).
Proof.
  right. unfold Py.exp_text.
  destruct (digits_pretty (Z.abs_N X)) as [Hd Hne].
  eexists _, _. split; [reflexivity|]. split; [destruct (X <? 0)%Z; auto|].
  split.
  - destruct (Z.abs X <? 10)%Z; [done|]. done.
  - destruct (Z.abs X <? 10)%Z; [|done]. by apply (digits_app ["0"%char]).
Qed.

Lemma with_point_float_text ip fp tail :
  digits ip -> ip <> [] -> digits fp -> exponent_text tail ->
  float_text (Py.with_point ip fp ++ tail).
Proof.
  intros Hip Hne Hfp Ht. unfold Py.with_point. destruct fp as [|f fp].
  - by exists ip, [], tail, false.
  - exists ip, (f :: fp), tail, true. by rewrite <- app_assoc.
Qed.

Lemma format_g_digits_float_text nd d X : float_text (Py.format_g_digits nd d X).
Proof.
  unfold Py.format_g_digits.
  destruct (digits_pretty (Z.to_N d)) as [Hd Hne].
  destruct ((X <? -4) || (nd <=? X))%Z.
  - destruct (chars (pretty (Z.to_N d))) as [|c rest]; [done|].
    apply with_point_float_text.
    + unfold digits in *. simpl in *. apply andb_prop in Hd as [-> _]. done.
    + done.
    + apply digits_rstrip_zeros. unfold digits in *. simpl in Hd.
      by apply andb_prop in Hd as [_ ?].
    + apply exp_text_exponent.
  - destruct (Z.ltb_spec X 0) as [Hneg|Hpos].
    + exists ["0"%char],
        (repeat "0"%char (Z.to_nat (- X - 1)) ++ Py.rstrip_zeros (chars (pretty (Z.to_N d)))),
        [], true.
      rewrite app_nil_r. split; [done|]. split; [done|]. split; [done|].
      split; [|by left]. apply digits_app; [apply digits_zeros|].
      by apply digits_rstrip_zeros.
    + rewrite <- (app_nil_r (Py.with_point _ _)).
      apply with_point_float_text.
      * by apply digits_firstn.
      * destruct (chars (pretty (Z.to_N d))) as [|c rest]; [done|].
        destruct (Z.to_nat (X + 1)) eqn:E; [lia|done].
      * by apply digits_rstrip_zeros, digits_skipn.
      * by left.
Qed.

Lemma exponent_text_stops tail :
  exponent_text tail ->
  stops Chars.is_digit tail = true
  /\ forallb solid tail = true
  /\ (match tail with "."%char :: _ => False | _ => True end)
  /\ exists e, Py.read_exponent tail = Some e.
Proof.
  intros [->|(sg & ds & -> & Hsg & Hne & Hd)].
  - repeat split; eauto.
  - split; [done|]. split; [|split; [done|]].
    + change (solid "e" && (solid sg && forallb solid ds) = true).
      rewrite (digits_solid ds Hd). by destruct Hsg as [-> | ->].
    + unfold Py.read_exponent. change (Py.is_exp_mark "e") with true. cbv iota.
      assert (exists neg, Py.read_sign (sg :: ds) = (neg, ds)) as [neg ->].
      { destruct Hsg as [-> | ->]; eauto. }
      destruct ds as [|d ds]; [done|]. rewrite Hd. eauto.
Qed.

Lemma float_text_read s :
  float_text s ->
  forallb solid s = true
  /\ Py.read_sign s = (false, s)
  /\ exists m e, Py.read_decimal s = Some (m, e).
Proof.
  intros (ip & fp & tail & dot & -> & Hip & Hne & Hfp & Ht).
  destruct (exponent_text_stops tail Ht) as (Hstop & Hsolid & Hnodot & e & He).
  split; [|split].
  - rewrite !forallb_app, (digits_solid ip Hip), Hsolid.
    destruct dot; [|done].
    change (solid "." && forallb solid fp && true = true).
    by rewrite (digits_solid fp Hfp).
  - destruct ip as [|i ip]; [done|]. simpl. apply read_sign_digit. left.
    unfold digits in Hip. simpl in Hip. by apply andb_prop in Hip as [? _].
  - unfold Py.read_decimal. destruct dot.
    + rewrite span_app by done. simpl app. cbv iota. rewrite span_app by done.
      destruct (ip ++ fp) eqn:E.
      { apply app_eq_nil in E as [? _]. done. }
      rewrite He. eauto.
    + simpl app. rewrite span_app by done.
      assert (match tail with
              | "."%char :: r => Py.span Chars.is_digit r
              | _ => ([], tail)
              end = ([], tail)) as ->.
      { destruct Ht as [->|(sg & ds & -> & _)]; done. }
      rewrite app_nil_r. destruct ip; [done|]. rewrite He. eauto.
Qed.

(** [float()] reads every text that [format(v, ".12g")] writes. *)
Lemma float_of_str_format (v : float) :
  Py.float_of_str (Py.format_12g v) = Some (reload v).
Proof.
  unfold reload.
  assert (H : exists x, Py.float_of_str (Py.format_12g v) = Some x);
    [|by destruct H as [x ->]].
  destruct v as [[]|[]| |s m e];
    [by eexists; vm_compute|by eexists; vm_compute|by eexists; vm_compute
    |by eexists; vm_compute|by eexists; vm_compute|].
  unfold Py.format_12g, Py.format_g_pos.
  destruct (Py.sig_digits 12 _ _) as [d X].
  destruct (float_text_read _ (format_g_digits_float_text 12 d X))
    as (Hsolid & Hsign & m' & e' & Hdec).
  unfold Py.float_of_str. rewrite chars_text.
  assert (Hs : forallb solid ((if s then ["-"%char] else []) ++ Py.format_g_digits 12 d X)
               = true).
  { rewrite forallb_app, Hsolid. by destruct s. }
  rewrite map_to_ascii_solid, strip_solid by done.
  rewrite drop_underscores_solid by done.
  destruct s; simpl app.
  - cbn [Py.read_sign]. rewrite Hdec. eauto.
  - rewrite Hsign, Hdec. eauto.
Qed.

(** ** The log: append, then load *)

Section Log.
Variable cfg : config.

Lemma load_step_written cutoff ts (st : series) name v :
  (cutoff <= ts)%Z ->
  load_step cutoff st [Py.str_of_int ts; name; Py.format_12g v]
  = load_push st name (ts, reload v).
Proof.
  intros Hts. unfold load_step, load_row, load_push.
  change (row_dict CSV_HEADER [Py.str_of_int ts; name; Py.format_12g v])
    with [("ts_ms", Some (Py.str_of_int ts)); ("metric", Some name);
          ("value", Some (Py.format_12g v))].
  cbn [row_get Dict.get String.eqb Ascii.eqb Bool.eqb bind int_of_field].
  simpl row_get. cbn [bind int_of_field].
  rewrite int_of_str_str_of_int. cbn [bind].
  destruct (Z.ltb_spec ts cutoff) as [?|_]; [lia|].
  destruct (st !! name) as [d|] eqn:E; [|done].
  cbn [float_of_field py_float]. rewrite float_of_str_format. cbn [bind].
  by rewrite E.
Qed.

Lemma load_written cutoff ts (batch : dict float) (st : series) :
  (cutoff <= ts)%Z ->
  fold_left (load_step cutoff)
    (map (fun '(name, val) => [Py.str_of_int ts; name; Py.format_12g val]) batch) st
  = fold_left (fun st (p : string * sample) => load_push st p.1 p.2)
              (reloaded ts batch) st.
Proof.
  intros Hts. revert st. induction batch as [|[name v] batch IH]; intros st; [done|].
  cbn [map fold_left reloaded]. rewrite load_step_written by done. apply IH.
Qed.

Lemma load_after_append now ts (batch : dict float) f (st : series) :
  PERSIST_ENABLED cfg = true ->
  headed f ->
  (now - RETENTION_MS cfg <= ts)%Z ->
  _load_history_into_memory cfg now (_persist_append cfg ts batch f) st
  = fold_left (fun st (p : string * sample) => load_push st p.1 p.2)
              (reloaded ts batch)
              (_load_history_into_memory cfg now f st).
Proof.
  intros He Hf Hts. unfold _persist_append, _load_history_into_memory.
  rewrite He. cbn [negb].
  destruct Hf as [->|[body ->]].
  - destruct (decide (CSV_HEADER = CSV_HEADER)); [|done]. by apply load_written.
  - cbn [app]. destruct (decide (CSV_HEADER = CSV_HEADER)); [|done].
    rewrite fold_left_app. by apply load_written.
Qed.

Lemma load_push_other (st : series) name other x :
  other <> name -> load_push st name x !! other = st !! other.
Proof.
  intros Hne. unfold load_push. destruct (st !! name); [|done].
  by rewrite lookup_insert_ne.
Qed.

Lemma fold_load_push_other (ops : list (string * sample)) (st : series) other :
  other ∉ map fst ops ->
  fold_left (fun st (p : string * sample) => load_push st p.1 p.2) ops st !! other
  = st !! other.
Proof.
  revert st. induction ops as [|[n x] ops IH]; intros st Hnot; [done|].
  simpl in Hnot. apply not_elem_of_cons in Hnot as [Hne Hnot].
  cbn [fold_left]. rewrite IH by done. by apply load_push_other.
Qed.

Lemma fold_load_push_one (ops : list (string * sample)) (st : series) name x d :
  NoDup (map fst ops) -> (name, x) ∈ ops -> st !! name = Some d ->
  fold_left (fun st (p : string * sample) => load_push st p.1 p.2) ops st !! name
  = Some (deque_append d x).
Proof.
  revert st. induction ops as [|[n y] ops IH]; intros st Hnd Hin Hd.
  - by apply elem_of_nil in Hin.
  - simpl in Hnd. apply NoDup_cons in Hnd as [Hn Hnd]. cbn [fold_left].
    apply elem_of_cons in Hin as [[= <- <-]|Hin].
    + rewrite fold_load_push_other by done. unfold load_push. simpl.
      rewrite Hd. by rewrite lookup_insert_eq.
    + apply IH; [done|done|]. rewrite load_push_other; [done|].
      simpl. intros Heq. subst n. apply Hn.
      apply (list_elem_of_fmap_2 fst) in Hin. exact Hin.
Qed.

End Log.

(** A log that the program wrote starts with the header. *)
Lemma program_log_headed (cfg : config) (f : file) : program_log cfg f -> headed f.
Proof.
  induction 1 as [|ts batch f _ _ IH|now f _ IH]; [by left| |].
  - unfold _persist_append. destruct (negb (PERSIST_ENABLED cfg)); [done|].
    right. destruct IH as [->|[body ->]]; by eexists.
  - destruct IH as [->|[body ->]]; [by left|].
    unfold _compact_csv. destruct (negb (PERSIST_ENABLED cfg)); right; by eexists.
Qed.

(** C5, the claim as stated fails: a value is written with twelve
    significant digits, and a float that needs more is not read back as
    it was. The float of 1099511627777 comes back as 1099511627780. *)
Lemma log_round_trip_loses_digits :
  exists d,
    _load_history_into_memory Demo.cfg 200
      (_persist_append Demo.cfg 100 [("Workers", Float.of_Z 1099511627777)] None)
      (series_init Demo.cfg) !! "Workers" = Some d
    /\ items d = [(100%Z, Float.of_Z 1099511627780)]
    /\ items d <> [(100%Z, Float.of_Z 1099511627777)].
Proof.
  eexists. split; [by vm_compute|]. split; [done|]. by vm_compute.
Qed.

(** C5, amended. Appending a batch with one timestamp to a log that
    the program wrote, or that does not exist yet, and loading with a
    horizon that covers the timestamp, returns what the log held before
    followed by the pairs of the batch in the order of the batch, for
    the metrics that are known, each value as [float] reads the twelve
    significant digits written for it; into new series that hold at
    least one point, a known metric of the batch gets exactly its pair.
    The timestamp and the names of the batch are texts of at most 4300
    characters, which [str()] writes and [csv.reader] and [int()] read. *)
Theorem log_round_trip
    (cfg : config) (now ts : Z) (batch : dict float) (f : file) (st : series) :
  PERSIST_ENABLED cfg = true ->
  program_log cfg f ->
  forallb plain_row (batch_rows ts batch) = true ->
  (now - RETENTION_MS cfg <= ts)%Z ->
  _load_history_into_memory cfg now (_persist_append cfg ts batch f) st
  = fold_left (fun st (p : string * sample) => load_push st p.1 p.2)
              (reloaded ts batch)
              (_load_history_into_memory cfg now f st)
  /\ (forall name v,
        f = None -> st = series_init cfg -> (1 <= WINDOW_SIZE cfg)%nat ->
        NoDup (Dict.keys batch) -> (name, v) ∈ batch ->
        name ∈ Dict.keys (METRICS cfg) ->
        _load_history_into_memory cfg now (_persist_append cfg ts batch f) st !! name
        = Some {| maxlen := WINDOW_SIZE cfg; items := [(ts, reload v)] |})
  /\ (forall v, Py.float_of_str (Py.format_12g v) = Some (reload v)).
Proof.
  intros He Hf%program_log_headed _ Hts. split; [by apply load_after_append|]. split.
  - intros name v -> -> Hw Hnd Hin Hname.
    rewrite load_after_append by done. cbn [_load_history_into_memory].
    rewrite (fold_load_push_one _ _ name (ts, reload v) (deque_new (WINDOW_SIZE cfg))).
    + unfold deque_append, deque_new. simpl.
      destruct (Nat.ltb_spec (WINDOW_SIZE cfg) 1); [lia|done].
    + unfold reloaded. rewrite map_map. exact Hnd.
    + unfold reloaded. apply list_elem_of_In, in_map_iff.
      exists (name, v). split; [done|]. by apply list_elem_of_In.
    + by apply series_init_lookup.
  - apply float_of_str_format.
Qed.

Lemma path_resolver_correct_witness :
  Demo.path_abc <> []
  /\ forallb index_readable Demo.path_abc = true
  /\ render_path Demo.path_abc = "a.b[1].c"
  /\ get_by_dot_path Demo.payload_nested (render_path Demo.path_abc)
     = Ok (JStr "leaf").
Proof.
  split; [discriminate|]. split; [reflexivity|]. split; [reflexivity|].
  rewrite (proj1 (path_resolver_correct Demo.payload_nested Demo.path_abc
                    ltac:(discriminate) eq_refl eq_refl)).
  reflexivity.
Defined.

Lemma log_round_trip_witness :
  PERSIST_ENABLED Demo.cfg = true
  /\ program_log Demo.cfg None
  /\ forallb plain_row
       (batch_rows 100 [("HR1m", Demo.lit "10.7"); ("Workers", Float.of_Z 3)]) = true
  /\ _load_history_into_memory Demo.cfg 200
       (_persist_append Demo.cfg 100
          [("HR1m", Demo.lit "10.7"); ("Workers", Float.of_Z 3)] None)
       (series_init Demo.cfg) !! "Workers"
     = Some {| maxlen := 3; items := [(100%Z, reload (Float.of_Z 3))] |}.
Proof.
  split; [reflexivity|]. split; [apply log_absent|]. split; [by vm_compute|].
  apply (proj1 (proj2 (log_round_trip Demo.cfg 200 100
           [("HR1m", Demo.lit "10.7"); ("Workers", Float.of_Z 3)] None
           (series_init Demo.cfg) eq_refl (log_absent Demo.cfg)
           ltac:(by vm_compute) ltac:(vm_compute; discriminate)))).
  - reflexivity.
  - reflexivity.
  - simpl. lia.
  - simpl. repeat constructor; intros H;
      repeat (apply elem_of_cons in H as [H|H]; [discriminate|]);
      by apply elem_of_nil in H.
  - right. left.
  - right. left.
Defined.

(** ** Scenarios of the specification *)

(** One poll cycle on a payload with a hash rate, a number of workers
    and a last share five and a half seconds old. *)
Example scenario_full_payload :
  let w := poll_cycle Demo.cfg Demo.start (Demo.tick_ok 100 Demo.payload_full) in
  (items <$> mem w !! "HR1m") = Some [(100%Z, Demo.lit "10.7")]
  /\ (items <$> mem w !! "Workers") = Some [(100%Z, Demo.lit "3")]
  /\ (items <$> mem w !! "Age") = Some [(100%Z, Demo.lit "5.5")]
  /\ disk w = Some [CSV_HEADER; ["100"; "HR1m"; "10.7"];
                    ["100"; "Workers"; "3"]; ["100"; "Age"; "5.5"]].
Proof. by vm_compute. Qed.

(** A payload without the hash rate: the batch has the two other
    metrics and the series of the hash rate is as before. *)
Example scenario_missing_metric :
  let w := poll_cycle Demo.cfg Demo.start (Demo.tick_ok 100 Demo.payload_no_hashrate) in
  mem w !! "HR1m" = mem Demo.start !! "HR1m"
  /\ disk w = Some [CSV_HEADER; ["100"; "Workers"; "4"]; ["100"; "Age"; "5.5"]].
Proof. by vm_compute. Qed.

(** A restart with a retention of 72 hours: the row that is 100 hours
    old is left out, the recent one is loaded. *)
Example scenario_restart :
  let cfg := {| METRICS := METRICS Demo.cfg; SCALES := SCALES Demo.cfg;
                WINDOW_SIZE := 1000; RETENTION_MS := 72 * 3600 * 1000;
                PERSIST_ENABLED := true |} in
  let now := 1700000000000%Z in
  let log := Some [CSV_HEADER;
                   [Py.str_of_int (now - 100 * 3600 * 1000); "Workers"; "3"];
                   [Py.str_of_int (now - 1000); "Workers"; "4"]] in
  (items <$> _load_history_into_memory cfg now log (series_init cfg) !! "Workers")
  = Some [((now - 1000)%Z, Demo.lit "4")].
Proof. by vm_compute. Qed.

(** The value parser on texts with and without a unit. *)
Example scenario_units :
  parse_unit_number (JStr "10.7T") = Ok (Demo.lit "10.7e12")
  /\ parse_unit_number (JStr "674G") = Ok (Demo.lit "674e9")
  /\ parse_unit_number (JStr " 3 k ") = Ok (Demo.lit "3000")
  /\ parse_unit_number (JStr "-5") = Ok (Demo.lit "-5")
  /\ parse_unit_number (JStr "1e3") = Ok (Demo.lit "1000")
  /\ parse_unit_number (JStr "-5K") = Raise (ValueError_cannot_parse (JStr "-5K"))
  /\ parse_unit_number (JStr "5.") = Ok (Demo.lit "5").
Proof. by vm_compute. Qed.

(** The path resolver on a malformed segment and on an index that is
    out of range. *)
Example scenario_paths :
  get_by_dot_path Demo.payload_nested "a.b[1].c" = Ok (JStr "leaf")
  /\ get_by_dot_path Demo.payload_nested "a.b[2].c"
     = Raise (KeyError "Index [2] out of range for 'b' in path 'a.b[2].c'")
  /\ get_by_dot_path Demo.payload_nested "a.x"
     = Raise (KeyError "Key 'x' not found in path 'a.x'")
  /\ get_by_dot_path Demo.payload_nested "a.b[1].c.d"
     = Raise (KeyError "Key 'd' not found in path 'a.b[1].c.d'")
  /\ get_by_dot_path Demo.payload_nested "a[" = Raise (KeyError "Bad path segment: a[").
Proof. by vm_compute. Qed.

(* ================================================================== *)
(** * Further properties of the program *)
(* ================================================================== *)

(** ** The store keeps its shape *)

Section Shape.
Variable cfg : config.

Lemma deque_append_maxlen d x : maxlen (deque_append d x) = maxlen d.
Proof. done. Qed.

Lemma drop_expired_length horizon t l :
  (length (drop_expired horizon t l) <= length l)%nat.
Proof.
  destruct (drop_expired_suffix horizon t l) as [gone H].
  rewrite H at 2. rewrite length_app. lia.
Qed.

Lemma push_sample_bounded t v d :
  (length (items d) <= maxlen d)%nat ->
  maxlen (push_sample cfg t v d) = maxlen d
  /\ (length (items (push_sample cfg t v d)) <= maxlen d)%nat.
Proof.
  intros H. split; [done|]. unfold push_sample. cbn [items maxlen].
  pose proof (drop_expired_length (RETENTION_MS cfg) t (items (deque_append d (t, v)))).
  pose proof (deque_append_length d (t, v) H). lia.
Qed.

Lemma store_ok_insert (st : series) name d d' :
  store_ok cfg st -> st !! name = Some d ->
  maxlen d' = maxlen d -> (length (items d') <= maxlen d)%nat ->
  store_ok cfg (<[name := d']> st).
Proof.
  intros [Hdom Hok] Hd Hm Hl. destruct (Hok name d Hd) as [HW _]. split.
  - intros n. destruct (decide (n = name)) as [->|Hne].
    + rewrite lookup_insert_eq. rewrite <- Hdom, Hd. split; eauto.
    + by rewrite lookup_insert_ne.
  - intros n e. destruct (decide (n = name)) as [->|Hne].
    + rewrite lookup_insert_eq. intros [= <-]. split; lia.
    + rewrite lookup_insert_ne by done. apply Hok.
Qed.

Lemma store_ok_init : store_ok cfg (series_init cfg).
Proof.
  split.
  - intros name. split.
    + intros [d Hd]. destruct (decide (name ∈ Dict.keys (METRICS cfg))); [done|].
      unfold series_init in Hd. rewrite not_elem_of_list_to_map_1 in Hd; [done|].
      rewrite <- list_fmap_compose. by rewrite list_fmap_id.
    + intros H. rewrite series_init_lookup by done. eauto.
  - intros name d Hd.
    destruct (decide (name ∈ Dict.keys (METRICS cfg))) as [Hin|Hnot].
    + rewrite series_init_lookup in Hd by done. injection Hd as <-. simpl. lia.
    + unfold series_init in Hd. rewrite not_elem_of_list_to_map_1 in Hd; [done|].
      rewrite <- list_fmap_compose. by rewrite list_fmap_id.
Qed.

Lemma store_ok_series_append (st st' : series) name t v :
  store_ok cfg st -> series_append cfg st name t v = Ok st' -> store_ok cfg st'.
Proof.
  unfold series_append. intros Hok H.
  destruct (st !! name) as [d|] eqn:Hd; [|done]. injection H as <-.
  destruct (proj2 Hok name d Hd) as [HW Hl].
  destruct (push_sample_bounded t v d) as [Hm Hl']; [lia|].
  by eapply store_ok_insert.
Qed.

Lemma store_ok_poll_metric tk payload (acc : series * dict float) item :
  store_ok cfg acc.1 -> store_ok cfg (poll_metric cfg tk payload acc item).1.
Proof.
  destruct item as [name path]. unfold poll_metric. intros Hok.
  destruct (extract_metric cfg payload name path (now_s tk name)) as [v|e]; [|done].
  simpl. destruct (series_append cfg acc.1 name (t_ms tk) v) as [st'|e] eqn:E; [|done].
  simpl. by eapply store_ok_series_append.
Qed.

Lemma store_ok_poll_cycle w tk :
  store_ok cfg (mem w) -> store_ok cfg (mem (poll_cycle cfg w tk)).
Proof.
  intros Hok. unfold poll_cycle. destruct (response tk) as [payload|]; [|done].
  assert (H : store_ok cfg (poll_metrics cfg tk payload (mem w)).1).
  { unfold poll_metrics, poll_items.
    assert (G : forall ms acc, store_ok cfg acc.1 ->
              store_ok cfg (fold_left (poll_metric cfg tk payload) ms acc).1).
    { induction ms as [|m ms IH]; intros acc Ha; [done|].
      cbn [fold_left]. apply IH. by apply store_ok_poll_metric. }
    by apply G. }
  by destruct (poll_metrics cfg tk payload (mem w)).
Qed.

Lemma store_ok_poller ticks w :
  store_ok cfg (mem w) -> store_ok cfg (mem (poller cfg ticks w)).
Proof.
  unfold poller. revert w. induction ticks as [|tk ticks IH]; intros w Hok; [done|].
  cbn [fold_left]. apply IH. by apply store_ok_poll_cycle.
Qed.

Lemma store_ok_run_tasks turns w :
  store_ok cfg (mem w) -> store_ok cfg (mem (run_tasks cfg turns w)).
Proof.
  unfold run_tasks. revert w. induction turns as [|tn turns IH]; intros w Hok; [done|].
  cbn [fold_left]. apply IH. destruct tn as [tk|t]; [|done].
  by apply store_ok_poll_cycle.
Qed.

Lemma store_ok_load_push (st : series) name x :
  store_ok cfg st -> store_ok cfg (load_push st name x).
Proof.
  intros Hok. unfold load_push. destruct (st !! name) as [d|] eqn:Hd; [|done].
  destruct (proj2 Hok name d Hd) as [HW Hl].
  eapply store_ok_insert; [done|done|done|].
  apply deque_append_length. lia.
Qed.

Lemma load_step_push cutoff (st : series) r :
  load_step cutoff st r = st
  \/ exists name x, load_step cutoff st r = load_push st name x.
Proof.
  unfold load_step. destruct r as [|a r]; [by left|].
  destruct (load_row cutoff st _) as [[[m x]|]|]; [|by left|by left].
  right. exists m, x. unfold load_push. done.
Qed.

Lemma store_ok_load now f (st : series) :
  store_ok cfg st -> store_ok cfg (_load_history_into_memory cfg now f st).
Proof.
  intros Hok. unfold _load_history_into_memory.
  destruct f as [[|h body]|]; try done; destruct (negb _); try done.
  destruct (decide _); [|done].
  revert st Hok. induction body as [|r body IH]; intros st Hok; [done|].
  cbn [fold_left]. apply IH.
  destruct (load_step_push (now - RETENTION_MS cfg) st r) as [->|(n & x & ->)];
    [done|by apply store_ok_load_push].
Qed.

Lemma deque_of_list_bounded n l :
  maxlen (deque_of_list n l) = n /\ (length (items (deque_of_list n l)) <= n)%nat.
Proof.
  unfold deque_of_list.
  assert (G : forall d, (length (items d) <= maxlen d)%nat ->
            maxlen (fold_left deque_append l d) = maxlen d
            /\ (length (items (fold_left deque_append l d)) <= maxlen d)%nat).
  { induction l as [|x l IH]; intros d Hd; [done|]. cbn [fold_left].
    destruct (IH (deque_append d x)) as [H1 H2].
    - rewrite deque_append_maxlen. by apply deque_append_length.
    - by rewrite deque_append_maxlen in H1, H2. }
  destruct (G (deque_new n)) as [H1 H2]; [simpl; lia|]. done.
Qed.

Lemma store_ok_resize (st : series) :
  store_ok cfg st -> store_ok cfg (resize_all cfg st).
Proof.
  intros [Hdom Hok]. unfold resize_all. split.
  - intros name. rewrite lookup_fmap, <- Hdom.
    destruct (st !! name); simpl; split; intros [? ?]; eauto; done.
  - intros name d. rewrite lookup_fmap.
    destruct (st !! name) as [e|]; [|done]. simpl. intros [= <-].
    apply deque_of_list_bounded.
Qed.

Lemma store_ok_startup now f (st : series) :
  store_ok cfg st -> store_ok cfg (on_startup cfg now f st).
Proof. intros H. unfold on_startup. by apply store_ok_load, store_ok_resize. Qed.

End Shape.

(** X1. Whatever the file found at start-up and whatever the poller
    and the compactor meet afterwards (any payloads, failures and clock
    values), the data served between their turns have an entry for each
    configured metric and for no other name, and no entry is longer
    than [WINDOW_SIZE]. *)
Theorem served_data_bounded
    (cfg : config) (now : Z) (f : file) (turns : list turn) (name : string) :
  (is_Some (get_data (mem (run_server cfg now f turns)) !! name)
   <-> name ∈ Dict.keys (METRICS cfg))
  /\ (forall pts, get_data (mem (run_server cfg now f turns)) !! name = Some pts ->
        (length pts <= WINDOW_SIZE cfg)%nat).
Proof.
  assert (Hok : store_ok cfg (mem (run_server cfg now f turns))).
  { unfold run_server. apply store_ok_run_tasks. simpl.
    apply store_ok_startup, store_ok_init. }
  destruct Hok as [Hdom Hok]. unfold get_data. rewrite lookup_fmap. split.
  - rewrite <- Hdom. destruct (_ !! name); simpl; split; intros [? ?]; eauto; done.
  - intros pts. destruct (_ !! name) as [d|] eqn:E; [|done]. simpl. intros [= <-].
    by destruct (Hok name d E).
Qed.

(** ** The poller appends to memory what it writes to the log *)

Section Journal.
Variable cfg : config.

Lemma dict_set_fresh {V : Type} (b : dict V) name (v : V) :
  name ∉ Dict.keys b -> Dict.set b name v = b ++ [(name, v)].
Proof.
  induction b as [|[k x] b IH]; intros Hnot; [done|].
  simpl in Hnot. apply not_elem_of_cons in Hnot as [Hne Hnot]. simpl.
  destruct (String.eqb_spec k name) as [->|_]; [done|]. by rewrite IH.
Qed.

Lemma dict_get_snoc {V : Type} (b : dict V) name (v : V) :
  name ∉ Dict.keys b -> Dict.get (b ++ [(name, v)]) name = Some v.
Proof.
  induction b as [|[k x] b IH]; intros Hnot; simpl.
  - by rewrite String.eqb_refl.
  - simpl in Hnot. apply not_elem_of_cons in Hnot as [Hne Hnot].
    destruct (String.eqb_spec k name) as [->|_]; [done|]. by apply IH.
Qed.

Lemma keys_app {V : Type} (a b : dict V) :
  Dict.keys (a ++ b) = Dict.keys a ++ Dict.keys b.
Proof. apply map_app. Qed.

Lemma poll_metric_ok tk payload (st st' : series) (b : dict float) name path v :
  extract_metric cfg payload name path (now_s tk name) = Ok v ->
  series_append cfg st name (t_ms tk) v = Ok st' ->
  poll_metric cfg tk payload (st, b) (name, path) = (st', Dict.set b name v).
Proof. intros Ex E. unfold poll_metric. rewrite Ex. simpl. by rewrite E. Qed.

Lemma poll_metric_unknown tk payload (st : series) (b : dict float) name path v e :
  extract_metric cfg payload name path (now_s tk name) = Ok v ->
  series_append cfg st name (t_ms tk) v = Raise e ->
  poll_metric cfg tk payload (st, b) (name, path) = (st, b).
Proof. intros Ex E. unfold poll_metric. rewrite Ex. simpl. by rewrite E. Qed.

Lemma fold_poll_metric_journal tk payload ms (st : series) (b : dict float) :
  NoDup (Dict.keys ms) ->
  (forall k, k ∈ Dict.keys ms -> k ∉ Dict.keys b) ->
  exists new,
    (fold_left (poll_metric cfg tk payload) ms (st, b)).2 = b ++ new
    /\ (fold_left (poll_metric cfg tk payload) ms (st, b)).1
       = run_appends cfg (batch_ops (t_ms tk) new) st
    /\ sublist (Dict.keys new) (Dict.keys ms).
Proof.
  revert st b. induction ms as [|[name path] ms IH]; intros st b Hnd Hdis.
  - exists []. by rewrite app_nil_r.
  - simpl in Hnd. apply NoDup_cons in Hnd as [Hname Hnd]. cbn [fold_left].
    assert (Hb : name ∉ Dict.keys b) by (apply Hdis; simpl; left).
    assert (Hdis' : forall k, k ∈ Dict.keys ms -> k ∉ Dict.keys b).
    { intros k Hk. apply Hdis. simpl. by right. }
    destruct (extract_metric cfg payload name path (now_s tk name)) as [v|e] eqn:Ex.
    + destruct (series_append cfg st name (t_ms tk) v) as [st'|e] eqn:E.
      * rewrite (poll_metric_ok _ _ _ _ _ _ _ _ Ex E), dict_set_fresh by done.
        destruct (IH st' (b ++ [(name, v)]) Hnd) as (new & H1 & H2 & H3).
        { intros k Hk. rewrite keys_app. simpl. intros Hin.
          apply elem_of_app in Hin as [Hin|Hin]; [by apply (Hdis' k)|].
          apply list_elem_of_singleton in Hin. by subst k. }
        exists ((name, v) :: new). rewrite H1, H2, <- app_assoc. split; [done|].
        split; [|by apply sublist_skip].
        unfold run_appends. cbn [batch_ops map fold_left].
        unfold append_or_skip at 3. simpl. by rewrite E.
      * rewrite (poll_metric_unknown _ _ _ _ _ _ _ _ Ex E).
        destruct (IH st b Hnd Hdis') as (new & H1 & H2 & H3).
        exists new. split; [done|]. split; [done|]. by apply sublist_cons.
    + rewrite (poll_metric_raise _ _ _ _ _ _ _ Ex).
      destruct (IH st b Hnd Hdis') as (new & H1 & H2 & H3).
      exists new. split; [done|]. split; [done|]. by apply sublist_cons.
Qed.

Lemma poll_metrics_journal tk payload (st : series) :
  NoDup (Dict.keys (METRICS cfg)) ->
  (poll_metrics cfg tk payload st).1
  = run_appends cfg (batch_ops (t_ms tk) (poll_metrics cfg tk payload st).2) st
  /\ sublist (Dict.keys (poll_metrics cfg tk payload st).2) (Dict.keys (METRICS cfg)).
Proof.
  intros Hnd. unfold poll_metrics, poll_items.
  destruct (fold_poll_metric_journal tk payload (METRICS cfg) st [] Hnd)
    as (new & H1 & H2 & H3).
  { intros k _ Hin. by apply elem_of_nil in Hin. }
  simpl in H1. by rewrite H1, H2.
Qed.

Lemma log_append_app r1 r2 f :
  log_append r2 (log_append r1 f) = log_append (r1 ++ r2) f.
Proof.
  destruct r1 as [|a r1]; [done|]. destruct r2 as [|b r2].
  - by rewrite app_nil_r.
  - destruct f as [old|]; simpl; [|done]. by rewrite <- app_assoc.
Qed.

Lemma batch_rows_ops t (b : dict float) :
  map op_row (batch_ops t b) = batch_rows t b.
Proof.
  unfold batch_ops, batch_rows. rewrite map_map. apply map_ext. by intros [n v].
Qed.

Lemma poll_cycle_disk w tk :
  disk (poll_cycle cfg w tk)
  = if PERSIST_ENABLED cfg
    then log_append (batch_rows (t_ms tk) (cycle_batch cfg tk (mem w))) (disk w)
    else disk w.
Proof.
  unfold poll_cycle, cycle_batch. destruct (response tk) as [payload|].
  - destruct (poll_metrics cfg tk payload (mem w)) as [st [|p b]]; simpl.
    + by destruct (PERSIST_ENABLED cfg).
    + unfold _persist_append. by destruct (PERSIST_ENABLED cfg), (disk w).
  - by destruct (PERSIST_ENABLED cfg).
Qed.

Lemma poll_cycle_mem w tk :
  NoDup (Dict.keys (METRICS cfg)) ->
  mem (poll_cycle cfg w tk)
  = run_appends cfg (batch_ops (t_ms tk) (cycle_batch cfg tk (mem w))) (mem w).
Proof.
  intros Hnd. unfold poll_cycle, cycle_batch. destruct (response tk) as [payload|]; [|done].
  destruct (poll_metrics_journal tk payload (mem w) Hnd) as [H _].
  destruct (poll_metrics cfg tk payload (mem w)) as [st b]. exact H.
Qed.

Lemma poller_mem ticks w :
  NoDup (Dict.keys (METRICS cfg)) ->
  mem (poller cfg ticks w) = run_appends cfg (polled cfg ticks w) (mem w).
Proof.
  intros Hnd. unfold poller. revert w.
  induction ticks as [|tk ticks IH]; intros w; [done|].
  cbn [fold_left polled]. rewrite IH, (poll_cycle_mem w tk Hnd).
  unfold run_appends. by rewrite fold_left_app.
Qed.

Lemma poller_disk ticks w :
  PERSIST_ENABLED cfg = true ->
  disk (poller cfg ticks w) = log_append (map op_row (polled cfg ticks w)) (disk w).
Proof.
  intros He. unfold poller. revert w.
  induction ticks as [|tk ticks IH]; intros w; [done|].
  cbn [fold_left polled]. rewrite IH, poll_cycle_disk, He, map_app.
  by rewrite log_append_app, batch_rows_ops.
Qed.

Lemma poller_disk_off ticks w :
  PERSIST_ENABLED cfg = false -> disk (poller cfg ticks w) = disk w.
Proof.
  intros He. unfold poller. revert w.
  induction ticks as [|tk ticks IH]; intros w; [done|].
  cbn [fold_left]. by rewrite IH, poll_cycle_disk, He.
Qed.

End Journal.

(** X2. The log is the journal of the memory: over any turns of the
    poller on a log that the program wrote, or on none, the series are
    the ones before with the polled points appended in turn, and the
    file is the one before with one row for each of these points, in
    the same order (the names of [METRICS], the keys of a dictionary,
    are distinct, and the clock is a number that [str()] writes);
    without persistence the file is never touched. *)
Theorem poller_writes_what_it_appends (cfg : config) (ticks : list tick) (w : world) :
  NoDup (Dict.keys (METRICS cfg)) ->
  program_log cfg (disk w) ->
  forallb (fun tk => short_text (Py.str_of_int (t_ms tk))) ticks = true ->
  mem (poller cfg ticks w) = run_appends cfg (polled cfg ticks w) (mem w)
  /\ disk (poller cfg ticks w)
     = if PERSIST_ENABLED cfg
       then log_append (map op_row (polled cfg ticks w)) (disk w)
       else disk w.
Proof.
  intros Hnd _ _. split; [by apply poller_mem|].
  destruct (PERSIST_ENABLED cfg) eqn:He.
  - by apply poller_disk.
  - by apply poller_disk_off.
Qed.

Lemma poller_writes_what_it_appends_witness :
  NoDup (Dict.keys (METRICS Demo.cfg))
  /\ program_log Demo.cfg
       (_persist_append Demo.cfg 50 [("Workers", Float.of_Z 2)] None)
  /\ disk (poller Demo.cfg [Demo.tick_ok 100 Demo.payload_full]
             {| mem := series_init Demo.cfg;
                disk := _persist_append Demo.cfg 50 [("Workers", Float.of_Z 2)] None |})
     = Some [CSV_HEADER; ["50"; "Workers"; "2"]; ["100"; "HR1m"; "10.7"];
             ["100"; "Workers"; "3"]; ["100"; "Age"; "5.5"]].
Proof.
  assert (H : NoDup (Dict.keys (METRICS Demo.cfg))).
  { vm_compute. repeat (apply NoDup_cons; split; [by vm_compute; intros H;
      repeat (apply elem_of_cons in H as [H|H]; [discriminate|]);
      apply elem_of_nil in H|]). apply NoDup_nil_2. }
  assert (Hlog : program_log Demo.cfg
                   (_persist_append Demo.cfg 50 [("Workers", Float.of_Z 2)] None)).
  { apply log_appended; [by vm_compute|apply log_absent]. }
  split; [exact H|]. split; [exact Hlog|].
  rewrite (proj2 (poller_writes_what_it_appends Demo.cfg
                    [Demo.tick_ok 100 Demo.payload_full]
                    {| mem := series_init Demo.cfg;
                       disk := _persist_append Demo.cfg 50
                                 [("Workers", Float.of_Z 2)] None |}
                    H Hlog eq_refl)).
  by vm_compute.
Defined.

(** ** What the start-up reads from the log *)

Section Reload.
Variable cfg : config.

Lemma row_dict_three ts m v extra :
  row_dict CSV_HEADER (ts :: m :: v :: extra)
  = [("ts_ms", Some ts); ("metric", Some m); ("value", Some v)].
Proof. by destruct extra. Qed.

Lemma row_get_fields (a b c : option string) :
  let d := [("ts_ms", a); ("metric", b); ("value", c)] in
  row_get d "ts_ms" = Ok a /\ row_get d "metric" = Ok b /\ row_get d "value" = Ok c.
Proof. done. Qed.

Lemma row_dict_short ts :
  row_dict CSV_HEADER [ts] = [("ts_ms", Some ts); ("metric", None); ("value", None)].
Proof. done. Qed.

Lemma row_dict_two ts m :
  row_dict CSV_HEADER [ts; m]
  = [("ts_ms", Some ts); ("metric", Some m); ("value", None)].
Proof. done. Qed.

Lemma load_row_fields cutoff (st : series) (a b c : option string) :
  load_row cutoff st [("ts_ms", a); ("metric", b); ("value", c)]
  = do ts <- int_of_field a;
    if (ts <? cutoff)%Z then Ok None
    else match b with
         | None => Ok None
         | Some metric =>
             match st !! metric with
             | None => Ok None
             | Some _ => do val <- float_of_field c; Ok (Some (metric, (ts, val)))
             end
         end.
Proof.
  unfold load_row. destruct (row_get_fields a b c) as (-> & -> & ->). done.
Qed.

Lemma load_step_sample cutoff (st : series) r :
  load_step cutoff st r
  = match row_sample cutoff r with
    | Some (name, x) => load_push st name x
    | None => st
    end.
Proof.
  destruct r as [|ts [|m [|v extra]]]; [done| | |]; unfold load_step.
  - rewrite row_dict_short, load_row_fields.
    destruct (int_of_field (Some ts)) as [t|]; [|done]. cbn [bind].
    by destruct (t <? cutoff)%Z.
  - rewrite row_dict_two, load_row_fields.
    destruct (int_of_field (Some ts)) as [t|]; [|done]. cbn [bind].
    destruct (t <? cutoff)%Z; [done|]. by destruct (st !! m).
  - rewrite row_dict_three, load_row_fields. unfold row_sample, load_push.
    cbn [bind int_of_field float_of_field py_float].
    destruct (Py.int_of_str ts) as [t|]; [|done]. cbn [bind].
    destruct (t <? cutoff)%Z; [by destruct (Py.float_of_str v)|].
    destruct (st !! m) as [d|] eqn:E.
    + destruct (Py.float_of_str v) as [x|]; [|done]. cbn [bind]. by rewrite E.
    + destruct (Py.float_of_str v) as [x|]; [|done]. by rewrite E.
Qed.

Lemma load_fold_samples cutoff body (st : series) :
  fold_left (load_step cutoff) body st
  = fold_left (fun st (p : string * sample) => load_push st p.1 p.2)
              (log_samples cutoff body) st.
Proof.
  revert st. induction body as [|r body IH]; intros st; [done|].
  cbn [fold_left]. rewrite IH, load_step_sample. unfold log_samples.
  cbn [omap list_omap]. by destruct (row_sample cutoff r) as [[n x]|].
Qed.

Lemma load_log_body now f (st : series) :
  _load_history_into_memory cfg now f st
  = if PERSIST_ENABLED cfg
    then fold_left (fun st (p : string * sample) => load_push st p.1 p.2)
           (log_samples (now - RETENTION_MS cfg) (log_body f)) st
    else st.
Proof.
  unfold _load_history_into_memory, log_body.
  destruct f as [[|h body]|]; destruct (PERSIST_ENABLED cfg); try done.
  cbn [negb]. destruct (decide (h = CSV_HEADER)); [|done]. apply load_fold_samples.
Qed.

Lemma fold_load_push_lookup (ops : list (string * sample)) (st : series) name d :
  st !! name = Some d ->
  fold_left (fun st (p : string * sample) => load_push st p.1 p.2) ops st !! name
  = Some (fold_left deque_append (appends_of name ops) d).
Proof.
  revert st d. induction ops as [|[n x] ops IH]; intros st d Hd; [done|].
  cbn [fold_left]. unfold appends_of. cbn [filter list_filter fst].
  destruct (String.eqb_spec n name) as [->|Hne].
  - destruct (decide _) as [_|Hn]; [|done]. cbn [map fold_left snd].
    apply IH. unfold load_push. simpl. rewrite Hd. by rewrite lookup_insert_eq.
  - destruct (decide _) as [Hn|_]; [done|]. apply IH. by rewrite load_push_other.
Qed.

Lemma fold_load_push_none (ops : list (string * sample)) (st : series) name :
  st !! name = None ->
  fold_left (fun st (p : string * sample) => load_push st p.1 p.2) ops st !! name = None.
Proof.
  revert st. induction ops as [|[n x] ops IH]; intros st Hd; [done|].
  cbn [fold_left]. apply IH. unfold load_push. simpl.
  destruct (st !! n) as [d|] eqn:E; [|done].
  rewrite lookup_insert_ne; [done|]. intros ->. congruence.
Qed.

Lemma lastn_all {A : Type} n (l : list A) : (length l <= n)%nat -> lastn n l = l.
Proof. intros H. unfold lastn. by replace (length l - n)%nat with 0%nat by lia. Qed.

Lemma lastn_length {A : Type} n (l : list A) : length (lastn n l) = min n (length l).
Proof. unfold lastn. rewrite length_drop. lia. Qed.

Lemma lastn_app {A : Type} n (a b : list A) :
  lastn n (lastn n a ++ b) = lastn n (a ++ b).
Proof.
  destruct (Nat.le_gt_cases (length a) n) as [H|H]; [by rewrite (lastn_all n a)|].
  unfold lastn at 1 3. rewrite !length_app, lastn_length.
  replace (min n (length a) + length b - n)%nat with (length b) by lia.
  replace (length a + length b - n)%nat with ((length a - n) + length b)%nat by lia.
  rewrite <- drop_drop. f_equal. unfold lastn.
  rewrite drop_app_le by lia. done.
Qed.

Lemma deque_append_items d x :
  (length (items d) <= maxlen d)%nat ->
  items (deque_append d x) = lastn (maxlen d) (items d ++ [x]).
Proof.
  intros H. unfold deque_append, lastn. cbn [items]. rewrite length_app. simpl.
  destruct (Nat.ltb_spec (maxlen d) (length (items d) + 1)).
  - replace (length (items d) + 1 - maxlen d)%nat with 1%nat by lia.
    by destruct (items d ++ [x]).
  - by replace (length (items d) + 1 - maxlen d)%nat with 0%nat by lia.
Qed.

Lemma fold_deque_append xs d :
  (length (items d) <= maxlen d)%nat ->
  maxlen (fold_left deque_append xs d) = maxlen d
  /\ items (fold_left deque_append xs d) = lastn (maxlen d) (items d ++ xs).
Proof.
  revert d. induction xs as [|x xs IH]; intros d Hd.
  - split; [done|]. simpl. rewrite app_nil_r. by rewrite lastn_all.
  - cbn [fold_left]. destruct (IH (deque_append d x)) as [H1 H2].
    { rewrite deque_append_maxlen. by apply deque_append_length. }
    rewrite H1, H2, deque_append_maxlen. split; [done|].
    rewrite deque_append_items by done. rewrite lastn_app.
    by rewrite <- app_assoc.
Qed.

Lemma resize_init : resize_all cfg (series_init cfg) = series_init cfg.
Proof.
  apply map_eq. intros name. unfold resize_all. rewrite lookup_fmap.
  destruct (series_init cfg !! name) as [d|] eqn:E; [|done].
  destruct (decide (name ∈ Dict.keys (METRICS cfg))) as [Hin|Hnot].
  - rewrite series_init_lookup in E by done. injection E as <-. done.
  - exfalso. apply Hnot, (proj1 (store_ok_init cfg) name). eauto.
Qed.

Lemma startup_lookup now f name :
  name ∈ Dict.keys (METRICS cfg) ->
  exists d,
    on_startup cfg now f (series_init cfg) !! name = Some d
    /\ maxlen d = WINDOW_SIZE cfg
    /\ items d
       = lastn (WINDOW_SIZE cfg)
           (appends_of name
              (if PERSIST_ENABLED cfg
               then log_samples (now - RETENTION_MS cfg) (log_body f) else [])).
Proof.
  intros Hin. unfold on_startup. rewrite resize_init, load_log_body.
  pose proof (series_init_lookup cfg name Hin) as Hinit.
  destruct (PERSIST_ENABLED cfg).
  - rewrite (fold_load_push_lookup _ _ name _ Hinit).
    destruct (fold_deque_append
                (appends_of name (log_samples (now - RETENTION_MS cfg) (log_body f)))
                (deque_new (WINDOW_SIZE cfg))) as [H1 H2]; [simpl; lia|].
    eexists. split; [done|]. split; [done|]. by rewrite H2.
  - eexists. split; [done|]. split; [done|]. done.
Qed.

Lemma row_sample_fresh cutoff r name x :
  row_sample cutoff r = Some (name, x) -> (cutoff <= x.1)%Z.
Proof.
  destruct r as [|ts [|m [|v extra]]]; try done. simpl.
  destruct (Py.int_of_str ts) as [t|]; [|done].
  destruct (Py.float_of_str v) as [y|]; [|done].
  destruct (Z.ltb_spec t cutoff); [done|]. intros [= <- <-]. simpl. lia.
Qed.

Lemma log_samples_fresh cutoff body name :
  Forall (fun x : sample => (cutoff <= x.1)%Z) (appends_of name (log_samples cutoff body)).
Proof.
  apply Forall_forall. intros x Hx. unfold appends_of in Hx.
  apply list_elem_of_In, in_map_iff in Hx as ([n y] & <- & Hy).
  apply list_elem_of_In, list_elem_of_filter in Hy as [_ Hy].
  unfold log_samples in Hy. apply list_elem_of_omap in Hy as (r & _ & Hr).
  by eapply row_sample_fresh.
Qed.

End Reload.

(** X3. After the start-up, the data served for a configured metric
    are the last [WINDOW_SIZE] of the points that the rows of the log
    stand for, in the order of the rows: the rows of that metric with at
    least three fields, a first field that [int()] reads as a time not
    before the cutoff and a third field that [float()] reads. A log that
    does not exist, does not start with the header, or is not enabled,
    gives no point. The fields of the rows are texts of at most 4300
    characters, which [csv.reader] and [int()] read. *)
Theorem startup_serves_last_window
    (cfg : config) (now : Z) (f : file) (name : string) :
  name ∈ Dict.keys (METRICS cfg) ->
  forallb plain_row (log_body f) = true ->
  get_data (on_startup cfg now f (series_init cfg)) !! name
  = Some (lastn (WINDOW_SIZE cfg)
            (appends_of name
               (if PERSIST_ENABLED cfg
                then log_samples (now - RETENTION_MS cfg) (log_body f) else []))).
Proof.
  intros Hin _. destruct (startup_lookup cfg now f name Hin) as (d & H1 & _ & H3).
  unfold get_data. rewrite lookup_fmap, H1. simpl. by rewrite H3.
Qed.

Lemma startup_serves_last_window_witness :
  "Workers" ∈ Dict.keys (METRICS Demo.cfg)
  /\ forallb plain_row
       (log_body (Some [CSV_HEADER; ["100"; "Workers"; "1"]; ["600"; "Workers"; "2"];
                        []; ["700"; "Workers"; "x"]; ["800"; "Workers"];
                        ["900"; "Other"; "5"]; ["1000"; "Workers"; "3"; "more"]])) = true
  /\ get_data (on_startup Demo.cfg 1500
                 (Some [CSV_HEADER; ["100"; "Workers"; "1"]; ["600"; "Workers"; "2"];
                        []; ["700"; "Workers"; "x"]; ["800"; "Workers"];
                        ["900"; "Other"; "5"]; ["1000"; "Workers"; "3"; "more"]])
                 (series_init Demo.cfg)) !! "Workers"
     = Some [(600%Z, Float.of_Z 2); (1000%Z, Float.of_Z 3)].
Proof.
  assert (H : "Workers" ∈ Dict.keys (METRICS Demo.cfg)).
  { simpl. right. left. }
  split; [exact H|]. split; [by vm_compute|].
  rewrite (startup_serves_last_window Demo.cfg 1500
             (Some [CSV_HEADER; ["100"; "Workers"; "1"]; ["600"; "Workers"; "2"];
                    []; ["700"; "Workers"; "x"]; ["800"; "Workers"];
                    ["900"; "Other"; "5"]; ["1000"; "Workers"; "3"; "more"]])
             "Workers" H ltac:(by vm_compute)).
  by vm_compute.
Defined.

(** X4. The start-up loads no point older than the retention: every
    point served after it has a time not before [now - RETENTION_MS]. *)
Theorem startup_respects_retention
    (cfg : config) (now : Z) (f : file) (name : string) (pts : list sample) :
  get_data (on_startup cfg now f (series_init cfg)) !! name = Some pts ->
  Forall (fun x : sample => (now - RETENTION_MS cfg <= x.1)%Z) pts.
Proof.
  intros H.
  assert (Hin : name ∈ Dict.keys (METRICS cfg)).
  { apply (proj1 (store_ok_startup cfg now f _ (store_ok_init cfg))).
    unfold get_data in H. rewrite lookup_fmap in H.
    destruct (on_startup cfg now f (series_init cfg) !! name); [eauto|done]. }
  destruct (startup_lookup cfg now f name Hin) as (d & H1 & _ & H3).
  unfold get_data in H. rewrite lookup_fmap, H1 in H. injection H as <-. rewrite H3.
  unfold lastn. apply Forall_drop. destruct (PERSIST_ENABLED cfg).
  - apply log_samples_fresh.
  - constructor.
Qed.

Lemma startup_respects_retention_witness :
  exists pts,
    get_data (on_startup Demo.cfg 1500
                (Some [CSV_HEADER; ["100"; "Workers"; "1"]; ["600"; "Workers"; "2"]])
                (series_init Demo.cfg)) !! "Workers" = Some pts
    /\ Forall (fun x : sample => (1500 - RETENTION_MS Demo.cfg <= x.1)%Z) pts.
Proof.
  eexists. split; [by vm_compute|].
  apply (startup_respects_retention Demo.cfg 1500
           (Some [CSV_HEADER; ["100"; "Workers"; "1"]; ["600"; "Workers"; "2"]])
           "Workers").
  by vm_compute.
Defined.

(** X5. A row that stands for no point (blank, with fewer than three
    fields, with a time or a value that does not read, or older than the
    cutoff), or whose metric has no series, is skipped by the load on its
    own: the rows before and after it are loaded as if it were not there.
    The fields of all the rows are texts of at most 4300 characters,
    which [csv.reader] and [int()] read. *)
Theorem load_skips_bad_rows
    (cfg : config) (now : Z) (fieldnames : row) (before after : list row) (r : row)
    (st : series) :
  forallb plain_row (fieldnames :: before ++ r :: after) = true ->
  (row_sample (now - RETENTION_MS cfg) r = None
   \/ exists name x, row_sample (now - RETENTION_MS cfg) r = Some (name, x)
                     /\ st !! name = None) ->
  _load_history_into_memory cfg now (Some (fieldnames :: before ++ r :: after)) st
  = _load_history_into_memory cfg now (Some (fieldnames :: before ++ after)) st.
Proof.
  intros _ Hr. rewrite !load_log_body. destruct (PERSIST_ENABLED cfg); [|done].
  unfold log_body. destruct (decide (fieldnames = CSV_HEADER)); [|done].
  unfold log_samples. rewrite !omap_app, !fold_left_app. cbn [omap list_omap].
  destruct Hr as [->|(name & x & -> & Hnone)]; [done|].
  cbn [fold_left fst snd]. f_equal.
  set (st' := fold_left _ _ st).
  assert (H : st' !! name = None) by by apply fold_load_push_none.
  unfold load_push. by rewrite H.
Qed.

Lemma load_skips_bad_rows_witness :
  forallb plain_row (CSV_HEADER :: [["600"; "Workers"; "2"]] ++ ["700"; "Workers"; "x"]
                                :: [["1000"; "Workers"; "3"]]) = true
  /\ row_sample (1500 - RETENTION_MS Demo.cfg) ["700"; "Workers"; "x"] = None
  /\ _load_history_into_memory Demo.cfg 1500
       (Some (CSV_HEADER :: [["600"; "Workers"; "2"]] ++ ["700"; "Workers"; "x"]
                         :: [["1000"; "Workers"; "3"]])) (series_init Demo.cfg)
     = _load_history_into_memory Demo.cfg 1500
         (Some (CSV_HEADER :: [["600"; "Workers"; "2"]] ++ [["1000"; "Workers"; "3"]]))
         (series_init Demo.cfg).
Proof.
  split; [by vm_compute|]. split; [by vm_compute|].
  apply (load_skips_bad_rows Demo.cfg 1500 CSV_HEADER [["600"; "Workers"; "2"]]
           [["1000"; "Workers"; "3"]] ["700"; "Workers"; "x"] (series_init Demo.cfg)).
  - by vm_compute.
  - left. by vm_compute.
Defined.

(** ** Compaction over time, and the load after it *)

Section CompactLoad.
Variable cfg : config.

Lemma dict_mem_keys {V : Type} (d : dict V) k :
  Dict.mem d k = true <-> k ∈ Dict.keys d.
Proof.
  unfold Dict.mem. induction d as [|[k' v] d IH]; simpl.
  - split; [done|]. intros H. by apply elem_of_nil in H.
  - destruct (String.eqb_spec k' k) as [->|Hne].
    + split; [left|done].
    + rewrite IH. split; [by right|].
      intros [?|?]%elem_of_cons; [congruence|done].
Qed.

Lemma compact_row_fields cutoff (a b c : option string) :
  compact_row cfg cutoff [("ts_ms", a); ("metric", b); ("value", c)]
  = do ts <- int_of_field a;
    if ((cutoff <=? ts)%Z
        && match b with Some metric => Dict.mem (METRICS cfg) metric | None => false end)%bool
    then Ok (Some [default "" a; default "" b; default "" c])
    else Ok None.
Proof.
  unfold compact_row. destruct (row_get_fields a b c) as (-> & -> & ->). done.
Qed.

(** A row that passes a compaction passes a later one when it is
    still fresh, as it would have without the first. *)
Lemma compact_step_later c1 c2 fieldnames r :
  (c1 <= c2)%Z ->
  concat (map (compact_step cfg c2 CSV_HEADER) (compact_step cfg c1 fieldnames r))
  = compact_step cfg c2 fieldnames r.
Proof.
  intros Hc. unfold compact_step at 2 3. destruct r as [|x r]; [done|].
  unfold compact_row. generalize (row_dict fieldnames (x :: r)). intros d.
  destruct (row_get d "ts_ms") as [[ts|]|]; cbn [bind int_of_field]; try done.
  destruct (Py.int_of_str ts) as [t|] eqn:Et; cbn [bind]; [|done].
  destruct (row_get d "metric") as [[m|]|]; cbn [bind]; try done.
  - destruct (Dict.mem (METRICS cfg) m) eqn:Em.
    + rewrite !andb_true_r.
      destruct (row_get d "value") as [y|]; cbn [bind].
      * destruct (Z.leb_spec c1 t), (Z.leb_spec c2 t); try lia; try done.
        -- change (default "" (Some ts)) with ts. change (default "" (Some m)) with m.
           cbn [map concat]. rewrite app_nil_r.
           unfold compact_step. rewrite row_dict_three, compact_row_fields.
           cbn [int_of_field]. rewrite Et. cbn [bind]. rewrite Em.
           destruct (Z.leb_spec c2 t); [done|lia].
        -- change (default "" (Some ts)) with ts. change (default "" (Some m)) with m.
           cbn [map concat]. rewrite app_nil_r.
           unfold compact_step. rewrite row_dict_three, compact_row_fields.
           cbn [int_of_field]. rewrite Et. cbn [bind]. rewrite Em.
           destruct (Z.leb_spec c2 t); [lia|done].
      * by destruct (c1 <=? t)%Z, (c2 <=? t)%Z.
    + by rewrite !andb_false_r.
  - by rewrite !andb_false_r.
Qed.

Lemma compact_body_later c1 c2 fieldnames body :
  (c1 <= c2)%Z ->
  concat (map (compact_step cfg c2 CSV_HEADER)
              (concat (map (compact_step cfg c1 fieldnames) body)))
  = concat (map (compact_step cfg c2 fieldnames) body).
Proof.
  intros Hc. induction body as [|r body IH]; [done|].
  cbn [map concat]. rewrite map_app, concat_app, IH.
  by rewrite compact_step_later.
Qed.

Lemma compact_later now1 now2 f :
  (now1 <= now2)%Z ->
  _compact_csv cfg now2 (_compact_csv cfg now1 f) = _compact_csv cfg now2 f.
Proof.
  intros Hn. destruct f as [rows|]; [|done]. unfold _compact_csv.
  destruct (PERSIST_ENABLED cfg); cbn [negb]; [|done].
  destruct rows as [|fieldnames body]; [done|].
  rewrite compact_body_later; [done|lia].
Qed.

Lemma compact_fold_last times now f :
  Sorted Z.le (times ++ [now]) ->
  fold_left (fun f t => _compact_csv cfg t f) (times ++ [now]) f
  = _compact_csv cfg now f.
Proof.
  revert f. induction times as [|t times IH]; intros f Hs; [done|].
  cbn [app fold_left]. simpl in Hs. apply Sorted_StronglySorted in Hs.
  2:{ intros a b c. lia. }
  apply StronglySorted_inv in Hs as [Hs Hall].
  rewrite IH by by apply StronglySorted_Sorted.
  apply compact_later.
  rewrite List.Forall_forall in Hall. apply Hall, in_or_app. right. by left.
Qed.

(** The load skips what a compaction before it drops. *)
Lemma load_compact_step c1 c2 (st : series) r :
  (c1 <= c2)%Z ->
  (forall m, is_Some (st !! m) -> m ∈ Dict.keys (METRICS cfg)) ->
  fold_left (load_step c2) (compact_step cfg c1 CSV_HEADER r) st = load_step c2 st r.
Proof.
  intros Hc Hst.
  assert (Hmem : forall m x, Dict.mem (METRICS cfg) m = false -> load_push st m x = st).
  { intros m x Hm. unfold load_push. destruct (st !! m) as [d|] eqn:E; [|done].
    assert (H : Dict.mem (METRICS cfg) m = true) by (apply dict_mem_keys, Hst; eauto).
    congruence. }
  destruct r as [|ts [|m [|v extra]]]; [done| | |]; unfold compact_step.
  - rewrite row_dict_short, compact_row_fields, load_step_sample.
    destruct (int_of_field (Some ts)) as [t|]; [|done]. cbn [bind].
    by rewrite andb_false_r.
  - rewrite row_dict_two, compact_row_fields, load_step_sample.
    cbn [int_of_field]. destruct (Py.int_of_str ts) as [t|] eqn:Et; [|done]. cbn [bind].
    destruct (_ && _); [|done].
    change (default "" (Some ts)) with ts. change (default "" (Some m)) with m.
    change (default "" (@None string)) with "". cbn [fold_left].
    rewrite load_step_sample. unfold row_sample. rewrite Et.
    by replace (Py.float_of_str "") with (@None float) by by vm_compute.
  - rewrite row_dict_three, compact_row_fields, (load_step_sample c2 st).
    cbn [int_of_field]. unfold row_sample at 1.
    destruct (Py.int_of_str ts) as [t|] eqn:Et; [|done]. cbn [bind].
    destruct (Z.leb_spec c1 t) as [H1|H1]; cbn [andb].
    + destruct (Dict.mem (METRICS cfg) m) eqn:Em.
      * change (default "" (Some ts)) with ts. change (default "" (Some m)) with m.
        change (default "" (Some v)) with v. cbn [fold_left].
        rewrite load_step_sample. unfold row_sample. by rewrite Et.
      * cbn [fold_left]. destruct (Py.float_of_str v) as [x|]; [|done].
        destruct (t <? c2)%Z; [done|]. by rewrite Hmem.
    + cbn [fold_left]. destruct (Py.float_of_str v) as [x|]; [|done].
      destruct (Z.ltb_spec t c2); [done|lia].
Qed.

Lemma load_push_keys (st : series) name x m :
  is_Some (load_push st name x !! m) -> is_Some (st !! m).
Proof.
  unfold load_push. destruct (st !! name) as [d|] eqn:E; [|done].
  destruct (decide (m = name)) as [->|Hne].
  - by rewrite E.
  - by rewrite lookup_insert_ne.
Qed.

Lemma load_compact_body c1 c2 body (st : series) :
  (c1 <= c2)%Z ->
  (forall m, is_Some (st !! m) -> m ∈ Dict.keys (METRICS cfg)) ->
  fold_left (load_step c2) (concat (map (compact_step cfg c1 CSV_HEADER) body)) st
  = fold_left (load_step c2) body st.
Proof.
  intros Hc. revert st. induction body as [|r body IH]; intros st Hst; [done|].
  cbn [map concat fold_left]. rewrite fold_left_app, load_compact_step by done.
  apply IH. intros m Hm. apply Hst.
  destruct (load_step_push c2 st r) as [E|(n & x & E)]; rewrite E in Hm; [done|].
  by eapply load_push_keys.
Qed.

Lemma load_compact compacted_at now f (st : series) :
  headed f ->
  (compacted_at <= now)%Z ->
  (forall m, is_Some (st !! m) -> m ∈ Dict.keys (METRICS cfg)) ->
  _load_history_into_memory cfg now (_compact_csv cfg compacted_at f) st
  = _load_history_into_memory cfg now f st.
Proof.
  intros [->|[body ->]] Hn Hst; [done|].
  unfold _compact_csv, _load_history_into_memory.
  destruct (PERSIST_ENABLED cfg) eqn:He; cbn [negb]; rewrite ?He; cbn [negb]; [|done].
  destruct (decide (CSV_HEADER = CSV_HEADER)); [|done].
  apply load_compact_body; [lia|done].
Qed.

End CompactLoad.

(** X6. The compactor, woken at times that do not go back, leaves
    the log as one compaction at the last of these times does: a row
    dropped once stays out, and a row kept is kept again as long as it
    is fresh. In particular compacting twice at one time is compacting
    once, for any log. *)
Theorem compactor_loop_is_last_compaction
    (cfg : config) (times : list Z) (now : Z) (f : file) :
  Sorted Z.le (times ++ [now]) ->
  compactor_loop cfg (times ++ [now]) f = _compact_csv cfg now f.
Proof.
  intros Hs. unfold compactor_loop.
  destruct (PERSIST_ENABLED cfg) eqn:He; cbn [negb].
  - by apply compact_fold_last.
  - unfold _compact_csv. rewrite He. by destruct f.
Qed.

Lemma compactor_loop_is_last_compaction_witness :
  Sorted Z.le ([1200; 1200; 1500] ++ [1700])%Z
  /\ compactor_loop Demo.cfg ([1200; 1200; 1500] ++ [1700])%Z
       (Some [["metric"; "value"; "ts_ms"]; ["Workers"; "1"; "600"];
              ["Workers"; "2"; "800"; "x"]; ["Other"; "3"; "900"]])
     = Some [CSV_HEADER; ["800"; "Workers"; "2"]].
Proof.
  assert (H : Sorted Z.le ([1200; 1200; 1500] ++ [1700])%Z).
  { repeat constructor; by vm_compute. }
  split; [exact H|].
  rewrite (compactor_loop_is_last_compaction Demo.cfg [1200; 1200; 1500]%Z 1700 _ H).
  by vm_compute.
Defined.

(** X7. Compaction loses nothing that a later start-up would load:
    for a log that starts with the header (or does not exist) and series
    of configured metrics only, loading at a time not before the
    compaction gives the same series from the compacted log as from the
    log as it was. *)
Theorem load_after_compaction
    (cfg : config) (compacted_at now : Z) (f : file) (st : series) :
  headed f ->
  (compacted_at <= now)%Z ->
  (forall m, is_Some (st !! m) -> m ∈ Dict.keys (METRICS cfg)) ->
  _load_history_into_memory cfg now (_compact_csv cfg compacted_at f) st
  = _load_history_into_memory cfg now f st.
Proof. apply load_compact. Qed.

Lemma load_after_compaction_witness :
  headed (Some [CSV_HEADER; ["100"; "Workers"; "1"]; ["600"; "Workers"; "2"; "x"];
                ["700"; "Other"; "3"]; ["1400"; "Workers"; "4"]])
  /\ _load_history_into_memory Demo.cfg 1500
       (_compact_csv Demo.cfg 1200
          (Some [CSV_HEADER; ["100"; "Workers"; "1"]; ["600"; "Workers"; "2"; "x"];
                 ["700"; "Other"; "3"]; ["1400"; "Workers"; "4"]]))
       (series_init Demo.cfg)
     = _load_history_into_memory Demo.cfg 1500
         (Some [CSV_HEADER; ["100"; "Workers"; "1"]; ["600"; "Workers"; "2"; "x"];
                ["700"; "Other"; "3"]; ["1400"; "Workers"; "4"]])
         (series_init Demo.cfg).
Proof.
  assert (H : headed (Some [CSV_HEADER; ["100"; "Workers"; "1"];
                            ["600"; "Workers"; "2"; "x"];
                            ["700"; "Other"; "3"]; ["1400"; "Workers"; "4"]])).
  { right. by eexists. }
  split; [exact H|].
  apply (load_after_compaction Demo.cfg 1200 1500 _ (series_init Demo.cfg) H); [lia|].
  intros m Hm. by apply (proj1 (store_ok_init Demo.cfg)).
Defined.

(** ** The window of a series, exactly *)

Section Exact.
Variable cfg : config.

Lemma fresh_filter_all c (l : list sample) :
  Forall (fun x => fresh_since c x = true) l -> filter (fresh_since c) l = l.
Proof.
  induction 1 as [|x l Hx _ IH]; [done|].
  rewrite filter_cons_True by by apply Is_true_true_2. by rewrite IH.
Qed.

Lemma ascending_cons x (l : list sample) :
  ascending (x :: l) -> Forall (fun y : sample => (x.1 < y.1)%Z) l /\ ascending l.
Proof.
  unfold ascending. simpl. intros H. apply StronglySorted_inv in H as [H Hall].
  split; [|done]. apply Forall_forall. intros y Hy.
  rewrite List.Forall_forall in Hall. apply Hall, in_map. by apply list_elem_of_In.
Qed.

Lemma ascending_fresh c x (l : list sample) :
  ascending (x :: l) -> fresh_since c x = true ->
  Forall (fun y => fresh_since c y = true) (x :: l).
Proof.
  intros [Hall _]%ascending_cons Hx. constructor; [done|].
  eapply Forall_impl; [exact Hall|]. intros y Hy. unfold fresh_since in *. simpl in *.
  apply Z.leb_le. apply Z.leb_le in Hx. lia.
Qed.

Lemma ascending_sublist (l' l : list sample) :
  l' `sublist_of` l -> ascending l -> ascending l'.
Proof.
  induction 1 as [|x l1 l2 Hs IH|x l1 l2 Hs IH]; intros Ha; [done| |].
  - apply ascending_cons in Ha as [Hall Ha]. unfold ascending. simpl.
    constructor; [by apply IH|].
    apply List.Forall_forall. intros t Ht. apply in_map_iff in Ht as (y & <- & Hy).
    rewrite Forall_forall in Hall. apply Hall.
    eapply elem_of_sublist; [|exact Hs]. by apply list_elem_of_In.
  - apply ascending_cons in Ha as [_ Ha]. by apply IH.
Qed.

Lemma drop_expired_filter horizon t (l : list sample) :
  ascending l -> drop_expired horizon t l = filter (fresh_since (t - horizon)) l.
Proof.
  induction l as [|[ts v] l IH]; intros Ha; [done|]. simpl.
  destruct (Z.ltb_spec horizon (t - ts)) as [Hlt|Hge].
  - rewrite filter_cons_False.
    + apply IH. by apply ascending_cons in Ha as [_ Ha].
    + unfold fresh_since. simpl. intros Hf%Is_true_true%Z.leb_le. lia.
  - symmetry. apply fresh_filter_all. apply ascending_fresh; [done|].
    unfold fresh_since. simpl. apply Z.leb_le. lia.
Qed.

Lemma lastn_cons_short {A : Type} n (x : A) l :
  (n <= length l)%nat -> lastn n (x :: l) = lastn n l.
Proof.
  intros H. unfold lastn. simpl length.
  by replace (S (length l) - n)%nat with (S (length l - n)) by lia.
Qed.

Lemma filter_lastn c n (l : list sample) :
  ascending l ->
  filter (fresh_since c) (lastn n l) = lastn n (filter (fresh_since c) l).
Proof.
  induction l as [|x l IH]; intros Ha; [by destruct n|].
  destruct (fresh_since c x) eqn:Hx.
  - pose proof (ascending_fresh c x l Ha Hx) as Hall.
    rewrite (fresh_filter_all c (x :: l)) by done.
    apply fresh_filter_all. unfold lastn. by apply Forall_drop.
  - rewrite (filter_cons_False _ x l) by by apply Is_true_false_2.
    apply ascending_cons in Ha as [_ Ha].
    destruct (Nat.le_gt_cases n (length l)) as [Hn|Hn].
    + rewrite lastn_cons_short by done. by apply IH.
    + rewrite (lastn_all n (x :: l)) by (simpl; lia).
      rewrite filter_cons_False by by apply Is_true_false_2.
      rewrite lastn_all; [done|].
      pose proof (sublist_length _ _ (sublist_filter (fresh_since c) l)). lia.
Qed.

Lemma filter_fresh_fresh c' c (l : list sample) :
  (c' <= c)%Z ->
  filter (fresh_since c) (filter (fresh_since c') l) = filter (fresh_since c) l.
Proof.
  intros Hc. induction l as [|x l IH]; [done|].
  destruct (fresh_since c x) eqn:Hx.
  - assert (Hx' : fresh_since c' x = true).
    { unfold fresh_since in *. apply Z.leb_le. apply Z.leb_le in Hx. lia. }
    rewrite (filter_cons_True (fresh_since c') x l) by by apply Is_true_true_2.
    rewrite !filter_cons_True by by apply Is_true_true_2. by rewrite IH.
  - rewrite (filter_cons_False (fresh_since c) x l) by by apply Is_true_false_2.
    destruct (fresh_since c' x) eqn:Hx'.
    + rewrite (filter_cons_True (fresh_since c') x l) by by apply Is_true_true_2.
      rewrite filter_cons_False by by apply Is_true_false_2. done.
    + by rewrite (filter_cons_False (fresh_since c') x l) by by apply Is_true_false_2.
Qed.

Lemma ascending_snoc (apps : list sample) x :
  ascending (apps ++ [x]) ->
  ascending apps /\ forall y, last apps = Some y -> (y.1 < x.1)%Z.
Proof.
  intros Ha. split.
  - eapply ascending_sublist; [|exact Ha]. by apply sublist_inserts_r.
  - intros y Hy. apply last_Some in Hy as [l' ->].
    rewrite <- app_assoc in Ha. apply ascending_suffix in Ha.
    apply ascending_cons in Ha as [Hall _]. by apply Forall_inv in Hall.
Qed.

Lemma window_as_filter (apps : list sample) c :
  (forall y, last apps = Some y -> c = (y.1 - RETENTION_MS cfg)%Z) ->
  window cfg apps = lastn (WINDOW_SIZE cfg) (filter (fresh_since c) apps).
Proof.
  intros Hc. unfold window. destruct (last apps) as [y|] eqn:E.
  - by rewrite (Hc y).
  - apply last_None in E as ->. by destruct (WINDOW_SIZE cfg).
Qed.

(** The appends [apps], in ascending order, to a new deque. *)
Lemma fold_push_exact (apps : list sample) :
  ascending apps ->
  let d := fold_left (fun d (p : sample) => push_sample cfg p.1 p.2 d) apps
                     (deque_new (WINDOW_SIZE cfg)) in
  maxlen d = WINDOW_SIZE cfg /\ items d = window cfg apps.
Proof.
  induction apps as [|[t v] apps IH] using rev_ind; intros Hasc; [done|].
  destruct (ascending_snoc apps (t, v) Hasc) as [Hasc' Hlast].
  destruct (IH Hasc') as [Hm Hi]. cbv zeta. rewrite fold_push_snoc.
  set (d := fold_left _ apps _) in *. split; [done|].
  unfold push_sample. cbn [items fst snd].
  set (c' := match last apps with
             | Some y => (y.1 - RETENTION_MS cfg)%Z
             | None => (t - RETENTION_MS cfg)%Z
             end).
  assert (Hw : window cfg apps
               = lastn (WINDOW_SIZE cfg) (filter (fresh_since c') apps)).
  { apply window_as_filter. intros y Hy. subst c'. by rewrite Hy. }
  assert (Hc' : (c' <= t - RETENTION_MS cfg)%Z).
  { subst c'. destruct (last apps) as [y|] eqn:E; [|lia].
    specialize (Hlast y eq_refl). simpl in Hlast. lia. }
  assert (Hsub : ascending (filter (fresh_since c') apps ++ [(t, v)])).
  { eapply ascending_sublist; [|exact Hasc].
    apply sublist_app; [apply sublist_filter|done]. }
  rewrite deque_append_items.
  2:{ rewrite Hi, Hm, Hw, lastn_length. lia. }
  rewrite Hm, Hi, Hw, lastn_app.
  rewrite drop_expired_filter.
  2:{ eapply ascending_sublist; [|exact Hsub]. apply sublist_drop. }
  rewrite filter_lastn by done.
  rewrite filter_app, filter_fresh_fresh by done.
  unfold window. rewrite last_snoc. cbn [fst]. by rewrite filter_app.
Qed.

End Exact.

(** X8. After any sequence of appends in which the timestamps of a
    configured metric are strictly ascending, the data served for the
    metric are exactly these: of the points appended to it within
    [RETENTION_MS] of the last one, the last [WINDOW_SIZE], in the order
    of the appends. *)
Theorem series_window_exact
    (cfg : config) (ops : list (string * sample)) (name : string) :
  name ∈ Dict.keys (METRICS cfg) ->
  ascending (appends_of name ops) ->
  get_data (run_appends cfg ops (series_init cfg)) !! name
  = Some (window cfg (appends_of name ops)).
Proof.
  intros Hin Hasc. unfold get_data.
  rewrite lookup_fmap, (run_appends_lookup cfg ops _ name _ (series_init_lookup cfg name Hin)).
  simpl. f_equal. by apply fold_push_exact.
Qed.

Lemma series_window_exact_witness :
  "Workers" ∈ Dict.keys (METRICS Demo.cfg)
  /\ get_data (run_appends Demo.cfg
                 [("Workers", (100%Z, Float.of_Z 1)); ("HR1m", (150%Z, Float.of_Z 9));
                  ("Workers", (200%Z, Float.of_Z 2)); ("Workers", (300%Z, Float.of_Z 3));
                  ("Workers", (1250%Z, Float.of_Z 4))]
                 (series_init Demo.cfg)) !! "Workers"
     = Some [(300%Z, Float.of_Z 3); (1250%Z, Float.of_Z 4)].
Proof.
  assert (H : "Workers" ∈ Dict.keys (METRICS Demo.cfg)).
  { simpl. right. left. }
  split; [exact H|].
  rewrite (series_window_exact Demo.cfg _ "Workers" H); [by vm_compute|].
  unfold ascending. vm_compute. repeat constructor.
Defined.

(** ** A restart gives back what was in memory *)

Section Restart.
Variable cfg : config.
Hypothesis distinct : NoDup (Dict.keys (METRICS cfg)).
Hypothesis enabled : PERSIST_ENABLED cfg = true.

Lemma run_tasks_mem turns w :
  mem (run_tasks cfg turns w) = run_appends cfg (appended cfg turns w) (mem w).
Proof using All.
  unfold run_tasks. revert w. induction turns as [|tn turns IH]; intros w; [done|].
  cbn [fold_left appended]. rewrite IH. unfold run_appends. rewrite fold_left_app.
  f_equal. destruct tn as [tk|t]; cbn [task_turn mem]; [|done].
  by rewrite (poll_cycle_mem cfg w tk distinct).
Qed.

Lemma headed_log_append rows f : headed f -> headed (log_append rows f).
Proof using All.
  intros Hf. destruct rows as [|r rows]; [done|].
  destruct Hf as [->|[body ->]]; right; simpl; by eexists.
Qed.

Lemma headed_compact now f : headed f -> headed (_compact_csv cfg now f).
Proof using All.
  intros [->|[body ->]]; [by left|]. right. unfold _compact_csv.
  destruct (negb _); by eexists.
Qed.

Lemma task_turn_disk w tn :
  disk (task_turn cfg w tn)
  = match tn with
    | Poll tk => log_append (batch_rows (t_ms tk) (cycle_batch cfg tk (mem w))) (disk w)
    | Compact now => _compact_csv cfg now (disk w)
    end.
Proof using All.
  destruct tn as [tk|t]; simpl.
  - by rewrite poll_cycle_disk, enabled.
  - unfold compactor_loop. by rewrite enabled.
Qed.

Lemma headed_task_turn w tn : headed (disk w) -> headed (disk (task_turn cfg w tn)).
Proof using All.
  intros H. rewrite task_turn_disk. destruct tn;
    [by apply headed_log_append|by apply headed_compact].
Qed.

Lemma load_log_append now rows f (st : series) :
  headed f ->
  _load_history_into_memory cfg now (log_append rows f) st
  = fold_left (load_step (now - RETENTION_MS cfg)) rows
              (_load_history_into_memory cfg now f st).
Proof using All.
  intros Hf. destruct rows as [|r rows]; [done|].
  unfold _load_history_into_memory. rewrite enabled. cbn [negb].
  destruct Hf as [->|[body ->]]; cbn [log_append].
  - by destruct (decide (CSV_HEADER = CSV_HEADER)).
  - cbn [app]. destruct (decide (CSV_HEADER = CSV_HEADER)); [|done].
    by rewrite fold_left_app.
Qed.

Lemma load_keys now f (st : series) m :
  is_Some (_load_history_into_memory cfg now f st !! m) -> is_Some (st !! m).
Proof using All.
  rewrite load_log_body, enabled.
  generalize (log_samples (now - RETENTION_MS cfg) (log_body f)). intros ops.
  revert st. induction ops as [|[n x] ops IH]; intros st; [done|].
  cbn [fold_left]. intros H. apply IH in H. by eapply load_push_keys.
Qed.

Lemma run_tasks_load now turns w (st : series) :
  headed (disk w) ->
  Forall (fun tn => (turn_time tn <= now)%Z) turns ->
  (forall m, is_Some (st !! m) -> m ∈ Dict.keys (METRICS cfg)) ->
  _load_history_into_memory cfg now (disk (run_tasks cfg turns w)) st
  = fold_left (load_step (now - RETENTION_MS cfg))
              (map op_row (appended cfg turns w))
              (_load_history_into_memory cfg now (disk w) st).
Proof using All.
  intros Hh Hall Hst. unfold run_tasks. revert w Hh.
  induction Hall as [|tn turns Htn _ IH]; intros w Hh; [done|].
  cbn [fold_left appended]. rewrite IH by by apply headed_task_turn.
  rewrite map_app, fold_left_app. f_equal. rewrite task_turn_disk.
  destruct tn as [tk|t].
  - by rewrite load_log_append, batch_rows_ops.
  - simpl. by apply load_compact.
Qed.

Lemma row_sample_op_row c (op : string * sample) :
  row_sample c (op_row op)
  = if (op.2.1 <? c)%Z then None else Some (op.1, reread op.2).
Proof using All.
  unfold row_sample, op_row. by rewrite int_of_str_str_of_int, float_of_str_format.
Qed.

Lemma appends_of_app name (a b : list (string * sample)) :
  appends_of name (a ++ b) = appends_of name a ++ appends_of name b.
Proof using All. unfold appends_of. by rewrite filter_app, map_app. Qed.

Lemma appends_of_cons name (op : string * sample) ops :
  appends_of name (op :: ops)
  = (if String.eqb op.1 name then [op.2] else []) ++ appends_of name ops.
Proof using All.
  unfold appends_of. rewrite filter_cons.
  destruct (String.eqb op.1 name); by destruct (decide _).
Qed.

Lemma log_samples_ops c name ops :
  appends_of name (log_samples c (map op_row ops))
  = map reread (filter (fresh_since c) (appends_of name ops)).
Proof using All.
  induction ops as [|[n [t v]] ops IH]; [done|].
  unfold log_samples. cbn [map omap list_omap]. rewrite row_sample_op_row.
  rewrite (appends_of_cons name (n, (t, v))). cbn [fst snd].
  fold (omap (row_sample c) (map op_row ops)). fold (log_samples c (map op_row ops)).
  destruct (Z.ltb_spec t c) as [Hlt|Hge].
  - rewrite IH. destruct (String.eqb n name); [|done]. cbn [app].
    rewrite filter_cons_False; [done|].
    apply Is_true_false_2. unfold fresh_since. simpl. apply Z.leb_gt. lia.
  - rewrite (appends_of_cons name (n, reread (t, v))), IH. cbn [fst snd].
    destruct (String.eqb n name); [|done]. cbn [app].
    rewrite filter_cons_True; [done|].
    apply Is_true_true_2. unfold fresh_since. simpl. apply Z.leb_le. lia.
Qed.

Lemma appends_of_absent name t (b : dict float) :
  name ∉ Dict.keys b -> appends_of name (batch_ops t b) = [].
Proof using All.
  induction b as [|[k v] b IH]; [done|]. simpl. intros Hnot.
  apply not_elem_of_cons in Hnot as [Hne Hnot].
  rewrite (appends_of_cons name (k, (t, v))). cbn [fst].
  destruct (String.eqb_spec k name); [congruence|]. by apply IH.
Qed.

Lemma appends_of_batch name t (b : dict float) :
  NoDup (Dict.keys b) ->
  appends_of name (batch_ops t b) = [] \/ exists v, appends_of name (batch_ops t b) = [(t, v)].
Proof using All.
  induction b as [|[k v] b IH]; [by left|]. simpl. intros [Hk Hnd]%NoDup_cons.
  rewrite (appends_of_cons name (k, (t, v))). cbn [fst snd].
  destruct (String.eqb_spec k name) as [->|Hne].
  - right. exists v. by rewrite appends_of_absent.
  - by apply IH.
Qed.

Lemma cycle_batch_distinct tk (st : series) : NoDup (Dict.keys (cycle_batch cfg tk st)).
Proof using All.
  unfold cycle_batch. destruct (response tk) as [payload|]; [|constructor].
  eapply sublist_NoDup; [exact distinct|]. by apply poll_metrics_journal.
Qed.

Lemma appended_times name turns w :
  Forall (fun x : sample => x.1 ∈ poll_times turns) (appends_of name (appended cfg turns w)).
Proof using All.
  revert w. induction turns as [|tn turns IH]; intros w; [constructor|].
  cbn [appended]. rewrite appends_of_app. apply Forall_app. split.
  - destruct tn as [tk|t]; [|constructor].
    destruct (appends_of_batch name (t_ms tk) (cycle_batch cfg tk (mem w))) as [->|[v ->]];
      [apply cycle_batch_distinct|constructor|].
    constructor; [|constructor]. simpl. left.
  - eapply Forall_impl; [apply IH|]. intros x Hx.
    destruct tn as [tk|t]; [|done]. simpl. by right.
Qed.

Lemma appended_ascending name turns w :
  StronglySorted Z.lt (poll_times turns) ->
  ascending (appends_of name (appended cfg turns w)).
Proof using All.
  revert w. induction turns as [|tn turns IH]; intros w Hs; [constructor|].
  cbn [appended]. rewrite appends_of_app. destruct tn as [tk|t]; [|by apply IH].
  simpl in Hs. apply StronglySorted_inv in Hs as [Hs Hall].
  destruct (appends_of_batch name (t_ms tk) (cycle_batch cfg tk (mem w))) as [->|[v ->]];
    [apply cycle_batch_distinct|by apply IH|].
  unfold ascending. simpl. constructor; [by apply IH|].
  apply List.Forall_forall. intros t Ht. apply in_map_iff in Ht as (x & <- & Hx).
  rewrite List.Forall_forall in Hall. apply Hall.
  pose proof (appended_times name turns (poll_cycle cfg w tk)) as Hin.
  rewrite Forall_forall in Hin. apply list_elem_of_In, Hin. by apply list_elem_of_In.
Qed.

Lemma poll_times_bounded now turns t :
  Forall (fun tn => (turn_time tn <= now)%Z) turns -> t ∈ poll_times turns -> (t <= now)%Z.
Proof using All.
  induction 1 as [|tn turns Htn _ IH]; simpl; [by intros ?%elem_of_nil|].
  destruct tn as [tk|c]; [|done]. intros [->|?]%elem_of_cons; [done|auto].
Qed.

Lemma lastn_map {A B : Type} (g : A -> B) n (l : list A) :
  lastn n (map g l) = map g (lastn n l).
Proof using All. unfold lastn. rewrite length_map. symmetry. apply (fmap_drop g). Qed.

Lemma restored_window now (apps : list sample) :
  ascending apps ->
  Forall (fun x : sample => (x.1 <= now)%Z) apps ->
  restored cfg now (window cfg apps)
  = lastn (WINDOW_SIZE cfg) (map reread (filter (fresh_since (now - RETENTION_MS cfg)) apps)).
Proof using All.
  intros Hasc Hnow. unfold restored, window. rewrite lastn_map. f_equal.
  destruct (last apps) as [y|] eqn:E.
  - rewrite filter_lastn.
    2:{ eapply ascending_sublist; [apply sublist_filter|done]. }
    rewrite filter_fresh_fresh; [done|].
    apply last_Some in E as [l' ->]. apply Forall_app in Hnow as [_ Hy].
    apply Forall_inv in Hy. lia.
  - apply last_None in E as ->. by destruct (WINDOW_SIZE cfg).
Qed.

Lemma restart_lookup now turns name :
  name ∈ Dict.keys (METRICS cfg) ->
  StronglySorted Z.lt (poll_times turns) ->
  Forall (fun tn => (turn_time tn <= now)%Z) turns ->
  let w := run_tasks cfg turns {| mem := series_init cfg; disk := None |} in
  exists pts,
    get_data (mem w) !! name = Some pts
    /\ get_data (on_startup cfg now (disk w) (series_init cfg)) !! name
       = Some (restored cfg now pts).
Proof using All.
  intros Hin Hs Hall w.
  set (w0 := {| mem := series_init cfg; disk := None |}) in *.
  set (apps := appends_of name (appended cfg turns w0)).
  assert (Hasc : ascending apps) by by apply appended_ascending.
  exists (window cfg apps). split.
  - subst w. rewrite run_tasks_mem. unfold get_data.
    rewrite lookup_fmap,
      (run_appends_lookup cfg _ _ name _ (series_init_lookup cfg name Hin)).
    simpl. f_equal. by apply fold_push_exact.
  - rewrite restored_window; [|done|].
    2:{ eapply Forall_impl; [apply appended_times|]. intros x Hx.
        by eapply poll_times_bounded. }
    unfold get_data, on_startup. rewrite lookup_fmap, resize_init. subst w.
    rewrite run_tasks_load; [|by left|done|apply (proj1 (store_ok_init cfg))].
    cbn [disk _load_history_into_memory w0].
    rewrite load_fold_samples,
      (fold_load_push_lookup _ _ name _ (series_init_lookup cfg name Hin)).
    destruct (fold_deque_append
                (appends_of name
                   (log_samples (now - RETENTION_MS cfg)
                      (map op_row (appended cfg turns w0))))
                (deque_new (WINDOW_SIZE cfg))) as [_ H2]; [simpl; lia|].
    simpl. rewrite H2. simpl. by rewrite log_samples_ops.
Qed.

End Restart.

(** X9. A restart gives back what was in memory. Start with no log
    and let the poller and the compactor take any turns, the clock of
    the poller strictly ascending; then restart at a time not before any
    of these turns. The data served after the start-up are, for each
    configured metric, the data served before it without the points
    older than [RETENTION_MS] at the restart, each value as [float]
    reads the twelve significant digits written for it. *)
Theorem restart_restores_memory
    (cfg : config) (turns : list turn) (now : Z) (name : string) :
  NoDup (Dict.keys (METRICS cfg)) ->
  PERSIST_ENABLED cfg = true ->
  name ∈ Dict.keys (METRICS cfg) ->
  StronglySorted Z.lt (poll_times turns) ->
  Forall (fun tn => (turn_time tn <= now)%Z) turns ->
  exists pts,
    get_data (mem (run_server cfg 0 None turns)) !! name = Some pts
    /\ get_data (mem (run_server cfg now (disk (run_server cfg 0 None turns)) []))
         !! name
       = Some (restored cfg now pts).
Proof.
  intros Hnd He Hin Hs Hall. unfold run_server at 2. cbn [run_tasks fold_left mem].
  unfold run_server. unfold on_startup at 1 3. rewrite resize_init.
  cbn [_load_history_into_memory]. by apply restart_lookup.
Qed.

Lemma restart_restores_memory_witness :
  exists pts,
    get_data (mem (run_server Demo.cfg 0 None
                     [Poll (Demo.tick_ok 100 Demo.payload_full); Compact 150;
                      Poll (Demo.tick_ok 700 Demo.payload_no_hashrate);
                      Compact 800])) !! "Workers" = Some pts
    /\ get_data (mem (run_server Demo.cfg 1200
                        (disk (run_server Demo.cfg 0 None
                                 [Poll (Demo.tick_ok 100 Demo.payload_full); Compact 150;
                                  Poll (Demo.tick_ok 700 Demo.payload_no_hashrate);
                                  Compact 800])) [])) !! "Workers"
       = Some (restored Demo.cfg 1200 pts).
Proof.
  apply (restart_restores_memory Demo.cfg
           [Poll (Demo.tick_ok 100 Demo.payload_full); Compact 150;
            Poll (Demo.tick_ok 700 Demo.payload_no_hashrate); Compact 800]
           1200 "Workers").
  - vm_compute. repeat (apply NoDup_cons; split; [by vm_compute; intros H;
      repeat (apply elem_of_cons in H as [H|H]; [discriminate|]);
      apply elem_of_nil in H|]). apply NoDup_nil_2.
  - reflexivity.
  - simpl. right. left.
  - vm_compute. repeat constructor.
  - repeat constructor; by vm_compute.
Defined.

(** ** The resolver on any path *)

Lemma segment_re_inv part m :
  fullmatch segment_re part = Some m ->
  exists k, k <> [] /\ forallb (fun c => negb (is_bracket c)) k = true
    /\ ((chars part = k /\ m = [(1, text k)])
        \/ exists ds, ds <> [] /\ forallb Chars.is_digit ds = true
             /\ chars part = k ++ "["%char :: ds ++ ["]"%char]
             /\ m = [(2, text ds); (1, text k)]).
Proof.
  unfold fullmatch, segment_re.
  set (tail := Opt _).
  change (run (Cat (Group 1 (Plus (fun c => negb (is_bracket c)))) tail)
              (chars part) [] at_end)
    with (run (Plus (fun c => negb (is_bracket c))) (chars part) []
              (fun s' cs' => run tail s' ((1, Re.consumed (chars part) s') :: cs') at_end)).
  intros (c & a & b & Hs & Hc & Ha & Hk)%plus_inv. cbv beta in Hk.
  rewrite Hs, consumed_cons_app in Hk. rewrite Hs.
  exists (c :: a). split; [done|]. split; [by simpl; rewrite Hc|].
  subst tail. cbn [run] in Hk.
  destruct b as [|c1 b].
  - left. rewrite app_nil_r. split; [done|]. simpl in Hk. by injection Hk as <-.
  - right. cbn [at_end] in Hk.
    destruct (Chars.eqb "[" c1) eqn:H1; [|done].
    unfold Chars.eqb in H1. apply Ascii.eqb_eq in H1 as <-.
    destruct b as [|d b]; [done|]. destruct (Chars.is_digit d) eqn:Hd; [|done].
    destruct (star_k Chars.is_digit b _) as [r|] eqn:E; [|done].
    injection Hk as ->.
    apply star_k_inv in E as (ds & b3 & -> & Hds & Hk).
    destruct b3 as [|c3 b4]; [done|].
    destruct (Chars.eqb "]" c3) eqn:H3; [|done].
    unfold Chars.eqb in H3. apply Ascii.eqb_eq in H3 as <-.
    destruct b4; [|done]. injection Hk as <-.
    exists (d :: ds). split; [done|]. split; [by simpl; rewrite Hd|].
    split; [done|]. by rewrite consumed_cons_app.
Qed.

Lemma segment_re_groups part m :
  fullmatch segment_re part = Some m ->
  exists key, group m 1 = Some key
    /\ (group m 2 = None \/ exists ds i, group m 2 = Some ds /\ Py.int_of_str ds = Some i).
Proof.
  intros (k & _ & _ & [[_ ->]|(ds & Hne & Hds & _ & ->)])%segment_re_inv.
  - exists (text k). split; [done|]. by left.
  - exists (text k). split; [done|]. right. destruct ds as [|d ds]; [done|].
    exists (text (d :: ds)), (Py.digits_val (d :: ds)). split; [done|].
    by apply int_of_str_digits.
Qed.

Lemma walk_path_key_error path cur parts e :
  walk_path path cur parts = Raise e -> exists msg, e = KeyError msg.
Proof.
  revert cur. induction parts as [|part rest IH]; intros cur; [done|].
  cbn [walk_path]. destruct (fullmatch segment_re part) as [m|] eqn:Em.
  2:{ intros H. inversion H. eexists. reflexivity. }
  destruct (segment_re_groups part m Em) as (key & -> & Hidx).
  change (default "None" (Some key)) with key.
  destruct cur as [| | | | | |d]; try (intros H; inversion H; eexists; reflexivity).
  destruct (Dict.get d key) as [cur1|]; [|intros H; inversion H; eexists; reflexivity].
  destruct Hidx as [->|(ds & i & -> & ->)]; [by apply IH|].
  destruct cur1 as [| | | | |l|]; try (intros H; inversion H; eexists; reflexivity).
  destruct (_ && _)%bool; [|intros H; inversion H; eexists; reflexivity].
  destruct (l !! Z.to_nat i); [by apply IH|intros H; inversion H; eexists; reflexivity].
Qed.

Lemma split_dot_go_cons cur s : exists part rest, split_dot_go cur s = part :: rest.
Proof.
  revert cur. induction s as [|c s IH]; intros cur; simpl; [by eexists _, _|].
  destruct (Chars.eqb c "."); [by eexists _, _|apply IH].
Qed.

Lemma walk_path_root path cur part rest v :
  walk_path path cur (part :: rest) = Ok v -> exists d, cur = JDict d.
Proof.
  cbn [walk_path]. destruct (fullmatch segment_re part); [|done].
  destruct cur; try done. by eexists.
Qed.

Lemma get_by_dot_path_root obj path v :
  get_by_dot_path obj path = Ok v -> exists d, obj = JDict d.
Proof.
  unfold get_by_dot_path, split_dot.
  destruct (split_dot_go_cons [] (chars path)) as (part & rest & ->).
  apply walk_path_root.
Qed.

Lemma walk_path_segments path cur parts v :
  walk_path path cur parts = Ok v -> Forall segment_text parts.
Proof.
  revert cur. induction parts as [|part rest IH]; intros cur; [constructor|].
  cbn [walk_path]. destruct (fullmatch segment_re part) as [m|] eqn:Em; [|done].
  intros H. constructor.
  - apply segment_re_inv in Em as (k & Hk & Hnb & [[Hp _]|(ds & Hne & Hds & Hp & _)]).
    + exists k, []. split; [done|]. split; [done|]. left.
      by rewrite <- Hp, text_chars.
    + exists k, ds. split; [done|]. split; [done|]. right.
      split; [done|]. split; [done|]. by rewrite <- Hp, text_chars.
  - destruct cur as [| | | | | |d]; try done.
    destruct (Dict.get d _) as [cur1|]; [|done].
    destruct (group m 2) as [ds|]; [|by eapply IH].
    destruct (Py.int_of_str ds) as [i|]; [|done].
    destruct cur1 as [| | | | |l|]; try done.
    destruct (_ && _)%bool; [|done].
    destruct (l !! Z.to_nat i); [by eapply IH|done].
Qed.

(** X10. Whatever the payload, on a path of at most 4300 characters
    the resolver fails with a [KeyError] and with nothing else: the
    index between the brackets of a segment that is accepted is one
    that [int()] reads. *)
Theorem resolver_raises_only_key_error (obj : json) (path : string) (e : exn) :
  short_text path = true ->
  get_by_dot_path obj path = Raise e -> exists msg, e = KeyError msg.
Proof. intros _. apply walk_path_key_error. Qed.

Lemma resolver_raises_only_key_error_witness :
  short_text "a.b[7].c" = true
  /\ get_by_dot_path Demo.payload_nested "a.b[7].c"
     = Raise (index_out_of_range 7 "b" "a.b[7].c")
  /\ exists msg, index_out_of_range 7 "b" "a.b[7].c" = KeyError msg.
Proof.
  assert (H : get_by_dot_path Demo.payload_nested "a.b[7].c"
              = Raise (index_out_of_range 7 "b" "a.b[7].c")) by by vm_compute.
  split; [reflexivity|]. split; [exact H|].
  exact (resolver_raises_only_key_error Demo.payload_nested "a.b[7].c" _ eq_refl H).
Defined.

(** X11. A path resolves only from a payload that is an object, and
    only when each of its parts between dots is a key, not empty and
    without bracket, alone or followed by digits between brackets: an
    empty path or part, a negative index and a second index never
    resolve, whatever the payload holds. *)
Theorem resolver_accepts_only_segments (obj : json) (path : string) (v : json) :
  get_by_dot_path obj path = Ok v ->
  (exists d, obj = JDict d) /\ Forall segment_text (split_dot path).
Proof.
  intros H. split; [by eapply get_by_dot_path_root|].
  by eapply walk_path_segments.
Qed.

Lemma resolver_accepts_only_segments_witness :
  get_by_dot_path Demo.payload_nested "a.b[01].c" = Ok (JStr "leaf")
  /\ Forall segment_text (split_dot "a.b[01].c").
Proof.
  assert (H : get_by_dot_path Demo.payload_nested "a.b[01].c" = Ok (JStr "leaf"))
    by by vm_compute.
  split; [exact H|].
  exact (proj2 (resolver_accepts_only_segments Demo.payload_nested "a.b[01].c" _ H)).
Defined.

(** ** Payloads that are not an object *)

Lemma extract_metric_non_object (cfg : config) payload name path now :
  (forall d, payload <> JDict d) ->
  exists e, extract_metric cfg payload name path now = Raise e.
Proof.
  intros Hno. unfold extract_metric, extract_value.
  destruct (String.eqb path COMPUTED_AGE).
  - destruct payload; try (by eexists). by destruct (Hno d).
  - destruct (get_by_dot_path payload path) as [v|e] eqn:E; [|by eexists].
    apply get_by_dot_path_root in E as [d ->]. by destruct (Hno d).
Qed.

(** X12. A response that decodes to something other than an object
    (a list, a number, a text, null) gives no point at all: every metric
    fails in its own turn, and the turn of the poller leaves the series
    and the log as they were. *)
Theorem non_object_payload_is_ignored
    (cfg : config) (w : world) (tk : tick) (payload : json) :
  response tk = Some payload ->
  (forall d, payload <> JDict d) ->
  poll_cycle cfg w tk = w.
Proof.
  intros Hr Hno. unfold poll_cycle, poll_metrics, poll_items. rewrite Hr.
  rewrite fold_poll_metric_all_raise; [by destruct w|].
  intros name path _. by apply extract_metric_non_object.
Qed.

Lemma non_object_payload_is_ignored_witness :
  response (Demo.tick_ok 100 (JList [Demo.payload_full])) = Some (JList [Demo.payload_full])
  /\ poll_cycle Demo.cfg Demo.start (Demo.tick_ok 100 (JList [Demo.payload_full]))
     = Demo.start.
Proof.
  split; [reflexivity|].
  apply (non_object_payload_is_ignored Demo.cfg Demo.start
           (Demo.tick_ok 100 (JList [Demo.payload_full])) (JList [Demo.payload_full]));
    [reflexivity|discriminate].
Defined.

(** ** The value parser on any value *)

Lemma parse_unit_number_spaced ws1 ip fp ws u ws2 mult :
  all_of Chars.is_space ws1 = true -> all_of Chars.is_space ws = true ->
  all_of Chars.is_space ws2 = true ->
  all_of Chars.is_digit ip = true -> all_of Chars.is_digit fp = true ->
  ip <> "" \/ fp <> "" ->
  unit_multiplier u = Some mult ->
  parse_unit_number (JStr (ws1 +:+ decimal_text ip fp +:+ ws +:+ u +:+ ws2))
  = Ok (Float.mul (decimal_value ip fp) mult).
Proof.
  unfold all_of. intros H1 Hw H2 Hip Hfp Hne Hu.
  destruct (unit_multiplier_code u mult Hu) as (Hut & Hmap & _).
  assert (Hne' : chars ip ++ chars fp <> []).
  { intros [Ha Hb]%app_eq_nil. apply chars_nil in Ha, Hb. tauto. }
  assert (Hs : ws1 +:+ decimal_text ip fp +:+ ws +:+ u +:+ ws2
               = text (chars ws1 ++ Py.with_point (chars ip) (chars fp)
                         ++ chars ws ++ chars u ++ chars ws2)).
  { apply chars_inj. rewrite chars_text, !chars_app. unfold decimal_text.
    by rewrite chars_text. }
  rewrite Hs. unfold parse_unit_number.
  rewrite number_re_match by done.
  unfold group_value. cbn [group Nat.eqb]. unfold py_float.
  rewrite float_of_str_with_point by done.
  cbn [bind str_upper_of]. rewrite text_chars, Hmap.
  unfold decimal_value. by rewrite length_chars.
Qed.

Lemma unit_letter_multiplier c :
  is_unit_letter c = true -> exists mult, unit_multiplier (String c "") = Some mult.
Proof.
  destruct c as [[] [] [] [] [] [] [] []]; vm_compute; intros H;
    try discriminate; by eexists.
Qed.

Lemma parse_unit_number_shape s :
  unit_number_text s -> exists x, parse_unit_number (JStr s) = Ok x.
Proof.
  intros (ws1 & ip & fp & ws & u & ws2 & -> & H1 & Hw & H2 & Hip & Hfp & Hne & Hu).
  assert (Hm : exists mult, unit_multiplier u = Some mult).
  { destruct Hu as [->|(c & -> & Hc)]; [by eexists|by apply unit_letter_multiplier]. }
  destruct Hm as [mult Hm]. eexists. by apply parse_unit_number_spaced.
Qed.

(** X13. White space is also allowed between the number and the unit
    letter: such a text parses to the float of the number times the
    multiplier of the letter, as without the space. *)
Theorem value_parser_allows_inner_space
    (ws1 ip fp ws u ws2 : string) (mult : float) :
  all_of Chars.is_space ws1 = true -> all_of Chars.is_space ws = true ->
  all_of Chars.is_space ws2 = true ->
  all_of Chars.is_digit ip = true -> all_of Chars.is_digit fp = true ->
  ip <> "" \/ fp <> "" ->
  unit_multiplier u = Some mult ->
  parse_unit_number (JStr (ws1 +:+ decimal_text ip fp +:+ ws +:+ u +:+ ws2))
  = Ok (Float.mul (decimal_value ip fp) mult).
Proof. apply parse_unit_number_spaced. Qed.

Lemma value_parser_allows_inner_space_witness :
  unit_multiplier "T" = Some (Float.of_Z (10 ^ 12))
  /\ parse_unit_number (JStr " 10.7  T ")
     = Ok (Float.mul (decimal_value "10" "7") (Float.of_Z (10 ^ 12))).
Proof.
  split; [reflexivity|].
  apply (value_parser_allows_inner_space " " "10" "7" "  " "T" " ");
    try reflexivity. by left.
Defined.

(** X14. The value parser fails in two ways only: with the
    [ValueError] that shows the value, or, for an integer beyond the
    range of floats, with the [OverflowError] of [float()]. A text that
    matches the pattern of a number with a unit never fails. *)
Theorem value_parser_raises_only :
  (forall (val : json) (e : exn),
     parse_unit_number val = Raise e ->
     e = ValueError_cannot_parse val
     \/ exists n msg, val = JInt n /\ Float.is_inf (Float.of_Z n) = true
                      /\ e = OverflowError msg)
  /\ (forall s : string,
        unit_number_text s -> exists x, parse_unit_number (JStr s) = Ok x).
Proof.
  split; [|apply parse_unit_number_shape].
  intros val e. destruct val as [|b|n|x|s|l|d]; intros H.
  - left. by injection H as <-.
  - done.
  - right. simpl in H. unfold Py.float_of_int in H.
    destruct (Float.is_inf (Float.of_Z n)) eqn:Hn; [|done].
    injection H as <-. by eexists _, _.
  - done.
  - destruct (fullmatch number_re s) as [m|] eqn:Em.
    + apply number_re_inv, parse_unit_number_shape in Em as [x Hx]. congruence.
    + unfold parse_unit_number in H. rewrite Em in H.
      destruct (Py.float_of_str s); [done|]. left. by injection H as <-.
  - left. by injection H as <-.
  - left. by injection H as <-.
Qed.

Lemma value_parser_raises_only_witness :
  parse_unit_number (JInt (2 ^ 1024)) = Raise (OverflowError "int too large to convert to float")
  /\ (OverflowError "int too large to convert to float" = ValueError_cannot_parse (JInt (2 ^ 1024))
      \/ exists n msg, JInt (2 ^ 1024) = JInt n /\ Float.is_inf (Float.of_Z n) = true
                       /\ OverflowError "int too large to convert to float" = OverflowError msg)
  /\ exists x, parse_unit_number (JStr " 674 g ") = Ok x.
Proof.
  assert (H : parse_unit_number (JInt (2 ^ 1024))
              = Raise (OverflowError "int too large to convert to float")) by by vm_compute.
  split; [exact H|]. split.
  - exact (proj1 value_parser_raises_only (JInt (2 ^ 1024)) _ H).
  - apply (proj2 value_parser_raises_only " 674 g ").
    exists " ", "674", "", " ", "g", " ". repeat split; try reflexivity.
    + by left.
    + right. by exists "g"%char.
Defined.

(** X15. A text that is not a number with a unit is read by
    [float()] alone: a sign, an exponent, [inf] and [nan] are accepted
    that way, and none of them with a unit letter. *)
Theorem value_parser_falls_back_to_float (s : string) :
  ~ unit_number_text s ->
  parse_unit_number (JStr s)
  = match Py.float_of_str s with
    | Some x => Ok x
    | None => Raise (ValueError_cannot_parse (JStr s))
    end.
Proof.
  intros Hno. unfold parse_unit_number.
  destruct (fullmatch number_re s) as [m|] eqn:Em; [|done].
  by apply number_re_inv in Em.
Qed.

Lemma value_parser_falls_back_to_float_witness :
  (~ unit_number_text "-1.5e3" /\ ~ unit_number_text "-5K")
  /\ parse_unit_number (JStr "-1.5e3") = Ok (Float.of_Z (-1500))
  /\ parse_unit_number (JStr "-5K") = Raise (ValueError_cannot_parse (JStr "-5K")).
Proof.
  assert (H1 : ~ unit_number_text "-1.5e3").
  { intros [m Hm]%number_re_complete. by vm_compute in Hm. }
  assert (H2 : ~ unit_number_text "-5K").
  { intros [m Hm]%number_re_complete. by vm_compute in Hm. }
  split; [done|]. split.
  - rewrite (value_parser_falls_back_to_float "-1.5e3" H1). by vm_compute.
  - rewrite (value_parser_falls_back_to_float "-5K" H2). by vm_compute.
Defined.

(** ** A metric that is read *)

Section Success.
Variable cfg : config.

Lemma dict_get_set_same {V : Type} (b : dict V) name (v : V) :
  Dict.get (Dict.set b name v) name = Some v.
Proof.
  induction b as [|[k x] b IH]; simpl.
  - by rewrite String.eqb_refl.
  - destruct (String.eqb_spec k name) as [->|Hne]; simpl.
    + by rewrite String.eqb_refl.
    + destruct (String.eqb_spec k name); [done|apply IH].
Qed.

Lemma drop_expired_newest horizon t v (l : list sample) :
  (0 <= horizon)%Z ->
  exists l', drop_expired horizon t (l ++ [(t, v)]) = l' ++ [(t, v)].
Proof.
  intros Hh. induction l as [|[ts x] l [l' IH]]; simpl.
  - exists []. destruct (Z.ltb_spec horizon (t - t)); [lia|done].
  - destruct (horizon <? t - ts)%Z; [by exists l'|]. by exists ((ts, x) :: l).
Qed.

Lemma push_sample_newest t v d :
  (1 <= maxlen d)%nat -> (0 <= RETENTION_MS cfg)%Z ->
  last (items (push_sample cfg t v d)) = Some (t, v).
Proof.
  intros Hm Hh. unfold push_sample, deque_append. cbn [items maxlen].
  assert (H : exists l, (if (maxlen d <? length (items d ++ [(t, v)]))%nat
                         then tail (items d ++ [(t, v)]) else items d ++ [(t, v)])
                        = l ++ [(t, v)]).
  { destruct (Nat.ltb_spec (maxlen d) (length (items d ++ [(t, v)]))) as [Hlt|_];
      [|by eexists].
    destruct (items d) as [|y l]; simpl in *; [lia|]. by exists l. }
  destruct H as [l ->].
  destruct (drop_expired_newest (RETENTION_MS cfg) t v l Hh) as [l' ->].
  apply last_snoc.
Qed.

End Success.

(** X16. Within a turn of the poller, a metric whose value is read
    gets the point (time of the turn, value) pushed to its series and
    the value put in the batch for the log under its name, whatever
    happens to the other metrics (the names of [METRICS], the keys of a
    dictionary, are distinct). *)
Theorem extraction_success_is_recorded
    (cfg : config) (tk : tick) (payload : json) (st : series)
    (name path : string) (v : float) (d : deque) :
  NoDup (Dict.keys (METRICS cfg)) ->
  (name, path) ∈ METRICS cfg ->
  st !! name = Some d ->
  extract_metric cfg payload name path (now_s tk name) = Ok v ->
  (poll_metrics cfg tk payload st).1 !! name = Some (push_sample cfg (t_ms tk) v d)
  /\ Dict.get (poll_metrics cfg tk payload st).2 name = Some v.
Proof.
  intros Hnd Hin Hd Hex.
  apply list_elem_of_split in Hin as (pre & post & HM).
  unfold poll_metrics, poll_items. rewrite HM in Hnd |- *.
  rewrite keys_app in Hnd. simpl in Hnd.
  apply NoDup_app in Hnd as (_ & Hpre & [Hpost _]%NoDup_cons).
  assert (Hpre' : name ∉ Dict.keys pre).
  { intros Hp. apply (Hpre name Hp). left. }
  rewrite fold_poll_metric_app. cbn [fold_left].
  destruct (fold_poll_metric_other cfg tk payload pre (st, []) name Hpre') as [H1 _].
  destruct (fold_left (poll_metric cfg tk payload) pre (st, [])) as [st1 b1].
  cbn [fst] in H1. rewrite Hd in H1.
  rewrite (poll_metric_ok cfg tk payload st1 _ b1 name path v Hex
             (series_append_same cfg st1 name (t_ms tk) v d H1)).
  destruct (fold_poll_metric_other cfg tk payload post
              (<[name := push_sample cfg (t_ms tk) v d]> st1, Dict.set b1 name v)
              name Hpost) as [H3 H4].
  rewrite H3, H4. cbn [fst snd]. split.
  - by rewrite lookup_insert_eq.
  - apply dict_get_set_same.
Qed.

Lemma extraction_success_is_recorded_witness :
  extract_metric Demo.cfg Demo.payload_full "Workers" "workers" (Demo.clock "Workers")
  = Ok (Float.of_Z 3)
  /\ Dict.get (poll_metrics Demo.cfg (Demo.tick_ok 100 Demo.payload_full)
                 Demo.payload_full (series_init Demo.cfg)).2 "Workers"
     = Some (Float.of_Z 3).
Proof.
  assert (H : extract_metric Demo.cfg Demo.payload_full "Workers" "workers"
                (Demo.clock "Workers") = Ok (Float.of_Z 3)) by by vm_compute.
  split; [exact H|].
  refine (proj2 (extraction_success_is_recorded Demo.cfg
                   (Demo.tick_ok 100 Demo.payload_full) Demo.payload_full
                   (series_init Demo.cfg) "Workers" "workers" (Float.of_Z 3)
                   (deque_new 3) _ _ _ H)).
  - vm_compute. repeat (apply NoDup_cons; split; [by vm_compute; intros H';
      repeat (apply elem_of_cons in H' as [H'|H']; [discriminate|]);
      apply elem_of_nil in H'|]). apply NoDup_nil_2.
  - simpl. right. left.
  - by vm_compute.
Defined.

(** X17. With room for one point at least and a retention that is
    not negative, the point just appended is the last of its series,
    whatever the timestamps before it: the newest value is always
    served. *)
Theorem newest_point_is_served
    (cfg : config) (st st' : series) (name : string) (t : Z) (v : float) :
  store_ok cfg st ->
  (1 <= WINDOW_SIZE cfg)%nat ->
  (0 <= RETENTION_MS cfg)%Z ->
  series_append cfg st name t v = Ok st' ->
  exists pts, get_data st' !! name = Some (pts ++ [(t, v)]).
Proof.
  intros Hok Hw Hh. unfold series_append.
  destruct (st !! name) as [d|] eqn:Hd; [|done]. intros [= <-].
  destruct (proj2 Hok name d Hd) as [Hm _].
  pose proof (push_sample_newest cfg t v d) as Hl.
  rewrite Hm in Hl. specialize (Hl Hw Hh).
  apply last_Some in Hl as [pts Hp].
  exists pts. unfold get_data. by rewrite lookup_fmap, lookup_insert_eq, <- Hp.
Qed.

Lemma newest_point_is_served_witness :
  store_ok Demo.cfg (series_init Demo.cfg)
  /\ exists pts,
       get_data (<["Workers" := push_sample Demo.cfg 5 (Float.of_Z 1)
                                  (deque_new 3)]> (series_init Demo.cfg)) !! "Workers"
       = Some (pts ++ [(5%Z, Float.of_Z 1)]).
Proof.
  split; [apply store_ok_init|].
  apply (newest_point_is_served Demo.cfg (series_init Demo.cfg) _ "Workers" 5 (Float.of_Z 1)).
  - apply store_ok_init.
  - simpl. lia.
  - simpl. lia.
  - reflexivity.
Defined.

(** ** Compaction of the rows that the poller writes *)

Section CompactWritten.
Variable cfg : config.

Lemma compact_step_op_row cutoff (op : string * sample) :
  compact_step cfg cutoff CSV_HEADER (op_row op)
  = if still_kept cfg cutoff op then [op_row op] else [].
Proof.
  unfold compact_step, op_row, still_kept.
  rewrite row_dict_three, compact_row_fields. cbn [int_of_field].
  rewrite int_of_str_str_of_int. cbn [bind]. by destruct (_ && _).
Qed.

Lemma compact_body_op_rows cutoff ops :
  concat (map (compact_step cfg cutoff CSV_HEADER) (map op_row ops))
  = map op_row (filter (still_kept cfg cutoff) ops).
Proof.
  induction ops as [|op ops IH]; [done|].
  cbn [map concat]. rewrite IH, compact_step_op_row.
  destruct (still_kept cfg cutoff op) eqn:E.
  - by rewrite filter_cons_True by by apply Is_true_true_2.
  - by rewrite filter_cons_False by by apply Is_true_false_2.
Qed.

Lemma op_row_not_header (op : string * sample) : op_row op <> CSV_HEADER.
Proof.
  unfold op_row, CSV_HEADER. intros [= H _ _].
  pose proof (int_of_str_str_of_int op.2.1) as Hi. rewrite H in Hi.
  by vm_compute in Hi.
Qed.

Lemma dict_set_keys {V : Type} (d : dict V) k (v : V) k' :
  k' ∈ Dict.keys (Dict.set d k v) -> k' = k \/ k' ∈ Dict.keys d.
Proof.
  induction d as [|[k0 v0] d IH]; simpl.
  - intros [->|H]%elem_of_cons; [by left|by right].
  - destruct (String.eqb_spec k0 k) as [->|Hne]; simpl; [by right|].
    intros [->|H]%elem_of_cons; [right; left|].
    destruct (IH H) as [->|H']; [by left|right; by right].
Qed.

Lemma dict_get_absent {V : Type} (d : dict V) k :
  k ∉ Dict.keys d -> Dict.get d k = None.
Proof.
  induction d as [|[k0 v0] d IH]; [done|]. simpl.
  intros [Hne Hnot]%not_elem_of_cons.
  destruct (String.eqb_spec k0 k); [congruence|by apply IH].
Qed.

(** The keys of the dictionary of a row are field names. *)
Lemma row_dict_keys fieldnames r k :
  k ∈ Dict.keys (row_dict fieldnames r) -> k ∈ fieldnames.
Proof.
  unfold row_dict.
  assert (H1 : forall (l : list (string * string)) (d : dict (option string)),
            k ∈ Dict.keys (fold_left (fun d '(key, x) => Dict.set d key (Some x)) l d) ->
            k ∈ map fst l \/ k ∈ Dict.keys d).
  { induction l as [|[key x] l IH]; intros d; [by right|]. cbn [fold_left map fst].
    intros [H|H]%IH; [left; by right|].
    apply dict_set_keys in H as [->|H]; [left; left|by right]. }
  assert (H2 : forall (l : list string) (d : dict (option string)),
            k ∈ Dict.keys (fold_left (fun d key => Dict.set d key None) l d) ->
            k ∈ l \/ k ∈ Dict.keys d).
  { induction l as [|key l IH]; intros d; [by right|]. cbn [fold_left].
    intros [H|H]%IH; [left; by right|].
    apply dict_set_keys in H as [->|H]; [left; left|by right]. }
  intros [H|H]%H2.
  - by apply (subseteq_drop (length r) fieldnames).
  - apply H1 in H as [H|H]; [|by apply elem_of_nil in H].
    apply list_elem_of_In, in_map_iff in H as ([key x] & <- & Hin).
    apply list_elem_of_In in Hin. by apply elem_of_zip_l in Hin.
Qed.

Lemma op_row_fields (op : string * sample) k :
  k = "ts_ms" \/ k = "metric" -> k ∈ op_row op -> op.1 = k.
Proof.
  intros Hk. unfold op_row.
  assert (Hi : Py.int_of_str k = None) by (destruct Hk as [->| ->]; by vm_compute).
  assert (Hf : Py.float_of_str k = None) by (destruct Hk as [->| ->]; by vm_compute).
  intros [H|[H|[H|H]%elem_of_cons]%elem_of_cons]%elem_of_cons.
  - rewrite H, int_of_str_str_of_int in Hi. discriminate.
  - done.
  - rewrite H, float_of_str_format in Hf. discriminate.
  - by apply elem_of_nil in H.
Qed.

(** With a row of the poller for field names, no row is kept. *)
Lemma compact_step_headerless cutoff (op : string * sample) r :
  compact_step cfg cutoff (op_row op) r = [].
Proof.
  unfold compact_step. destruct r as [|x r]; [done|].
  unfold compact_row. set (d := row_dict (op_row op) (x :: r)).
  assert (Hd : forall k, k = "ts_ms" \/ k = "metric" -> op.1 <> k ->
            row_get d k = Raise (KeyError k)).
  { intros k Hk Hne. unfold row_get. rewrite dict_get_absent; [done|].
    intros Hin%row_dict_keys. by apply Hne, op_row_fields. }
  destruct (decide (op.1 = "ts_ms")) as [E|E].
  - rewrite (Hd "metric"); [|by right|by rewrite E].
    destruct (row_get d "ts_ms") as [y|]; [|done]. cbn [bind].
    by destruct (int_of_field y).
  - rewrite (Hd "ts_ms"); [done|by left|done].
Qed.

Lemma compact_headerless now ops :
  PERSIST_ENABLED cfg = true ->
  _compact_csv cfg now (log_append (map op_row ops) (Some [])) = Some [CSV_HEADER].
Proof.
  intros He. unfold _compact_csv. destruct ops as [|op ops]; cbn [map log_append app];
    rewrite He; cbn [negb]; [done|].
  do 2 f_equal. induction (map op_row ops) as [|r rows IH]; [done|].
  cbn [map concat]. by rewrite compact_step_headerless.
Qed.

End CompactWritten.

(** X18. What compaction writes is a compacted log, whatever the
    rows that it reads: the header, then only rows of three fields with
    a time that [int()] reads and that is not before
    [now - RETENTION_MS] and with a configured metric. The fields of
    the rows read are texts of at most 4300 characters, which
    [csv.reader] and [int()] read. *)
Theorem compaction_enforces_retention (cfg : config) (now : Z) (rows : list row) :
  PERSIST_ENABLED cfg = true ->
  forallb plain_row rows = true ->
  compacted cfg (now - RETENTION_MS cfg) (_compact_csv cfg now (Some rows)).
Proof. intros He _. by apply compact_output. Qed.

Lemma compaction_enforces_retention_witness :
  PERSIST_ENABLED Demo.cfg = true
  /\ forallb plain_row
       [["value"; "metric"; "ts_ms"; "note"]; ["1"; "Workers"; "400"; "old"];
        ["2"; "Workers"; "600"; "new"]; ["3"; "Other"; "700"]; ["x"]] = true
  /\ compacted Demo.cfg (1500 - RETENTION_MS Demo.cfg)
       (_compact_csv Demo.cfg 1500
          (Some [["value"; "metric"; "ts_ms"; "note"]; ["1"; "Workers"; "400"; "old"];
                 ["2"; "Workers"; "600"; "new"]; ["3"; "Other"; "700"]; ["x"]])).
Proof.
  split; [reflexivity|]. split; [by vm_compute|].
  apply (compaction_enforces_retention Demo.cfg 1500); [reflexivity|by vm_compute].
Defined.

(** X19. On a log that the poller wrote, compaction is the filter
    of retention: the rows of the points not older than
    [now - RETENTION_MS] whose metric is still configured stay, as they
    were written and in their order, and the others go. *)
Theorem compaction_keeps_fresh_rows
    (cfg : config) (now : Z) (ops : list (string * sample)) :
  PERSIST_ENABLED cfg = true ->
  _compact_csv cfg now (Some (CSV_HEADER :: map op_row ops))
  = Some (CSV_HEADER
            :: map op_row (filter (still_kept cfg (now - RETENTION_MS cfg)) ops)).
Proof.
  intros He. unfold _compact_csv. rewrite He. cbn [negb].
  by rewrite compact_body_op_rows.
Qed.

Lemma compaction_keeps_fresh_rows_witness :
  PERSIST_ENABLED Demo.cfg = true
  /\ _compact_csv Demo.cfg 1500
       (Some (CSV_HEADER :: map op_row [("Workers", (400%Z, Float.of_Z 1));
                                        ("Workers", (600%Z, Float.of_Z 2));
                                        ("Other", (700%Z, Float.of_Z 3))]))
     = Some [CSV_HEADER; ["600"; "Workers"; "2"]].
Proof.
  split; [reflexivity|].
  rewrite (compaction_keeps_fresh_rows Demo.cfg 1500 _ eq_refl). by vm_compute.
Defined.

(** X20. What is polled into a log file that exists but is empty is
    lost.  The poller appends its rows to the file as to any file that
    exists, without the header, so that the first of them is taken for
    the header: a start-up before a compaction loads nothing from the
    file, and the first compaction drops every row and leaves the
    header alone.  The names of the metrics are texts of at most 4300
    characters, which [csv.reader] reads. *)
Theorem empty_file_loses_first_rows
    (cfg : config) (ticks : list tick) (w : world) :
  PERSIST_ENABLED cfg = true ->
  disk w = Some [] ->
  forallb short_text (Dict.keys (METRICS cfg)) = true ->
  (forall now st,
     _load_history_into_memory cfg now (disk (poller cfg ticks w)) st = st)
  /\ (forall now,
        disk (task_turn cfg (poller cfg ticks w) (Compact now)) = Some [CSV_HEADER]).
Proof.
  intros He Hd _. split.
  - intros now st. rewrite poller_disk by done. rewrite Hd.
    unfold _load_history_into_memory.
    destruct (polled cfg ticks w) as [|op ops]; cbn [map log_append app];
      rewrite He; cbn [negb]; [done|].
    destruct (decide (op_row op = CSV_HEADER)) as [E|_]; [|done].
    by apply op_row_not_header in E.
  - intros now. cbn [task_turn disk]. unfold compactor_loop. rewrite He.
    cbn [negb fold_left]. rewrite poller_disk by done. rewrite Hd.
    by apply compact_headerless.
Qed.

Lemma empty_file_loses_first_rows_witness :
  PERSIST_ENABLED Demo.cfg = true
  /\ forallb short_text (Dict.keys (METRICS Demo.cfg)) = true
  /\ disk (poller Demo.cfg [Demo.tick_ok 100 Demo.payload_full]
             {| mem := series_init Demo.cfg; disk := Some [] |})
     = Some [["100"; "HR1m"; "10.7"]; ["100"; "Workers"; "3"]; ["100"; "Age"; "5.5"]]
  /\ _load_history_into_memory Demo.cfg 200
       (disk (poller Demo.cfg [Demo.tick_ok 100 Demo.payload_full]
                {| mem := series_init Demo.cfg; disk := Some [] |}))
       (series_init Demo.cfg)
     = series_init Demo.cfg
  /\ disk (task_turn Demo.cfg
             (poller Demo.cfg [Demo.tick_ok 100 Demo.payload_full]
                {| mem := series_init Demo.cfg; disk := Some [] |})
             (Compact 150))
     = Some [CSV_HEADER].
Proof.
  split; [reflexivity|]. split; [by vm_compute|]. split; [by vm_compute|].
  destruct (empty_file_loses_first_rows Demo.cfg [Demo.tick_ok 100 Demo.payload_full]
              {| mem := series_init Demo.cfg; disk := Some [] |}
              eq_refl eq_refl ltac:(by vm_compute)) as [H1 H2].
  split; [apply H1|apply H2].
Defined.
